(** * Location-code resolution and responsible-party assignment

    A shallow embedding of the decision logic of the accrual pipeline:
    [location_codes_finder.py] (code normalisation, validation, address
    index), [matrix_mapping.py] (responsible party) and [main_logic.py]
    (the pipeline that chains them over the rows of a report).

    Modelling conventions.
    - A Python [str] is a [string] of 8-bit characters; [upper], [strip],
      [isdigit], the regular-expression classes and [zfill] are the ASCII
      restrictions of the Python operations.
    - A table cell is a [cell]: Python's [None], a floating NaN, or a value
      given by its [str()] rendering.
    - Dictionaries and sets are stdpp's [gmap] and [gset]; a data-frame row
      is a [gmap] from column labels to cells, a data frame is its list of
      column labels with its list of rows. *)

From stdpp Require Import gmap strings list.
From Stdlib Require Import Ascii ZArith Lia DecimalString Sorted.

(** ** Python string primitives *)

Module Py.

(** [str.isspace] on one character: TAB..CR, FS..US and the space. *)
Definition isspace (c : ascii) : bool :=
  let n := nat_of_ascii c in
  ((9 <=? n) && (n <=? 13)) || ((28 <=? n) && (n <=? 32)).

Definition is_digit (c : ascii) : bool :=
  let n := nat_of_ascii c in (48 <=? n) && (n <=? 57).

Definition is_lower (c : ascii) : bool :=
  let n := nat_of_ascii c in (97 <=? n) && (n <=? 122).

Definition is_upper (c : ascii) : bool :=
  let n := nat_of_ascii c in (65 <=? n) && (n <=? 90).

(** The class [\w] of the [re] module: letters, digits and underscore. *)
Definition is_word (c : ascii) : bool :=
  is_digit c || is_lower c || is_upper c || (nat_of_ascii c =? 95).

Definition is_sign (c : ascii) : bool :=
  (nat_of_ascii c =? 43) || (nat_of_ascii c =? 45).

Definition upper_char (c : ascii) : ascii :=
  if is_lower c then ascii_of_nat (nat_of_ascii c - 32) else c.

Definition lower_char (c : ascii) : ascii :=
  if is_upper c then ascii_of_nat (nat_of_ascii c + 32) else c.

Fixpoint map_chars (f : ascii → ascii) (s : string) : string :=
  match s with
  | EmptyString => EmptyString
  | String c r => String (f c) (map_chars f r)
  end.

Fixpoint all_chars (p : ascii → bool) (s : string) : bool :=
  match s with
  | EmptyString => true
  | String c r => p c && all_chars p r
  end.

Definition upper : string → string := map_chars upper_char.
Definition lower : string → string := map_chars lower_char.

Definition is_empty (s : string) : bool :=
  match s with EmptyString => true | _ => false end.

Fixpoint lstrip (s : string) : string :=
  match s with
  | EmptyString => EmptyString
  | String c r => if isspace c then lstrip r else s
  end.

Fixpoint rstrip (s : string) : string :=
  match s with
  | EmptyString => EmptyString
  | String c r =>
      match rstrip r with
      | EmptyString => if isspace c then EmptyString else String c EmptyString
      | r' => String c r'
      end
  end.

(** [s.strip()] *)
Definition strip (s : string) : string := rstrip (lstrip s).

(** [s.isdigit()]: at least one character, all of them digits. *)
Definition isdigit (s : string) : bool :=
  negb (is_empty s) && all_chars is_digit s.

(** [re.fullmatch(r"\d+", s) is not None] *)
Fixpoint fullmatch_digits (s : string) : bool :=
  match s with
  | EmptyString => false
  | String c EmptyString => is_digit c
  | String c r => is_digit c && fullmatch_digits r
  end.

Fixpoint zeros (n : nat) : string :=
  match n with
  | O => EmptyString
  | S k => String "0" (zeros k)
  end.

Definition starts_with_sign (s : string) : bool :=
  match s with
  | String c _ => is_sign c
  | EmptyString => false
  end.

(** [s.zfill(width)]: zeros are added on the left, after a leading sign. *)
Definition zfill (width : nat) (s : string) : string :=
  let n := String.length s in
  if width <=? n then s
  else match s with
       | String c r =>
           if is_sign c then String c (zeros (width - n) +:+ r)
           else zeros (width - n) +:+ s
       | EmptyString => zeros width
       end.

Fixpoint drop_chars (n : nat) (s : string) : string :=
  match n, s with
  | O, _ => s
  | S k, String _ r => drop_chars k r
  | S _, EmptyString => EmptyString
  end.

(** [s[-n:]] for a positive [n] *)
Definition last_chars (n : nat) (s : string) : string :=
  drop_chars (String.length s - n) s.

Fixpoint startswith (p s : string) : bool :=
  match p, s with
  | EmptyString, _ => true
  | String a p', String b s' => bool_decide (a = b) && startswith p' s'
  | String _ _, EmptyString => false
  end.

(** [sub in s] *)
Fixpoint contains (sub s : string) : bool :=
  startswith sub s ||
  match s with
  | EmptyString => false
  | String _ r => contains sub r
  end.

(** [s.replace(" ", "")] *)
Fixpoint remove_spaces (s : string) : string :=
  match s with
  | EmptyString => EmptyString
  | String c r =>
      if bool_decide (c = " "%char) then remove_spaces r
      else String c (remove_spaces r)
  end.

Fixpoint take_word (s : string) : string :=
  match s with
  | EmptyString => EmptyString
  | String c r => if isspace c then EmptyString else String c (take_word r)
  end.

(** [s.split()[0]], when [s.split()] is not empty *)
Definition first_word (s : string) : option string :=
  match lstrip s with
  | EmptyString => None
  | t => Some (take_word t)
  end.

(** [re.search(r"^\s*$", s) is not None] *)
Definition blank (s : string) : bool := all_chars isspace s.

End Py.

(** ** Cells *)

Inductive cell :=
| PyNone
| NaN
| Str (s : string).

Global Instance cell_eq_dec : EqDecision cell.
Proof. solve_decision. Defined.

(** [pd.isna(v)] *)
Definition isna (v : cell) : bool :=
  match v with Str _ => false | _ => true end.

(** [str(v)] *)
Definition str (v : cell) : string :=
  match v with
  | PyNone => "None"
  | NaN => "nan"
  | Str s => s
  end.

(** [series.fillna(x)] on one cell *)
Definition fillna (x : cell) (v : cell) : cell :=
  if isna v then x else v.

(** [a == b] on cells: a NaN differs from everything, itself included. *)
Definition py_eq (a b : cell) : bool :=
  match a, b with
  | PyNone, PyNone => true
  | Str x, Str y => bool_decide (x = y)
  | _, _ => false
  end.

(** ** [location_codes_finder.py]: the code normaliser *)

Definition format_code_4 (code : cell) : option string :=
  if isna code then None
  else
    let s := Py.upper (Py.strip (str code)) in
    if Py.is_empty s then None
    else if Py.isdigit s then Some (Py.last_chars 4 (Py.zfill 4 s))
    else Some (Py.zfill 4 s).

(** The text that stands for an optional code: nothing for an absent one. *)
Definition code_text (o : option string) : string := default "" o.

(** ** [main_logic.py]: the pipeline's own normaliser *)

Definition _normalize_loc_code (v : cell) : string :=
  match v with
  | PyNone => ""
  | _ =>
      let s := Py.upper (Py.strip (str v)) in
      if Py.is_empty s then ""
      else if Py.fullmatch_digits s then Py.zfill 4 s
      else s
  end.

(** [_normalize_loc_code_series] on one cell:
    [s.fillna("").astype(str).map(_normalize_loc_code)] *)
Definition _normalize_loc_code_series (v : cell) : string :=
  _normalize_loc_code (Str (str (fillna (Str "") v))).


(** ** [location_codes_finder.py]: the reference index *)

(** A Python [None] result stored in a cell. *)
Definition cell_of (o : option string) : cell :=
  match o with
  | Some s => Str s
  | None => PyNone
  end.

(** [dict(pairs)]: the pairs are inserted in order, a later pair with the
    same key replaces the earlier one. *)
Definition dict_of_pairs `{Countable K} {V} (pairs : list (K * V)) : gmap K V :=
  foldl (λ m kv, <[kv.1 := kv.2]> m) ∅ pairs.

(** One row of the location directory passed as [master_table]; a column
    the table lacks reads as the default [""] of [r.get]. *)
Record my_location := MyLocation {
  Loc_Address : cell;
  Loc_City : cell;
  Loc_ST : cell;
  Loc_Code : cell
}.

Definition combine_addr (street city state : cell) : option string :=
  if isna street || isna city || isna state then None
  else
    let street_str := Py.strip (str street) in
    let city_str := Py.strip (str city) in
    let state_str := Py.strip (str state) in
    if Py.is_empty street_str || Py.is_empty city_str || Py.is_empty state_str
    then None
    else
      match Py.first_word street_str, Py.first_word city_str with
      | Some street_part, Some city_part =>
          Some (Py.upper (Py.remove_spaces (street_part +:+ city_part +:+ state_str)))
      | _, _ => None
      end.

Record Location_Codes_Finder := Finder {
  codes_set_raw : gset string;
  codes_set_4 : gset string;
  address_to_code : gmap string string
}.

(** [k not in [None, ""]] *)
Definition usable_key (k : option string) : option string :=
  match k with
  | Some s => if Py.is_empty s then None else Some s
  | None => None
  end.

(** The key of a row of the master table:
    [combine_addr(r.get("Loc_Address", ""), r.get("Loc_City", ""), r.get("Loc_ST", ""))] *)
Definition address_key (r : my_location) : option string :=
  combine_addr (Loc_Address r) (Loc_City r) (Loc_ST r).

(** [zip(master_keys, master_codes)] without the unusable keys *)
Definition master_pairs (master_table : list my_location) : list (string * string) :=
  omap (λ r,
          k ← usable_key (address_key r);
          Some (k, Py.upper (Py.strip (str (Loc_Code r)))))
       master_table.

(** [Location_Codes_Finder.__init__] *)
Definition Location_Codes_Finder__init__
    (master_table : list my_location) (codes_list : list cell) : Location_Codes_Finder :=
  let codes := (λ c, Py.upper (Py.strip (str c))) <$> filter (λ c, isna c = false) codes_list in
  let raw_set : gset string := list_to_set codes in
  let fmt4_set : gset string := set_omap (λ c, format_code_4 (Str c)) raw_set in
  {| codes_set_raw := raw_set;
     codes_set_4 := fmt4_set;
     address_to_code := dict_of_pairs (master_pairs master_table) |}.

Definition validate_code_in_list (self : Location_Codes_Finder) (code : cell) : option string :=
  match format_code_4 code with
  | None => None
  | Some formatted =>
      if decide (formatted ∈ codes_set_4 self) then Some formatted
      else
        let raw := Py.upper (Py.strip (str code)) in
        if decide (raw ∈ codes_set_raw self) then format_code_4 (Str raw)
        else None
  end.

(** *** Tokens of [extract_from_text] *)

Definition is_code_char (c : ascii) : bool := Py.is_upper c || Py.is_digit c.

(** [re.findall(r"[A-Z0-9]+", text)]: [cur] is the run being read, reversed. *)
Fixpoint alnum_runs (cur : string) (text : string) : list string :=
  match text with
  | EmptyString => if Py.is_empty cur then [] else [String.rev cur]
  | String c r =>
      if is_code_char c then alnum_runs (String c cur) r
      else if Py.is_empty cur then alnum_runs "" r
      else String.rev cur :: alnum_runs "" r
  end.

Inductive shape_state :=
| Idle
| InDigits (tok : string) (n : nat)
| InLetters (tok : string).

(** [re.findall(r"\d{1,4}[A-Z]{0,2}|\d{1,4}", text)]: up to four digits,
    then up to two capital letters; [tok] is the match being read, reversed. *)
Fixpoint code_shapes (st : shape_state) (text : string) : list string :=
  match text with
  | EmptyString =>
      match st with
      | Idle => []
      | InDigits tok _ | InLetters tok => [String.rev tok]
      end
  | String c r =>
      match st with
      | Idle =>
          if Py.is_digit c then code_shapes (InDigits (String c "") 1) r
          else code_shapes Idle r
      | InDigits tok n =>
          if Py.is_digit c then
            if n <? 4 then code_shapes (InDigits (String c tok) (S n)) r
            else String.rev tok :: code_shapes (InDigits (String c "") 1) r
          else if Py.is_upper c then code_shapes (InLetters (String c tok)) r
          else String.rev tok :: code_shapes Idle r
      | InLetters tok =>
          if Py.is_upper c then String.rev (String c tok) :: code_shapes Idle r
          else if Py.is_digit c then String.rev tok :: code_shapes (InDigits (String c "") 1) r
          else String.rev tok :: code_shapes Idle r
      end
  end.

(** [sorted(xs, key=len, reverse=True)]: stable, longest first. *)
Fixpoint insert_by_len (t : string) (l : list string) : list string :=
  match l with
  | [] => [t]
  | x :: l' =>
      if String.length x <=? String.length t then t :: l
      else x :: insert_by_len t l'
  end.

Definition sorted_by_len_desc (l : list string) : list string :=
  foldr insert_by_len [] l.

(** [for x in xs: v = f(x); if v: return v] and [return None] after the loop. *)
Fixpoint first_some {A B} (f : A → option B) (l : list A) : option B :=
  match l with
  | [] => None
  | x :: l' =>
      match f x with
      | Some y => Some y
      | None => first_some f l'
      end
  end.

(** What the embedding takes from outside the three modules: the iteration
    order of a Python [set] built from a list of tokens, and the two tables
    that [matrix_mapping.py] imports from the module [coding_matrix]. *)
Class Env := {
  set_iteration : list string → list string;
  SPECIAL_TYPE_MAPPINGS : gmap (string * string) string;
  Coding_Matrix : gmap (string * string) string
}.

Section Finder.
Context `{Env}.

Definition extract_from_text (self : Location_Codes_Finder) (consignor_consignee : cell)
    : option string :=
  if isna consignor_consignee then None
  else
    let text := Py.upper (str consignor_consignee) in
    let tokens := alnum_runs "" text ++ code_shapes Idle text in
    let tokens := sorted_by_len_desc (set_iteration tokens) in
    first_some (λ tok, validate_code_in_list self (Str tok)) tokens.

End Finder.

Definition extract_from_org_dest_type (self : Location_Codes_Finder)
    (org_type_code dest_type_code : cell) : option string * option string :=
  (validate_code_in_list self org_type_code, validate_code_in_list self dest_type_code).

Definition extract_from_address (self : Location_Codes_Finder) (combined_address : cell)
    : option string :=
  if isna combined_address then None
  else
    let key := Py.strip (Py.upper (Py.remove_spaces (str combined_address))) in
    if Py.is_empty key then None
    else match address_to_code self !! key with
         | Some raw_code => format_code_4 (Str raw_code)
         | None => format_code_4 PyNone
         end.


(** ** [matrix_mapping.py]: the responsible party *)

(** A data-frame row: column label to cell. *)
Abbreviation row := (gmap string cell).

(** [row.get(c, d)] *)
Definition row_get (r : row) (c : string) (d : cell) : cell :=
  default d (r !! c).

Definition SPECIAL_CODES : gset string := {[ "0K35"; "024P"; "067N" ]}.

(** [v in SPECIAL_CODES] *)
Definition in_SPECIAL_CODES (v : cell) : bool :=
  match v with
  | Str s => bool_decide (s ∈ SPECIAL_CODES)
  | _ => false
  end.

Fixpoint _first_nonblank (vals : list cell) : string :=
  match vals with
  | [] => ""
  | v :: vals' =>
      match v with
      | PyNone => _first_nonblank vals'
      | _ =>
          let s := Py.strip (str v) in
          if negb (Py.is_empty s) && negb (bool_decide (Py.upper s ∈ ["NAN"; "NONE"]))
          then s
          else _first_nonblank vals'
      end
  end.

(** [isinstance(row.get("Carrier Name"), str) and "omnitrans" in row["Carrier Name"].lower()] *)
Definition carrier_is_omnitrans (r : row) : bool :=
  match row_get r "Carrier Name" PyNone with
  | Str s => Py.contains "omnitrans" (Py.lower s)
  | _ => false
  end.

(** A pair of cells as a key of the two tables, whose keys are pairs of
    strings. *)
Definition type_key (a b : cell) : option (string * string) :=
  match a, b with
  | Str x, Str y => Some (x, y)
  | _, _ => None
  end.

Section MatrixMapper.
Context `{Env}.

(** The tail of [determine_profit_center]: the special type mappings, then
    the coding matrix. [None] is a [KeyError] on a missing column. *)
Definition matrix_logic (r : row) : option cell :=
  consignor_type ← r !! "Final Consignor Type";
  consignee_type ← r !! "Final Consignee Type";
  let key := type_key consignor_type consignee_type in
  match key ≫= (SPECIAL_TYPE_MAPPINGS !!.) with
  | Some code => Some (Str code)
  | None =>
      match key ≫= (Coding_Matrix !!.) with
      | Some direction =>
          if bool_decide (direction = "ORIGIN") then r !! "Final Consignor Code"
          else if bool_decide (direction = "DESTINATION") then r !! "Final Consignee Code"
          else Some (Str "UNKNOWN")
      | None => Some (Str "UNKNOWN")
      end
  end.

(** [MatrixMapper.determine_profit_center]; [None] is a [KeyError]. *)
Definition determine_profit_center (r : row) : option cell :=
  let consignor_type :=
    Py.upper (Py.strip (str (row_get r "Final Consignor Type" (Str "")))) in
  let consignee_type_norm :=
    Py.remove_spaces (Py.upper (Py.strip (str (row_get r "Final Consignee Type" (Str ""))))) in
  if bool_decide (consignor_type = "MM") && bool_decide (consignee_type_norm = "CADC")
  then Some (Str "037Q")
  else
    final_consignee ← r !! "Final Consignee Code";
    if in_SPECIAL_CODES final_consignee
       && bool_decide (consignee_type_norm ∈ ["USDC"; "CADC"])
       && negb (bool_decide (consignor_type = "LC"))
    then Some final_consignee
    else
      let candidate :=
        if carrier_is_omnitrans r then
          _first_nonblank [ row_get r "Extracted Consignee Code" PyNone;
                            row_get r "Addr_Lookup_Consignee_Code" PyNone;
                            row_get r "Dest Type Consignee Code" PyNone;
                            row_get r "Final Consignor Code" PyNone ]
        else "" in
      if negb (Py.is_empty candidate) then Some (Str candidate)
      else matrix_logic r.

End MatrixMapper.

(** ** [main_logic.py]: data frames *)

Record frame := Frame {
  columns : list string;
  rows : list row
}.

(** [df[c]] at one row of a frame that has the column *)
Definition col (r : row) (c : string) : cell := default NaN (r !! c).

(** The labels after [df[c] = ...]: a new label goes last. *)
Definition add_label (h : list string) (c : string) : list string :=
  if decide (c ∈ h) then h else h ++ [c].

(** [df[c] = f(row)], the right-hand side read before the assignment *)
Definition set_col (c : string) (f : row → cell) (r : row) : row :=
  <[c := f r]> r.

(** [df.loc[mask, c] = v] *)
Definition set_where (mask : row → bool) (c : string) (v : cell) (r : row) : row :=
  if mask r then <[c := v]> r else r.

Definition assign (c : string) (f : row → cell) (df : frame) : frame :=
  {| columns := add_label (columns df) c; rows := set_col c f <$> rows df |}.

(** *** Column standardisation *)

(** [re.sub(r"[^a-z0-9]+", "", str(s).lower())] *)
Fixpoint keep_chars (p : ascii → bool) (s : string) : string :=
  match s with
  | EmptyString => EmptyString
  | String c r => if p c then String c (keep_chars p r) else keep_chars p r
  end.

Definition _norm_col (s : string) : string :=
  keep_chars (λ c, Py.is_lower c || Py.is_digit c) (Py.lower s).

Definition _pick_col (cols : list string) (candidates : list string) : option string :=
  let norm_map := dict_of_pairs ((λ c, (_norm_col c, c)) <$> cols) in
  first_some (λ cand, norm_map !! _norm_col cand) candidates.

Definition FIELD_ALIASES : list (string * list string) :=
  [ ("Consignor",
      [ "Consignor"; "Origin Facility"; "Shipper"; "Ship From Name"; "Origin Name";
        "Org Name"; "Origin Company"; "Org Company"; "ShipFromName"; "OrgName" ]);
    ("Consignee",
      [ "Consignee"; "Destination Facility"; "Receiver"; "Ship To Name";
        "Destination Name"; "Dest Name"; "Dest Company"; "Destination Company";
        "ShipToName"; "DestName" ]);
    ("Origin Address",
      [ "Origin Address"; "Origin Address1"; "Origin Addresss"; "Org Address";
        "Org Address1"; "Ship From Address"; "Ship From Address1"; "Shipper Address";
        "Shipper Address1" ]);
    ("Origin City", [ "Origin City"; "Org City"; "Ship From City"; "Shipper City" ]);
    ("Origin State",
      [ "Origin State"; "Origin State Code"; "Org State"; "Org State Code";
        "Ship From State"; "Ship From State Code" ]);
    ("Destination Address",
      [ "Destination Address"; "Destination Address1"; "Dest Address"; "Dest Address1";
        "Ship To Address"; "Ship To Address1"; "Receiver Address"; "Receiver Address1" ]);
    ("Destination City",
      [ "Destination City"; "Dest City"; "Ship To City"; "Receiver City" ]);
    ("Destination State",
      [ "Destination State"; "Destination State Code"; "Dest State"; "Dest State Code";
        "Ship To State"; "Ship To State Code" ]) ].

Definition CANONICAL_COLUMNS : list string :=
  [ "Consignor"; "Consignee";
    "Origin Address"; "Origin City"; "Origin State";
    "Destination Address"; "Destination City"; "Destination State" ].

(** [series.fillna("").astype(str)] on one cell *)
Definition as_text (v : cell) : string := str (fillna (Str "") v).

Definition standardize_input_columns (df : frame) : frame :=
  let df :=
    foldl (λ df fa,
             match _pick_col (columns df) fa.2 with
             | Some found => assign fa.1 (λ r, col r found) df
             | None => assign fa.1 (λ _, Str "") df
             end)
          df FIELD_ALIASES in
  foldl (λ df c, assign c (λ r, Str (as_text (col r c))) df) df CANONICAL_COLUMNS.


(** *** Reference tables *)

(** One row of the master location table ([cintas_master_data_2]). *)
Record master_location := MasterLocation {
  ML_Loc_Code : cell;
  Type_Code : cell;
  ProfitCtr : cell;
  Cost_Center : cell
}.

Record references := References {
  cintas_master_data : list my_location;
  cintas_master_data_2 : list master_location;
  cintas_location_codes : list cell
}.

(** [my_loc["Loc Code"] = _normalize_loc_code_series(my_loc["Loc Code"])] *)
Definition normalize_my_loc (r : my_location) : my_location :=
  {| Loc_Address := Loc_Address r; Loc_City := Loc_City r; Loc_ST := Loc_ST r;
     Loc_Code := Str (_normalize_loc_code_series (Loc_Code r)) |}.

(** [set(my_loc.apply(combine_addr ...).dropna())] *)
Definition master_combined_set (my_loc : list my_location) : gset string :=
  list_to_set (omap address_key my_loc).

(** [master_loc["Type Code"].astype(str).str.upper().replace("NAN", pd.NA)]
    on one cell: the text of a type in upper case. A missing type is a
    missing value of the result: the text column keeps it, or writes it
    "nan", which the replacement makes a missing value again; so is a type
    whose text is "nan" in any case. *)
Definition master_type (v : cell) : cell :=
  match v with
  | Str t => let t := Py.upper t in if bool_decide (t = "NAN") then NaN else Str t
  | PyNone | NaN => NaN
  end.

(** [dict(zip(codes, types))]; the codes are normalised when the tables are
    read and once more before the dictionary is built. *)
Definition master_code_to_type (master_loc : list master_location) : gmap string cell :=
  dict_of_pairs
    ((λ m, (Py.upper
              (str (Str (_normalize_loc_code_series
                           (Str (_normalize_loc_code_series (ML_Loc_Code m)))))),
            master_type (Type_Code m)))
       <$> master_loc).

(** *** The stages of [run_pipeline], one record at a time *)

(** [re.search(r"\b(CINTAS|MAT)\b", s)]: a word of the list starts here and
    ends at a word boundary. *)
Fixpoint word_ends (w s : string) : bool :=
  match w, s with
  | EmptyString, EmptyString => true
  | EmptyString, String c _ => negb (Py.is_word c)
  | String a w', String b s' => bool_decide (a = b) && word_ends w' s'
  | String _ _, EmptyString => false
  end.

Fixpoint search_words (after_word_char : bool) (ws : list string) (s : string) : bool :=
  (negb after_word_char && existsb (λ w, word_ends w s) ws) ||
  match s with
  | EmptyString => false
  | String c r => search_words (Py.is_word c) ws r
  end.

Definition mentions_cintas_or_mat (s : string) : bool :=
  search_words false ["CINTAS"; "MAT"] s.

(** Whether a text ends in a [\w] character; [b] answers for the empty
    text. *)
Fixpoint ends_in_word_char (b : bool) (s : string) : bool :=
  match s with
  | EmptyString => b
  | String c r => ends_in_word_char (Py.is_word c) r
  end.

(** [clean_blank]: a blank text becomes a missing value. *)
Definition clean_blank (v : cell) : cell :=
  match v with
  | Str s => if Py.blank s then NaN else v
  | _ => v
  end.

(** [a.fillna(b)] with a series [b], on one row *)
Definition fillna_with (b a : cell) : cell := if isna a then b else a.

(** [clean_blank(a).fillna(clean_blank(b)).fillna(clean_blank(c)).fillna("NON-CINTAS")] *)
Definition precedence (a b c : cell) : cell :=
  fillna (Str "NON-CINTAS")
    (fillna_with (clean_blank c) (fillna_with (clean_blank b) (clean_blank a))).

Record exception_rule := Rule {
  match_column : string;
  contains : string;
  set_column : string;
  value : string
}.

Definition EXCEPTION_RULES : list exception_rule :=
  [ Rule "Destination Address" "6001 W" "Final Consignee Code" "0021";
    Rule "Consignee" "VALDEZ" "Final Consignee Code" "0K35";
    Rule "Destination Address" "ATTN: GARDNER" "Final Consignee Code" "0536";
    Rule "Consignor" "AVERITT TERMINAL" "Final Consignor Code" "0004";
    Rule "Consignor" "COOPETRAJES" "Final Consignor Code" "0896";
    Rule "Consignee" "COOPETRAJES" "Final Consignee Code" "0896";
    Rule "Consignor" "MATHESON" "Final Consignor Code" "067N";
    Rule "Consignor" "EMPRESSA" "Final Consignor Code" "0972";
    Rule "Consignor" "EMPRESA" "Final Consignor Code" "0972";
    Rule "Consignee" "EMPRESSA" "Final Consignee Code" "0972";
    Rule "Consignee" "EMPRESA" "Final Consignee Code" "0972" ].

(** The mask of one rule: the upper-cased text of the matched column
    contains the rule's literal. *)
Definition rule_matches (rule : exception_rule) (r : row) : bool :=
  Py.contains (contains rule) (Py.upper (as_text (col r (match_column rule)))).

Definition apply_rule (cols : list string) (r : row) (rule : exception_rule) : row :=
  if decide (match_column rule ∈ cols)
  then set_where (rule_matches rule) (set_column rule) (Str (value rule)) r
  else r.

(** No rule of a table reads a column that a rule of the table writes. *)
Definition rules_separate (rules : list exception_rule) : Prop :=
  ∀ rule rule', rule ∈ rules → rule' ∈ rules → match_column rule ≠ set_column rule'.

(** What [run_pipeline] computes once per run and every record reads. *)
Record context := Ctx {
  location_finder : Location_Codes_Finder;
  combined_set : gset string;
  code_to_type : gmap string cell;
  org_type_col : option string;
  dest_type_col : option string;
  sheet_columns : list string
}.

Section Stages.
Context `{Env}.
Variable ctx : context.

Definition combined_addresses (r : row) : row :=
  let r := set_col "Consignor_Combined_Address"
             (λ r, cell_of (combine_addr (col r "Origin Address") (col r "Origin City")
                                         (col r "Origin State"))) r in
  set_col "Consignee_Combined_Address"
    (λ r, cell_of (combine_addr (col r "Destination Address") (col r "Destination City")
                                (col r "Destination State"))) r.

Definition extract_codes (r : row) : row :=
  let r := set_col "Extracted Consignor Code"
             (λ r, Str (_normalize_loc_code_series
                          (cell_of (extract_from_text (location_finder ctx) (col r "Consignor"))))) r in
  set_col "Extracted Consignee Code"
    (λ r, Str (_normalize_loc_code_series
                 (cell_of (extract_from_text (location_finder ctx) (col r "Consignee"))))) r.

(** [s.notna() & (s.astype(str).str.strip() != "")] *)
Definition has_code (v : cell) : bool :=
  negb (isna v) && negb (Py.is_empty (Py.strip (str v))).

(** [~s.fillna("").str.upper().str.contains(r"\b(CINTAS|MAT)\b", regex=True)] *)
Definition no_cintas_or_mat (v : cell) : bool :=
  negb (mentions_cintas_or_mat (Py.upper (as_text v))).

(** [s.fillna("").isin(master_combined_set)] *)
Definition addr_ok (v : cell) : bool :=
  bool_decide (as_text v ∈ combined_set ctx).

Definition wipe_consignor (r : row) : bool :=
  has_code (col r "Extracted Consignor Code")
  && no_cintas_or_mat (col r "Consignor")
  && negb (addr_ok (col r "Consignor_Combined_Address")).

Definition wipe_consignee (r : row) : bool :=
  has_code (col r "Extracted Consignee Code")
  && no_cintas_or_mat (col r "Consignee")
  && negb (addr_ok (col r "Consignee_Combined_Address")).

Definition address_checker_rule (r : row) : row :=
  let wipe_or := wipe_consignor r in
  let wipe_ee := wipe_consignee r in
  let r := set_where (λ _, wipe_or) "Extracted Consignor Code" (Str "") r in
  set_where (λ _, wipe_ee) "Extracted Consignee Code" (Str "") r.

Definition org_dest_type_codes (r : row) : row :=
  let tmp :=
    match org_type_col ctx, dest_type_col ctx with
    | Some org_col, Some dest_col =>
        let od := extract_from_org_dest_type (location_finder ctx)
                    (row_get r org_col (Str "")) (row_get r dest_col (Str "")) in
        (cell_of od.1, cell_of od.2)
    | _, _ => (Str "", Str "")
    end in
  let r := set_col "Org Type Consignor Code" (λ _, tmp.1) r in
  let r := set_col "Dest Type Consignee Code" (λ _, tmp.2) r in
  let r := set_col "Org Type Consignor Code"
             (λ r, Str (_normalize_loc_code_series (col r "Org Type Consignor Code"))) r in
  set_col "Dest Type Consignee Code"
    (λ r, Str (_normalize_loc_code_series (col r "Dest Type Consignee Code"))) r.

Definition address_lookup_codes (r : row) : row :=
  let r := set_col "Addr_Lookup_Consignor_Code"
             (λ r, Str (_normalize_loc_code_series
                          (cell_of (extract_from_address (location_finder ctx)
                                      (col r "Consignor_Combined_Address"))))) r in
  set_col "Addr_Lookup_Consignee_Code"
    (λ r, Str (_normalize_loc_code_series
                 (cell_of (extract_from_address (location_finder ctx)
                             (col r "Consignee_Combined_Address"))))) r.

(** [s.str.startswith((p1, p2, ...))] *)
Definition startswith_any (ps : list string) (s : string) : bool :=
  existsb (λ p, Py.startswith p s) ps.

Definition suite_mississauga_override (r : row) : row :=
  let consignee_combo := Py.upper (as_text (col r "Consignee_Combined_Address")) in
  let consignor_txt := Py.strip (Py.upper (as_text (col r "Consignor"))) in
  let is_suite_mississauga := Py.startswith "SUITEMISSISSAUGAON" consignee_combo in
  let consignor_097H :=
    startswith_any ["LNK"; "AMERICAN METAL CRAFTERS"; "RADIANS"; "EVER READY"] consignor_txt in
  let consignor_067N := startswith_any ["VECTAIR"; "ZEP"] consignor_txt in
  let consignor_0897 := startswith_any ["CHEMFREE"; "BERRY GLOBAL"] consignor_txt in
  let r := set_where (λ _, is_suite_mississauga && consignor_097H)
             "Addr_Lookup_Consignee_Code" (Str "097H") r in
  let r := set_where (λ _, is_suite_mississauga && consignor_067N)
             "Addr_Lookup_Consignee_Code" (Str "067N") r in
  set_where (λ _, is_suite_mississauga && consignor_0897)
    "Addr_Lookup_Consignee_Code" (Str "0897") r.

Definition final_location_codes (r : row) : row :=
  let r := set_col "Final Consignor Code"
             (λ r, precedence (col r "Extracted Consignor Code")
                              (col r "Org Type Consignor Code")
                              (col r "Addr_Lookup_Consignor_Code")) r in
  set_col "Final Consignee Code"
    (λ r, precedence (col r "Extracted Consignee Code")
                     (col r "Dest Type Consignee Code")
                     (col r "Addr_Lookup_Consignee_Code")) r.

Definition normalize_finals (r : row) : row :=
  let r := set_col "Final Consignor Code"
             (λ r, Str (_normalize_loc_code_series (col r "Final Consignor Code"))) r in
  set_col "Final Consignee Code"
    (λ r, Str (_normalize_loc_code_series (col r "Final Consignee Code"))) r.

Definition exceptions (r : row) : row :=
  foldl (apply_rule (sheet_columns ctx)) r EXCEPTION_RULES.

(** [s.astype(str).str.upper().map(master_code_to_type).fillna("NON-CINTAS")] *)
Definition type_of_code (v : cell) : cell :=
  fillna (Str "NON-CINTAS") (default NaN (code_to_type ctx !! Py.upper (str v))).

Definition final_types (r : row) : row :=
  let r := set_col "Final Consignor Type" (λ r, type_of_code (col r "Final Consignor Code")) r in
  set_col "Final Consignee Type" (λ r, type_of_code (col r "Final Consignee Code")) r.

(** The record up to its final codes (lines 247 to 384 of [main_logic.py]). *)
Definition resolve_codes (r : row) : row :=
  normalize_finals
    (exceptions
       (normalize_finals
          (final_location_codes
             (suite_mississauga_override
                (address_lookup_codes
                   (org_dest_type_codes
                      (address_checker_rule
                         (extract_codes
                            (combined_addresses r))))))))).

(** [accrual_sheet.apply(mapper.determine_profit_center, axis=1)] on one
    record; [None] is a [KeyError]. *)
Definition responsible_party (r : row) : option row :=
  rp ← determine_profit_center r;
  Some (<["Responsible Party" := rp]> r).

Definition derive_row (r : row) : option row :=
  responsible_party (final_types (resolve_codes r)).

End Stages.


(** *** [run_pipeline] through the responsible party *)

Definition DERIVED_COLUMNS : list string :=
  [ "Consignor_Combined_Address"; "Consignee_Combined_Address";
    "Extracted Consignor Code"; "Extracted Consignee Code";
    "Org Type Consignor Code"; "Dest Type Consignee Code";
    "Addr_Lookup_Consignor_Code"; "Addr_Lookup_Consignee_Code";
    "Final Consignor Code"; "Final Consignee Code";
    "Final Consignor Type"; "Final Consignee Type";
    "Responsible Party" ].

Definition ORG_TYPE_ALIASES : list string :=
  [ "Org Type Code"; "Org Loc Code"; "Origin Type Code"; "OrgTypeCode" ].

Definition DEST_TYPE_ALIASES : list string :=
  [ "Dest Type Code"; "Dest Loc Code"; "Destination Type Code"; "DestTypeCode" ].

(** The services and lookups built before the records are read; [cols] are
    the labels of the standardised sheet. *)
Definition make_context (refs : references) (cols : list string) : context :=
  let my_loc := normalize_my_loc <$> cintas_master_data refs in
  let all_codes := (λ c, Str (_normalize_loc_code_series c)) <$> cintas_location_codes refs in
  let cols_at_pick := foldl add_label cols (take 4 DERIVED_COLUMNS) in
  {| location_finder := Location_Codes_Finder__init__ my_loc all_codes;
     combined_set := master_combined_set my_loc;
     code_to_type := master_code_to_type (cintas_master_data_2 refs);
     org_type_col := _pick_col cols_at_pick ORG_TYPE_ALIASES;
     dest_type_col := _pick_col cols_at_pick DEST_TYPE_ALIASES;
     sheet_columns := foldl add_label cols (take 10 DERIVED_COLUMNS) |}.

Section Pipeline.
Context `{Env}.

(** What [run_pipeline] raises before the merge. *)
Inductive derive_exn :=
| KeyError
| ValueError.

(** Lines 215 to 406 of [run_pipeline], for a sheet with distinct labels
    (a record is a map from the labels to the cells): the sheet with its
    derived columns up to ["Responsible Party"], or the exception raised.
    On a sheet with no record and with both type-code columns,
    [accrual_sheet.apply(..., axis=1)] of line 294 returns a copy of the
    sheet, which has more than two columns, and giving it the two labels of
    line 303 raises [ValueError]. A [KeyError] is that of
    [determine_profit_center] for a record. *)
Definition run_pipeline_derive (refs : references) (accrual_sheet : frame)
    : derive_exn + frame :=
  let accrual_sheet := standardize_input_columns accrual_sheet in
  let ctx := make_context refs (columns accrual_sheet) in
  match rows accrual_sheet, org_type_col ctx, dest_type_col ctx with
  | [], Some _, Some _ => inl ValueError
  | _, _, _ =>
      match mapM (derive_row ctx) (rows accrual_sheet) with
      | Some rows' =>
          inr {| columns := foldl add_label (columns accrual_sheet) DERIVED_COLUMNS;
                 rows := rows' |}
      | None => inl KeyError
      end
  end.

End Pipeline.

(** *** The general-ledger account *)

(** The function applied to each record for ["Account # EJ"]. *)
Definition account_number (r : row) : Z :=
  if Py.contains "G59" (str (row_get r "Profit Center EJ" (Str ""))) then 621000%Z
  else if py_eq (row_get r "Final Consignee Code" PyNone) (row_get r "Responsible Party" PyNone)
       then 621000%Z
       else 621020%Z.

(** [_force_excel_text] on one cell *)
Definition _force_excel_text (v : cell) : string := Py.strip (as_text v).

(** [str(n)] for an integer *)
Definition str_int (n : Z) : string :=
  DecimalString.NilZero.string_of_int (Z.to_int n).

(** The cell of ["Account # EJ"]: the number, as text. *)
Definition account_EJ (r : row) : cell :=
  Str (_force_excel_text (Str (str_int (account_number r)))).

(** *** The column labels of [run_pipeline]'s result *)

Inductive exn :=
| MergeError
| AttributeError.

Inductive result (A : Type) :=
| Ok (a : A)
| Raise (e : exn).

Arguments Ok {A} a.
Arguments Raise {A} e.

Definition bind_result {A B} (x : result A) (f : A → result B) : result B :=
  match x with
  | Ok a => f a
  | Raise e => Raise e
  end.

Notation "x ←' y ; z" := (bind_result y (λ x, z))
  (at level 20, y at level 100, z at level 200, only parsing).

(** The columns taken from the master table for the merge. *)
Definition MERGED_COLUMNS : list string := [ "Loc Code"; "ProfitCtr"; "Cost Center" ].

(** [left.merge(right, left_on=..., right_on=..., how="left", suffixes=("", "_master"))]
    on labels: an overlapping right label takes the suffix; a suffixed label
    that the left frame already has is refused. *)
Definition merge_columns (left : list string) : result (list string) :=
  let rlabels :=
    (λ c, if decide (c ∈ left) then c +:+ "_master" else c) <$> MERGED_COLUMNS in
  if existsb (λ c, bool_decide (c ∈ left)) rlabels then Raise MergeError
  else Ok (left ++ rlabels).

(** [df.rename(columns={old: new}, inplace=True)] *)
Definition rename_label (old new : string) (h : list string) : list string :=
  (λ c, if decide (c = old) then new else c) <$> h.

Definition count_label (c : string) (h : list string) : nat :=
  length (filter (λ x, x = c) h).

(** [df[c] = f(df.get(c, default)).str...]: a label carried by two columns
    selects a frame, which has no [.str]. *)
Definition text_column (c : string) (h : list string) : result (list string) :=
  if decide (1 < count_label c h) then Raise AttributeError
  else Ok (add_label h c).

Definition FIRST_COLUMNS : list string :=
  [ "Profit Center"; "Cost Center"; "Account #"; "Automation Accuracy";
    "Profit Center EJ"; "Cost Center EJ"; "Account # EJ" ].

Definition reorder (h : list string) : list string :=
  let first_cols := filter (λ c, c ∈ h) FIRST_COLUMNS in
  let other_cols := filter (λ c, c ∉ first_cols) h in
  first_cols ++ other_cols.

(** The labels of the sheet when the responsible party has been assigned. *)
Definition derived_columns (cols : list string) : list string :=
  foldl add_label (foldl add_label cols CANONICAL_COLUMNS) DERIVED_COLUMNS.

(** The labels of the frame that [run_pipeline] returns for a sheet with
    the distinct labels [cols], or the exception it raises. *)
Definition run_pipeline_columns (cols : list string) : result (list string) :=
  let h := derived_columns cols in
  h ←' merge_columns h;
  let h := if decide ("ProfitCtr" ∈ h) then rename_label "ProfitCtr" "Profit Center EJ" h
           else h in
  let h := if decide ("Cost Center_master" ∈ h)
           then rename_label "Cost Center_master" "Cost Center EJ" h
           else if decide ("Cost Center" ∈ h ∧ "Cost Center EJ" ∉ h)
                then rename_label "Cost Center" "Cost Center EJ" h
                else h in
  h ←' text_column "Profit Center EJ" h;
  h ←' text_column "Cost Center EJ" h;
  let h := add_label h "Account # EJ" in
  let h := add_label h "Automation Accuracy" in
  Ok (reorder h).


(** *** Records that agree outside some columns *)

(** Two records agree outside the columns [skip]. *)
Definition agree (skip : list string) (r r' : row) : Prop :=
  ∀ c, c ∉ skip → r !! c = r' !! c.

(** ** Definitions for the further properties *)

(** *** The tokens of [extract_from_text] *)

(** What the scan for [\d{1,4}[A-Z]{0,2}] has read of the match in
    progress. *)
Definition pending (st : shape_state) : string :=
  match st with
  | Idle => ""
  | InDigits tok _ | InLetters tok => String.rev tok
  end.

(** A text of the shape [\d{1,4}[A-Z]{0,2}]: one to four digits, then at
    most two capital letters. *)
Definition code_shape (tok : string) : Prop :=
  ∃ ds ls, tok = ds +:+ ls
           ∧ Py.all_chars Py.is_digit ds = true
           ∧ 1 ≤ String.length ds ≤ 4
           ∧ Py.all_chars Py.is_upper ls = true
           ∧ String.length ls ≤ 2.

(** The states that the scan reaches: digits only, at most four of them;
    or such digits and one letter. *)
Definition shape_wf (st : shape_state) : Prop :=
  match st with
  | Idle => True
  | InDigits tok n =>
      Py.all_chars Py.is_digit tok = true ∧ String.length tok = n ∧ 1 ≤ n ≤ 4
  | InLetters tok =>
      ∃ l ds, tok = String l ds ∧ Py.is_upper l = true
              ∧ Py.all_chars Py.is_digit ds = true ∧ 1 ≤ String.length ds ≤ 4
  end.

(** The order of [sorted(..., key=len, reverse=True)]. *)
Definition longer_first (x y : string) : Prop := String.length y ≤ String.length x.

(** *** The key of an address *)

(** The text of the key that [combine_addr] builds: the first word of the
    street, the first word of the city and the state without its spaces,
    in upper case. *)
Definition address_text (street city state : cell) : string :=
  Py.upper (Py.take_word (Py.lstrip (str street)))
  +:+ Py.upper (Py.take_word (Py.lstrip (str city)))
  +:+ Py.upper (Py.remove_spaces (Py.strip (str state))).

(** *** Values that [_first_nonblank] passes over *)

(** The loop of [_first_nonblank] goes on to the next value: the text of
    the value is blank, or is "nan" or "none" in any case. The text of
    [None] is "None". *)
Definition blank_like (v : cell) : Prop :=
  Py.blank (str v) = true ∨ Py.upper (Py.strip (str v)) ∈ ["NAN"; "NONE"].

(** *** The record when its candidates are settled *)

Section CandidatesOf.
Context `{Env}.
Variable ctx : context.

(** The record after lines 247 to 332 of [run_pipeline]: the three
    candidate codes of each party are in their columns. *)
Definition candidates_of (r : row) : row :=
  suite_mississauga_override
    (address_lookup_codes ctx
       (org_dest_type_codes ctx
          (address_checker_rule ctx
             (extract_codes ctx (combined_addresses r))))).

End CandidatesOf.

(** Where the text of a final code comes from: the sentinel, the literal
    of an exception rule, a literal of the Mississauga override, a code of
    the list of codes or the code of a row of the location directory, the
    last two as [run_pipeline] normalises them and [format_code_4] formats
    them. *)
Definition code_source (refs : references) (s : string) : Prop :=
  s = "NON-CINTAS"
  ∨ s ∈ value <$> EXCEPTION_RULES
  ∨ s ∈ ["097H"; "067N"; "0897"]
  ∨ (∃ code, code ∈ cintas_location_codes refs
             ∧ format_code_4 (Str (_normalize_loc_code_series code)) = Some s)
  ∨ (∃ m, m ∈ cintas_master_data refs
          ∧ format_code_4 (Str (_normalize_loc_code_series (Loc_Code m))) = Some s).

(** *** [standardize_input_columns], one record at a time *)

(** The characters that [_norm_col] keeps. *)
Definition is_norm_char (c : ascii) : bool := Py.is_lower c || Py.is_digit c.

(** The dictionary [norm_map] of [_pick_col]. *)
Abbreviation norm_map cols := (dict_of_pairs ((λ c, (_norm_col c, c)) <$> cols)).

(** The first loop of [standardize_input_columns] on one record; [cols]
    are the labels of the sheet when the loop reaches the field. *)
Fixpoint alias_columns (cols : list string) (fas : list (string * list string)) (r : row)
    : row :=
  match fas with
  | [] => r
  | fa :: fas' =>
      alias_columns (add_label cols fa.1) fas'
        match _pick_col cols fa.2 with
        | Some found => set_col fa.1 (λ r, col r found) r
        | None => set_col fa.1 (λ _, Str "") r
        end
  end.

(** The second loop on one record. *)
Definition text_columns (cs : list string) (r : row) : row :=
  foldl (λ r c, set_col c (λ r, Str (as_text (col r c))) r) r cs.

Definition standardize_row (cols : list string) (r : row) : row :=
  text_columns CANONICAL_COLUMNS (alias_columns cols FIELD_ALIASES r).

(** The cell that a field takes: that of the column picked for its
    aliases, or the empty text. *)
Definition alias_value (cols : list string) (aliases : list string) (r : row) : cell :=
  match _pick_col cols aliases with
  | Some found => col r found
  | None => Str ""
  end.

(** No alias of a field has the normalised name of another field. *)
Definition names_separate (fas : list (string * list string)) : Prop :=
  ∀ n al n' a, (n, al) ∈ fas → n' ∈ fas.*1 → n' ≠ n → a ∈ al →
               _norm_col n' ≠ _norm_col a.

(** The first alias of a field is its own name. *)
Definition names_lead (fas : list (string * list string)) : Prop :=
  ∀ n al, (n, al) ∈ fas → ∃ al', al = n :: al'.

(** ** Examples for the closed statements *)

(** An environment: a set iterates in the order of first insertion, and each
    table of [coding_matrix] has an entry for a manufacturer shipping to a
    Canadian distribution centre. *)
Definition example_env : Env :=
  {| set_iteration := remove_dups;
     SPECIAL_TYPE_MAPPINGS := {[ ("MM", "CA DC") := "0999" ]};
     Coding_Matrix := {[ ("MM", "CA DC") := "ORIGIN" ]} |}.

Definition example_references : references :=
  {| cintas_master_data :=
       [ MyLocation (Str "100 Main St") (Str "Springfield") (Str "IL") (Str "95") ];
     cintas_master_data_2 :=
       [ MasterLocation (Str "95") (Str "US DC") (Str "G59001") (Str "312.1") ];
     cintas_location_codes := [ Str "95"; Str "11K" ] |}.

Definition example_context : context :=
  make_context example_references CANONICAL_COLUMNS.

(** A record whose consignee names location 0095 and the partner of the
    second exception rule. *)
Definition example_valdez_record : row :=
  {[ "Consignor" := Str "ACME SUPPLY";
     "Consignee" := Str "CINTAS 0095 VALDEZ";
     "Origin Address" := Str ""; "Origin City" := Str ""; "Origin State" := Str "";
     "Destination Address" := Str "100 Main St";
     "Destination City" := Str "Springfield";
     "Destination State" := Str "IL" ]}.

(** A sheet of one record, with both type-code columns and a column that
    the pipeline does not know. *)
Definition example_sheet : frame :=
  {| columns := [ "Consignor"; "Consignee"; "Org Type Code"; "Dest Type Code"; "Notes" ];
     rows := [ {[ "Consignor" := Str "ACME SUPPLY"; "Consignee" := Str "CINTAS 0095";
                  "Org Type Code" := Str "11k"; "Dest Type Code" := Str "95";
                  "Notes" := Str "rush" ]} ] |}.

(** * Properties of the string primitives *)

Ltac each_char c := destruct c as [[] [] [] [] [] [] [] []]; try reflexivity; try discriminate.

Lemma isspace_upper_char c : Py.isspace (Py.upper_char c) = Py.isspace c.
Proof. each_char c. Qed.

Lemma upper_char_idem c : Py.upper_char (Py.upper_char c) = Py.upper_char c.
Proof. each_char c. Qed.

Lemma is_digit_not_space c : Py.is_digit c = true → Py.isspace c = false.
Proof. each_char c. Qed.

Lemma is_digit_upper_char c : Py.is_digit c = true → Py.upper_char c = c.
Proof. each_char c. Qed.

Lemma is_digit_not_sign c : Py.is_digit c = true → Py.is_sign c = false.
Proof. each_char c. Qed.

Lemma is_empty_true s : Py.is_empty s = true ↔ s = "".
Proof. destruct s; simpl; split; congruence. Qed.

Lemma is_empty_false s : Py.is_empty s = false ↔ s ≠ "".
Proof. destruct s; simpl; split; congruence. Qed.

Lemma rstrip_empty s : Py.rstrip s = "" ↔ Py.blank s = true.
Proof.
  unfold Py.blank.
  induction s as [|c r IH]; simpl; [done|].
  destruct (Py.rstrip r) eqn:E.
  - destruct (Py.isspace c); simpl.
    + split; [intros _; by apply IH|done].
    + split; intros; discriminate.
  - split; [done|]. intros [_ Hb]%andb_true_iff. apply IH in Hb. done.
Qed.

Lemma lstrip_empty s : Py.lstrip s = "" ↔ Py.blank s = true.
Proof.
  unfold Py.blank.
  induction s as [|c r IH]; simpl; [done|].
  destruct (Py.isspace c); simpl; [done|]. split; done.
Qed.

Lemma blank_lstrip s : Py.blank (Py.lstrip s) = Py.blank s.
Proof.
  unfold Py.blank.
  induction s as [|c r IH]; simpl; [done|].
  destruct (Py.isspace c) eqn:E; simpl; [done|]. by rewrite E.
Qed.

Lemma strip_empty s : Py.strip s = "" ↔ Py.blank s = true.
Proof. unfold Py.strip. rewrite rstrip_empty, blank_lstrip. done. Qed.

Lemma rstrip_cons c r :
  Py.rstrip (String c r) =
  if Py.blank r then (if Py.isspace c then "" else String c "") else String c (Py.rstrip r).
Proof.
  simpl. destruct (Py.rstrip r) eqn:E.
  - apply rstrip_empty in E. by rewrite E.
  - destruct (Py.blank r) eqn:Hb; [|done]. apply rstrip_empty in Hb. congruence.
Qed.

Lemma rstrip_idem s : Py.rstrip (Py.rstrip s) = Py.rstrip s.
Proof.
  induction s as [|c r IH]; [done|].
  rewrite rstrip_cons. destruct (Py.blank r) eqn:Hb.
  - destruct (Py.isspace c) eqn:Hc; [done|]. simpl. by rewrite Hc.
  - rewrite rstrip_cons, IH.
    destruct (Py.blank (Py.rstrip r)) eqn:Hb'; [|done].
    apply rstrip_empty in Hb'. rewrite IH in Hb'. apply rstrip_empty in Hb'. congruence.
Qed.

Lemma lstrip_idem s : Py.lstrip (Py.lstrip s) = Py.lstrip s.
Proof.
  induction s as [|c r IH]; simpl; [done|].
  destruct (Py.isspace c) eqn:E; [done|]. simpl. by rewrite E.
Qed.

Lemma lstrip_rstrip s : Py.lstrip (Py.rstrip s) = Py.rstrip (Py.lstrip s).
Proof.
  induction s as [|c r IH]; [done|].
  rewrite rstrip_cons. simpl Py.lstrip at 2.
  destruct (Py.isspace c) eqn:Hc.
  - destruct (Py.blank r) eqn:Hb.
    + simpl. symmetry. apply rstrip_empty. by rewrite blank_lstrip.
    + simpl. by rewrite Hc.
  - rewrite rstrip_cons. destruct (Py.blank r); simpl; by rewrite Hc.
Qed.

Lemma strip_idem s : Py.strip (Py.strip s) = Py.strip s.
Proof.
  unfold Py.strip. rewrite lstrip_rstrip, lstrip_idem, rstrip_idem. done.
Qed.

Lemma blank_upper s : Py.blank (Py.upper s) = Py.blank s.
Proof.
  unfold Py.blank, Py.upper.
  induction s as [|c r IH]; simpl; [done|].
  by rewrite isspace_upper_char, IH.
Qed.

Lemma lstrip_upper s : Py.lstrip (Py.upper s) = Py.upper (Py.lstrip s).
Proof.
  unfold Py.upper.
  induction s as [|c r IH]; simpl; [done|].
  rewrite isspace_upper_char. by destruct (Py.isspace c).
Qed.

Lemma rstrip_upper s : Py.rstrip (Py.upper s) = Py.upper (Py.rstrip s).
Proof.
  induction s as [|c r IH]; [done|].
  change (Py.upper (String c r)) with (String (Py.upper_char c) (Py.upper r)).
  rewrite !rstrip_cons, blank_upper, isspace_upper_char, IH.
  destruct (Py.blank r), (Py.isspace c); done.
Qed.

Lemma strip_upper s : Py.strip (Py.upper s) = Py.upper (Py.strip s).
Proof. unfold Py.strip. by rewrite lstrip_upper, rstrip_upper. Qed.

Lemma upper_idem s : Py.upper (Py.upper s) = Py.upper s.
Proof.
  induction s as [|c r IH]; simpl; [done|].
  unfold Py.upper in *. simpl. by rewrite upper_char_idem, IH.
Qed.

(** The trimmed upper-case form that both normalisers work on is a fixed
    point of trimming and upper-casing. *)
Lemma canon_idem s :
  Py.upper (Py.strip (Py.upper (Py.strip s))) = Py.upper (Py.strip s).
Proof. by rewrite strip_upper, strip_idem, upper_idem. Qed.

Lemma string_app_cons c r s : String c r +:+ s = String c (r +:+ s).
Proof. done. Qed.

Lemma string_app_nil_l s : "" +:+ s = s.
Proof. done. Qed.

Lemma string_length_app s1 s2 :
  String.length (s1 +:+ s2) = String.length s1 + String.length s2.
Proof.
  induction s1 as [|c r IH]; [done|].
  rewrite string_app_cons. simpl. by rewrite IH.
Qed.

Lemma string_app_nil_r s : s +:+ "" = s.
Proof.
  induction s as [|c r IH]; [done|]. by rewrite string_app_cons, IH.
Qed.

Lemma string_app_assoc s1 s2 s3 : (s1 +:+ s2) +:+ s3 = s1 +:+ s2 +:+ s3.
Proof.
  induction s1 as [|c r IH]; [done|]. by rewrite !string_app_cons, IH.
Qed.

Lemma length_zeros n : String.length (Py.zeros n) = n.
Proof. induction n; simpl; [done|]. by f_equal. Qed.

Lemma all_chars_app p s1 s2 :
  Py.all_chars p (s1 +:+ s2) = Py.all_chars p s1 && Py.all_chars p s2.
Proof.
  induction s1 as [|c r IH]; [done|].
  rewrite string_app_cons. simpl. by rewrite IH, andb_assoc.
Qed.

Lemma all_digits_zeros n : Py.all_chars Py.is_digit (Py.zeros n) = true.
Proof. induction n; simpl; [done|]. done. Qed.

Lemma isdigit_spec s :
  Py.isdigit s = true ↔ s ≠ "" ∧ Py.all_chars Py.is_digit s = true.
Proof.
  unfold Py.isdigit. rewrite andb_true_iff, negb_true_iff, is_empty_false. done.
Qed.

Lemma fullmatch_digits_isdigit s : Py.fullmatch_digits s = Py.isdigit s.
Proof.
  unfold Py.isdigit.
  induction s as [|c r IH]; [done|].
  destruct r as [|c' r']; [simpl; by rewrite andb_true_r|].
  change (Py.fullmatch_digits (String c (String c' r')))
    with (Py.is_digit c && Py.fullmatch_digits (String c' r')).
  rewrite IH. done.
Qed.

Lemma all_digits_lstrip s : Py.all_chars Py.is_digit s = true → Py.lstrip s = s.
Proof.
  destruct s as [|c r]; simpl; [done|].
  intros [Hc _]%andb_true_iff. by rewrite (is_digit_not_space c Hc).
Qed.

Lemma all_digits_blank s :
  Py.all_chars Py.is_digit s = true → Py.blank s = true → s = "".
Proof.
  destruct s as [|c r]; [done|]. unfold Py.blank. simpl.
  intros [Hc _]%andb_true_iff. by rewrite (is_digit_not_space c Hc).
Qed.

Lemma all_digits_rstrip s : Py.all_chars Py.is_digit s = true → Py.rstrip s = s.
Proof.
  induction s as [|c r IH]; [done|].
  simpl Py.all_chars. intros [Hc Hr]%andb_true_iff.
  rewrite rstrip_cons, (is_digit_not_space c Hc), (IH Hr).
  destruct (Py.blank r) eqn:Hb; [|done].
  by rewrite (all_digits_blank r Hr Hb).
Qed.

Lemma all_digits_strip s : Py.all_chars Py.is_digit s = true → Py.strip s = s.
Proof.
  intros Hs. unfold Py.strip. by rewrite all_digits_lstrip, all_digits_rstrip.
Qed.

Lemma all_digits_upper s : Py.all_chars Py.is_digit s = true → Py.upper s = s.
Proof.
  unfold Py.upper.
  induction s as [|c r IH]; simpl; [done|].
  intros [Hc Hr]%andb_true_iff. by rewrite (is_digit_upper_char c Hc), IH.
Qed.

(** *** [zfill] *)

Lemma zfill_ge w s : w ≤ String.length s → Py.zfill w s = s.
Proof.
  intros Hw. unfold Py.zfill.
  destruct (w <=? String.length s) eqn:E; [done|].
  apply Nat.leb_gt in E. lia.
Qed.


Lemma zfill_unsigned w s :
  Py.starts_with_sign s = false →
  Py.zfill w s = Py.zeros (w - String.length s) +:+ s.
Proof.
  intros Hs. unfold Py.zfill.
  destruct (w <=? String.length s) eqn:E.
  - apply Nat.leb_le in E. by replace (w - String.length s) with 0 by lia.
  - destruct s as [|c r]; simpl in *.
    + by rewrite Nat.sub_0_r, string_app_nil_r.
    + by rewrite Hs.
Qed.

Lemma zfill_signed w c r :
  Py.is_sign c = true → String.length (String c r) < w →
  Py.zfill w (String c r) = String c (Py.zeros (w - String.length (String c r)) +:+ r).
Proof.
  intros Hc Hw. unfold Py.zfill.
  destruct (w <=? String.length (String c r)) eqn:E.
  - apply Nat.leb_le in E. lia.
  - by rewrite Hc.
Qed.

Lemma length_zfill w s : String.length (Py.zfill w s) = w `max` String.length s.
Proof.
  unfold Py.zfill.
  destruct (w <=? String.length s) eqn:E.
  - apply Nat.leb_le in E. lia.
  - apply Nat.leb_gt in E. destruct s as [|c r].
    + rewrite length_zeros. simpl. lia.
    + destruct (Py.is_sign c); simpl in *;
        rewrite string_length_app, length_zeros; simpl; lia.
Qed.

Lemma all_digits_unsigned s :
  Py.all_chars Py.is_digit s = true → Py.starts_with_sign s = false.
Proof.
  destruct s as [|c r]; simpl; [done|].
  intros [Hc _]%andb_true_iff. by apply is_digit_not_sign.
Qed.

Lemma all_digits_zfill w s :
  Py.all_chars Py.is_digit s = true → Py.all_chars Py.is_digit (Py.zfill w s) = true.
Proof.
  intros Hs. rewrite zfill_unsigned by by apply all_digits_unsigned.
  by rewrite all_chars_app, all_digits_zeros, Hs.
Qed.

(** *** [s[-n:]] *)

Lemma length_drop_chars n s :
  String.length (Py.drop_chars n s) = String.length s - n.
Proof.
  revert s. induction n as [|n IH]; intros [|c r]; simpl; try done; try lia.
Qed.

Lemma drop_chars_suffix n s :
  ∃ pre, s = pre +:+ Py.drop_chars n s ∧ String.length pre = n `min` String.length s.
Proof.
  revert s. induction n as [|n IH]; intros s.
  - exists "". split; [done|]. simpl. lia.
  - destruct s as [|c r]; simpl.
    + by exists "".
    + destruct (IH r) as (pre & Hr & Hl). exists (String c pre).
      rewrite string_app_cons. simpl.
      split; [by rewrite <- Hr|]. by rewrite Hl.
Qed.

Lemma all_chars_drop p n s :
  Py.all_chars p s = true → Py.all_chars p (Py.drop_chars n s) = true.
Proof.
  revert s. induction n as [|n IH]; intros [|c r]; simpl; try done.
  intros [_ Hr]%andb_true_iff. by apply IH.
Qed.

Lemma length_last_chars n s :
  String.length (Py.last_chars n s) = n `min` String.length s.
Proof. unfold Py.last_chars. rewrite length_drop_chars. lia. Qed.

Lemma last_chars_all n s : String.length s ≤ n → Py.last_chars n s = s.
Proof.
  intros Hn. unfold Py.last_chars.
  by replace (String.length s - n) with 0 by lia.
Qed.

(** * The two normalisers *)

(** [format_code_4] on a text, by the shape of its trimmed upper-case form. *)
Lemma format_code_4_Str s :
  format_code_4 (Str s) =
  let t := Py.upper (Py.strip s) in
  if Py.is_empty t then None
  else if Py.isdigit t then Some (Py.last_chars 4 (Py.zfill 4 t))
  else Some (Py.zfill 4 t).
Proof. done. Qed.

Lemma _normalize_loc_code_Str s :
  _normalize_loc_code (Str s) =
  let t := Py.upper (Py.strip s) in
  if Py.is_empty t then ""
  else if Py.isdigit t then Py.zfill 4 t
  else t.
Proof. unfold _normalize_loc_code. simpl. by rewrite fullmatch_digits_isdigit. Qed.

Lemma canon_empty s : Py.is_empty (Py.upper (Py.strip s)) = Py.blank s.
Proof.
  destruct (Py.blank s) eqn:Hb.
  - apply strip_empty in Hb. by rewrite Hb.
  - apply is_empty_false. intros Hu.
    assert (Py.blank (Py.upper (Py.strip s)) = true) as Hb' by by rewrite Hu.
    rewrite blank_upper in Hb'. apply strip_empty in Hb'.
    rewrite strip_idem in Hb'. apply strip_empty in Hb'. congruence.
Qed.

(** C2, amended. The Code Normalizer [format_code_4]: a [None], a NaN or a blank
    text gives no code; when the trimmed upper-case text [t] is all digits
    the result is the rightmost four characters of [t] padded with zeros on
    the left to four characters; for every other text the result is
    [t.zfill(4)], of length [max 4 (len t)], equal to [t] when [t] has four
    characters or more and to zeros followed by [t] otherwise (Python's
    [zfill] puts the zeros after a leading sign). "95" gives "0095",
    "0000095" gives "0095", "11K" gives "011K", "" gives no code. *)
Theorem format_code_4_cases :
  format_code_4 PyNone = None
  ∧ format_code_4 NaN = None
  ∧ (∀ s, Py.blank s = true → format_code_4 (Str s) = None)
  ∧ (∀ s, let t := Py.upper (Py.strip s) in
       Py.isdigit t = true →
       ∃ pre r, format_code_4 (Str s) = Some r
                ∧ String.length r = 4
                ∧ Py.zeros (4 - String.length t) +:+ t = pre +:+ r)
  ∧ (∀ s, let t := Py.upper (Py.strip s) in
       Py.blank s = false → Py.isdigit t = false →
       format_code_4 (Str s) = Some (Py.zfill 4 t)
       ∧ String.length (Py.zfill 4 t) = 4 `max` String.length t
       ∧ (4 ≤ String.length t → Py.zfill 4 t = t)
       ∧ (Py.starts_with_sign t = false →
          Py.zfill 4 t = Py.zeros (4 - String.length t) +:+ t)
       ∧ (∀ c r, t = String c r → Py.is_sign c = true →
          Py.zfill 4 t = String c (Py.zeros (4 - String.length t) +:+ r)))
  ∧ format_code_4 (Str "95") = Some "0095"
  ∧ format_code_4 (Str "0000095") = Some "0095"
  ∧ format_code_4 (Str "11K") = Some "011K"
  ∧ format_code_4 (Str "") = None.
Proof.
  split_and!; try done.
  - intros s Hb. rewrite format_code_4_Str. simpl. by rewrite canon_empty, Hb.
  - intros s t Ht. rewrite format_code_4_Str. fold t.
    simpl. destruct (isdigit_spec t) as [Hd _]. destruct (Hd Ht) as [Hne Hall].
    apply is_empty_false in Hne. rewrite Hne, Ht.
    rewrite zfill_unsigned by by apply all_digits_unsigned.
    destruct (drop_chars_suffix
                (String.length (Py.zeros (4 - String.length t) +:+ t) - 4)
                (Py.zeros (4 - String.length t) +:+ t)) as (pre & Heq & _).
    exists pre, (Py.last_chars 4 (Py.zeros (4 - String.length t) +:+ t)).
    split; [done|]. split; [|exact Heq].
    rewrite length_last_chars, string_length_app, length_zeros. lia.
  - intros s t Hb Hd. split_and!.
    + rewrite format_code_4_Str. simpl. unfold t in Hd. by rewrite canon_empty, Hb, Hd.
    + apply length_zfill.
    + apply zfill_ge.
    + apply zfill_unsigned.
    + intros c r Ht Hc. destruct (decide (4 ≤ String.length t)) as [Hl|Hl].
      * rewrite zfill_ge by done. replace (4 - String.length t) with 0 by lia. done.
      * rewrite Ht. apply zfill_signed; [done|]. rewrite <- Ht. lia.
Qed.

(** C2 as the claim states it fails: "-5" is not all digits, and its code
    is "-005", the zeros after the sign, not the text with zeros added on
    its left, "00-5". *)
Lemma format_code_4_sign_before_zeros :
  Py.isdigit (Py.upper (Py.strip "-5")) = false
  ∧ format_code_4 (Str "-5") = Some "-005"
  ∧ Py.zeros (4 - String.length (Py.upper (Py.strip "-5"))) +:+ Py.upper (Py.strip "-5")
    = "00-5"
  ∧ ¬ (∀ s, Py.blank s = false → Py.isdigit (Py.upper (Py.strip s)) = false →
            format_code_4 (Str s)
            = Some (Py.zeros (4 - String.length (Py.upper (Py.strip s)))
                    +:+ Py.upper (Py.strip s))).
Proof.
  split_and!; try done.
  intros Hpad. specialize (Hpad "-5" eq_refl eq_refl). done.
Qed.

(** Re-normalising a normalised code changes nothing. *)
Lemma _normalize_loc_code_idem s :
  _normalize_loc_code (Str (_normalize_loc_code (Str s))) = _normalize_loc_code (Str s).
Proof.
  pose proof (_normalize_loc_code_Str s) as Hn. cbv zeta in Hn.
  destruct (Py.is_empty (Py.upper (Py.strip s))) eqn:He; [by rewrite Hn|].
  destruct (Py.isdigit (Py.upper (Py.strip s))) eqn:Hd; rewrite Hn.
  - apply isdigit_spec in Hd as [Hne Hall].
    pose proof (all_digits_zfill 4 _ Hall) as Hz.
    rewrite _normalize_loc_code_Str. cbv zeta.
    rewrite (all_digits_strip _ Hz), (all_digits_upper _ Hz).
    assert (Py.zfill 4 (Py.upper (Py.strip s)) ≠ "") as Hne'.
    { intros Hz0. pose proof (length_zfill 4 (Py.upper (Py.strip s))) as Hl.
      rewrite Hz0 in Hl. simpl in Hl. lia. }
    pose proof Hne' as He'. apply is_empty_false in He'. rewrite He'.
    assert (Py.isdigit (Py.zfill 4 (Py.upper (Py.strip s))) = true) as ->.
    { by apply isdigit_spec. }
    apply zfill_ge. rewrite length_zfill. lia.
  - rewrite _normalize_loc_code_Str. cbv zeta. by rewrite canon_idem, He, Hd.
Qed.

Lemma _normalize_loc_code_series_Str s :
  _normalize_loc_code_series (Str s) = _normalize_loc_code (Str s).
Proof. done. Qed.

Lemma _normalize_loc_code_series_idem v :
  _normalize_loc_code_series (Str (_normalize_loc_code_series v)) =
  _normalize_loc_code_series v.
Proof.
  unfold _normalize_loc_code_series. simpl. apply _normalize_loc_code_idem.
Qed.

Lemma _normalize_loc_code_of_series v :
  _normalize_loc_code (Str (_normalize_loc_code_series v)) = _normalize_loc_code_series v.
Proof. exact (_normalize_loc_code_series_idem v). Qed.

Lemma is_sign_not_space c : Py.is_sign c = true → Py.isspace c = false.
Proof. each_char c. Qed.

Lemma is_sign_upper_char c : Py.is_sign c = true → Py.upper_char c = c.
Proof. each_char c. Qed.

Lemma upper_app s1 s2 : Py.upper (s1 +:+ s2) = Py.upper s1 +:+ Py.upper s2.
Proof.
  unfold Py.upper. induction s1 as [|c r IH]; [done|].
  rewrite string_app_cons. simpl. by rewrite IH.
Qed.

Lemma upper_zeros n : Py.upper (Py.zeros n) = Py.zeros n.
Proof. apply all_digits_upper, all_digits_zeros. Qed.

Lemma strip_fixed t : Py.strip t = t → Py.lstrip t = t ∧ Py.rstrip t = t.
Proof.
  unfold Py.strip. intros Ht. split.
  - rewrite <- Ht at 1. by rewrite lstrip_rstrip, lstrip_idem.
  - rewrite <- Ht at 1. by rewrite rstrip_idem.
Qed.

Lemma canon_fixed s :
  Py.strip (Py.upper (Py.strip s)) = Py.upper (Py.strip s)
  ∧ Py.upper (Py.upper (Py.strip s)) = Py.upper (Py.strip s).
Proof. by rewrite strip_upper, strip_idem, upper_idem. Qed.

Lemma blank_zeros_app n t : Py.blank (Py.zeros (S n) +:+ t) = false.
Proof. done. Qed.

Lemma rstrip_zeros_app n t :
  Py.rstrip t = t → Py.rstrip (Py.zeros n +:+ t) = Py.zeros n +:+ t.
Proof.
  intros Ht. induction n as [|n IH]; [done|].
  change (Py.zeros (S n) +:+ t) with (String "0" (Py.zeros n +:+ t)).
  rewrite rstrip_cons, IH.
  destruct (Py.blank (Py.zeros n +:+ t)) eqn:Hb; [|done].
  apply rstrip_empty in Hb. rewrite IH in Hb. by rewrite Hb.
Qed.

(** Padding keeps a trimmed upper-case text trimmed and upper-case. *)
Lemma zfill_fixed w t :
  Py.strip t = t → Py.upper t = t →
  Py.strip (Py.zfill w t) = Py.zfill w t ∧ Py.upper (Py.zfill w t) = Py.zfill w t.
Proof.
  intros Hs Hu. destruct (strip_fixed t Hs) as [Hl Hr].
  destruct (decide (w ≤ String.length t)) as [Hw|Hw].
  { by rewrite zfill_ge. }
  destruct (Py.starts_with_sign t) eqn:Hsign.
  - destruct t as [|c r]; [done|]. simpl in Hsign.
    rewrite zfill_signed by (done || lia).
    set (n := w - String.length (String c r)).
    assert (n = S (pred n)) as Hn by (unfold n; lia). 
    assert (Py.rstrip r = r) as Hrr.
    { rewrite rstrip_cons in Hr. destruct (Py.blank r) eqn:Hb.
      - rewrite (is_sign_not_space c Hsign) in Hr. injection Hr as <-. done.
      - by injection Hr. }
    assert (Py.upper r = r) as Hur.
    { unfold Py.upper in *. simpl in Hu. by injection Hu. }
    split.
    + unfold Py.strip. simpl Py.lstrip. rewrite (is_sign_not_space c Hsign).
      rewrite rstrip_cons, (rstrip_zeros_app n r Hrr).
      rewrite Hn at 1. by rewrite blank_zeros_app.
    + change (Py.upper (String c (Py.zeros n +:+ r)))
        with (String (Py.upper_char c) (Py.upper (Py.zeros n +:+ r))).
      by rewrite upper_app, upper_zeros, Hur, (is_sign_upper_char c Hsign).
  - rewrite zfill_unsigned by done.
    set (n := w - String.length t).
    assert (n = S (pred n)) as Hn by (unfold n; lia).
    split.
    + unfold Py.strip.
      assert (Py.lstrip (Py.zeros n +:+ t) = Py.zeros n +:+ t) as ->.
      { rewrite Hn. done. }
      by apply rstrip_zeros_app.
    + by rewrite upper_app, upper_zeros, Hu.
Qed.

Lemma zfill_all_digits w t :
  Py.all_chars Py.is_digit (Py.zfill w t) = true → Py.all_chars Py.is_digit t = true.
Proof.
  destruct (decide (w ≤ String.length t)) as [Hw|Hw].
  { by rewrite zfill_ge. }
  destruct (Py.starts_with_sign t) eqn:Hsign.
  - destruct t as [|c r]; [done|]. simpl in Hsign.
    rewrite zfill_signed by (done || lia). simpl.
    intros [Hc _]%andb_true_iff. apply is_digit_not_sign in Hc. congruence.
  - rewrite zfill_unsigned by done. rewrite all_chars_app.
    by intros [_ ?]%andb_true_iff.
Qed.

Lemma zfill_nonempty w t : t ≠ "" → Py.zfill w t ≠ "".
Proof.
  intros Ht Hz. pose proof (length_zfill w t) as Hl. rewrite Hz in Hl.
  destruct t; [done|]. simpl in Hl. lia.
Qed.

(** Every output of [format_code_4] is a fixed point of the pipeline's
    re-normalisation. *)
Lemma _normalize_loc_code_format_code_4 v f :
  format_code_4 v = Some f → _normalize_loc_code (Str f) = f.
Proof.
  destruct v as [| |s]; [done..|].
  rewrite format_code_4_Str. cbv zeta.
  destruct (canon_fixed s) as [Hs Hu].
  set (t := Py.upper (Py.strip s)) in *.
  destruct (Py.is_empty t) eqn:He; [done|]. apply is_empty_false in He.
  destruct (Py.isdigit t) eqn:Hd; intros [= <-].
  - apply isdigit_spec in Hd as [_ Hall].
    pose proof (all_digits_zfill 4 _ Hall) as Hz.
    set (z := Py.zfill 4 t) in *.
    assert (Py.all_chars Py.is_digit (Py.last_chars 4 z) = true) as Hall'
      by by apply all_chars_drop.
    assert (String.length (Py.last_chars 4 z) = 4) as Hlen.
    { rewrite length_last_chars. unfold z. rewrite length_zfill. lia. }
    rewrite _normalize_loc_code_Str. cbv zeta.
    rewrite (all_digits_strip _ Hall'), (all_digits_upper _ Hall').
    destruct (Py.last_chars 4 z) as [|c r] eqn:E; [done|]. rewrite <- E in *.
    assert (Py.isdigit (Py.last_chars 4 z) = true) as ->.
    { apply isdigit_spec. split; [by rewrite E|done]. }
    rewrite E at 1. simpl Py.is_empty. cbv iota.
    apply zfill_ge. lia.
  - destruct (zfill_fixed 4 t Hs Hu) as [Hzs Hzu].
    rewrite _normalize_loc_code_Str. cbv zeta. rewrite Hzs, Hzu.
    pose proof (zfill_nonempty 4 t He) as Hne. apply is_empty_false in Hne.
    rewrite Hne.
    destruct (Py.isdigit (Py.zfill 4 t)) eqn:Hd'; [|done].
    apply isdigit_spec in Hd' as [_ Hall]. apply zfill_all_digits in Hall.
    assert (Py.isdigit t = true) by by apply isdigit_spec. congruence.
Qed.

(** C8, amended. The pipeline's [_normalize_loc_code] and the Code
    Normalizer [format_code_4] give the same text exactly for a blank input
    (the empty text standing for the absent code), for an all-digit input
    of at most four digits and for any other input of four characters or
    more. An all-digit input keeps all its digits under
    [_normalize_loc_code] (it is only padded to four), and any other input
    is returned trimmed and upper-cased without padding. On every output of
    [format_code_4] the re-normalisation is the identity. *)
Theorem normalizers_agree_iff :
  (∀ s, let t := Py.upper (Py.strip s) in
     code_text (format_code_4 (Str s)) = _normalize_loc_code (Str s)
     ↔ (t = ""
        ∨ (Py.isdigit t = true ∧ String.length t ≤ 4)
        ∨ (Py.isdigit t = false ∧ 4 ≤ String.length t)))
  ∧ (∀ s, let t := Py.upper (Py.strip s) in
       Py.isdigit t = true →
       _normalize_loc_code (Str s) = Py.zeros (4 - String.length t) +:+ t)
  ∧ (∀ s, let t := Py.upper (Py.strip s) in
       t ≠ "" → Py.isdigit t = false → _normalize_loc_code (Str s) = t)
  ∧ (∀ v f, format_code_4 v = Some f → _normalize_loc_code (Str f) = f)
  ∧ code_text (format_code_4 PyNone) = _normalize_loc_code PyNone
  ∧ code_text (format_code_4 NaN) = _normalize_loc_code_series NaN.
Proof.
  split_and!; try done.
  - intros s t. rewrite format_code_4_Str, _normalize_loc_code_Str. cbv zeta. fold t.
    destruct (Py.is_empty t) eqn:He.
    { apply is_empty_true in He. simpl. split; [by left|done]. }
    apply is_empty_false in He.
    destruct (Py.isdigit t) eqn:Hd; simpl.
    + split.
      * intros Heq. right; left. split; [done|].
        pose proof (length_last_chars 4 (Py.zfill 4 t)) as Hl.
        rewrite Heq, length_zfill in Hl. lia.
      * intros [?|[[_ Hl]|[? _]]]; [done| |done].
        apply last_chars_all. rewrite length_zfill. lia.
    + split.
      * intros Heq. right; right. split; [done|].
        pose proof (length_zfill 4 t) as Hl. rewrite Heq in Hl. lia.
      * intros [?|[[? _]|[_ Hl]]]; [done|done|]. by apply zfill_ge.
  - intros s t Hd. rewrite _normalize_loc_code_Str. cbv zeta. fold t.
    pose proof Hd as Hd'. apply isdigit_spec in Hd' as [Hne Hall].
    apply is_empty_false in Hne. rewrite Hne, Hd.
    apply zfill_unsigned. by apply all_digits_unsigned.
  - intros s t Hne Hd. rewrite _normalize_loc_code_Str. cbv zeta. fold t.
    apply is_empty_false in Hne. by rewrite Hne, Hd.
  - apply _normalize_loc_code_format_code_4.
Qed.

(** C8 as the claim states it fails: on "0000095" and on "11K" the two
    normalisers differ, so they are not the same function. *)
Lemma normalizers_differ :
  code_text (format_code_4 (Str "0000095")) = "0095"
  ∧ _normalize_loc_code (Str "0000095") = "0000095"
  ∧ code_text (format_code_4 (Str "11K")) = "011K"
  ∧ _normalize_loc_code (Str "11K") = "11K"
  ∧ ¬ (∀ v, code_text (format_code_4 v) = _normalize_loc_code v).
Proof.
  split_and!; try done.
  intros Hsame. specialize (Hsame (Str "11K")). done.
Qed.

(** * The reference index *)

Lemma format_code_4_canon v :
  isna v = false →
  format_code_4 (Str (Py.upper (Py.strip (str v)))) = format_code_4 v.
Proof.
  intros Hv. unfold format_code_4. rewrite Hv. simpl. by rewrite canon_idem.
Qed.

Lemma elem_of_codes_set_raw master_table codes_list raw :
  raw ∈ codes_set_raw (Location_Codes_Finder__init__ master_table codes_list)
  ↔ ∃ c, c ∈ codes_list ∧ isna c = false ∧ raw = Py.upper (Py.strip (str c)).
Proof.
  simpl. rewrite elem_of_list_to_set, list_elem_of_fmap.
  split.
  - intros (c & -> & [Hc Hin]%list_elem_of_filter). by exists c.
  - intros (c & Hin & Hc & ->). exists c. split; [done|].
    by apply list_elem_of_filter.
Qed.

(** The normalised set holds the normalised form of every raw member. *)
Lemma codes_set_4_of_raw master_table codes_list raw f :
  let self := Location_Codes_Finder__init__ master_table codes_list in
  raw ∈ codes_set_raw self → format_code_4 (Str raw) = Some f → f ∈ codes_set_4 self.
Proof. simpl. intros Hraw Hf. by eapply elem_of_set_omap_2. Qed.

(** C10. [validate_code_in_list] returns the normalised form of the token
    when that form is in [codes_set_4] and nothing otherwise: the fallback
    on [codes_set_raw] never decides, since the normalised form of every
    member of [codes_set_raw] is in [codes_set_4]. *)
Theorem validate_code_in_list_normalized_only master_table codes_list code :
  let self := Location_Codes_Finder__init__ master_table codes_list in
  validate_code_in_list self code =
    match format_code_4 code with
    | Some formatted =>
        if decide (formatted ∈ codes_set_4 self) then Some formatted else None
    | None => None
    end
  ∧ ∀ formatted,
      format_code_4 code = Some formatted →
      Py.upper (Py.strip (str code)) ∈ codes_set_raw self →
      formatted ∈ codes_set_4 self.
Proof.
  intros self.
  assert (∀ formatted,
            format_code_4 code = Some formatted →
            Py.upper (Py.strip (str code)) ∈ codes_set_raw self →
            formatted ∈ codes_set_4 self) as Hdead.
  { intros formatted Hf Hraw.
    apply (codes_set_4_of_raw master_table codes_list _ _ Hraw).
    rewrite format_code_4_canon; [done|].
    unfold format_code_4 in Hf. by destruct (isna code). }
  split; [|done].
  unfold validate_code_in_list.
  destruct (format_code_4 code) as [formatted|] eqn:Hf; [|done].
  destruct (decide (formatted ∈ codes_set_4 self)) as [|Hnot]; [done|].
  destruct (decide (Py.upper (Py.strip (str code)) ∈ codes_set_raw self)) as [Hraw|];
    [|done].
  destruct Hnot. by apply Hdead.
Qed.

(** *** The address index *)

Lemma foldl_insert_not_in {V} (m : gmap string V) (l : list (string * V)) k :
  k ∉ l.*1 → foldl (λ m kv, <[kv.1 := kv.2]> m) m l !! k = m !! k.
Proof.
  revert m. induction l as [|[k' v'] l IH]; intros m Hk; [done|].
  simpl in *. apply not_elem_of_cons in Hk as [Hne Hk].
  rewrite IH by done. by rewrite lookup_insert_ne.
Qed.

Lemma dict_of_pairs_last {V} (l1 l2 : list (string * V)) k v :
  k ∉ l2.*1 → dict_of_pairs (l1 ++ (k, v) :: l2) !! k = Some v.
Proof.
  intros Hk. unfold dict_of_pairs. rewrite foldl_app. simpl.
  rewrite foldl_insert_not_in by done. apply lookup_insert_eq.
Qed.

Lemma dict_of_pairs_absent {V} (l : list (string * V)) k :
  k ∉ l.*1 → dict_of_pairs l !! k = None.
Proof. intros Hk. unfold dict_of_pairs. by rewrite foldl_insert_not_in. Qed.

Lemma first_word_nonempty s w :
  Py.first_word s = Some w → ∃ c r, w = String c r ∧ Py.isspace c = false.
Proof.
  unfold Py.first_word.
  assert (∀ c r, Py.lstrip s = String c r → Py.isspace c = false) as Hfirst.
  { induction s as [|c' r' IH]; simpl; [done|].
    destruct (Py.isspace c') eqn:E; [done|]. by intros c r [= <- <-]. }
  destruct (Py.lstrip s) as [|c r] eqn:E; [done|].
  intros [= <-]. specialize (Hfirst c r eq_refl).
  simpl. rewrite Hfirst. eauto.
Qed.

Lemma space_isspace c : c = " "%char → Py.isspace c = true.
Proof. by intros ->. Qed.

(** A combined address is never the empty text: a key of the index is
    usable as soon as it is present. *)
Lemma combine_addr_nonempty street city state k :
  combine_addr street city state = Some k → k ≠ "".
Proof.
  unfold combine_addr.
  destruct (isna street || isna city || isna state); [done|].
  destruct (_ || _ || _); [done|].
  destruct (Py.first_word (Py.strip (str street))) as [w1|] eqn:E1; [|done].
  destruct (Py.first_word (Py.strip (str city))) as [w2|] eqn:E2; [|done].
  intros [= <-].
  apply first_word_nonempty in E1 as (c & r & -> & Hc).
  rewrite string_app_cons. simpl.
  case_bool_decide as Hsp; [|done].
  apply space_isspace in Hsp. congruence.
Qed.

Lemma usable_key_address_key r : usable_key (address_key r) = address_key r.
Proof.
  unfold address_key.
  destruct (combine_addr _ _ _) as [k|] eqn:E; [|done].
  apply combine_addr_nonempty in E. simpl.
  apply is_empty_false in E. by rewrite E.
Qed.

Lemma master_pairs_keys master_table k :
  k ∈ (master_pairs master_table).*1 ↔ ∃ r, r ∈ master_table ∧ address_key r = Some k.
Proof.
  unfold master_pairs. rewrite list_elem_of_fmap. split.
  - intros ([k' c] & -> & (r & Hr & Hkc)%list_elem_of_omap).
    exists r. split; [done|].
    rewrite usable_key_address_key in Hkc.
    destruct (address_key r); simpl in *; congruence.
  - intros (r & Hr & Hk). exists (k, Py.upper (Py.strip (str (Loc_Code r)))).
    split; [done|]. apply list_elem_of_omap. exists r. split; [done|].
    rewrite usable_key_address_key. by rewrite Hk.
Qed.

(** C3, amended. In the address index built from the master table,
    duplicate keys resolve last-write-wins: the index maps a key to the
    trimmed upper-case code of the last row that produces it. *)
Theorem address_index_last_write_wins codes_list before r after k :
  address_key r = Some k →
  (∀ r', r' ∈ after → address_key r' ≠ Some k) →
  address_to_code (Location_Codes_Finder__init__ (before ++ r :: after) codes_list) !! k
  = Some (Py.upper (Py.strip (str (Loc_Code r)))).
Proof.
  intros Hk Hafter. simpl. unfold master_pairs.
  rewrite omap_app. simpl.
  rewrite usable_key_address_key, Hk. simpl.
  apply dict_of_pairs_last.
  intros (r' & Hr' & Hk')%master_pairs_keys. by apply (Hafter r').
Qed.

Lemma address_index_last_write_wins_witness :
  address_to_code
    (Location_Codes_Finder__init__
       ([MyLocation (Str "100 Main St") (Str "Springfield") (Str "IL") (Str "0001")]
        ++ MyLocation (Str "100 Main Road") (Str "Springfield") (Str "IL") (Str "0002")
        :: [MyLocation (Str "7 Elm St") (Str "Dayton") (Str "OH") (Str "0003")])
       []) !! "100SPRINGFIELDIL"
  = Some "0002".
Proof.
  apply (address_index_last_write_wins []
           [MyLocation (Str "100 Main St") (Str "Springfield") (Str "IL") (Str "0001")]
           (MyLocation (Str "100 Main Road") (Str "Springfield") (Str "IL") (Str "0002"))
           [MyLocation (Str "7 Elm St") (Str "Dayton") (Str "OH") (Str "0003")]
           "100SPRINGFIELDIL").
  - reflexivity.
  - intros r' Hr'. apply list_elem_of_singleton in Hr'. subst r'. vm_compute. discriminate.
Defined.

(** C3 as the claim states it fails: two rows give one key, and the index
    holds the code of the later row. *)
Lemma address_index_not_first_write_wins :
  address_key (MyLocation (Str "100 Main St") (Str "Springfield") (Str "IL") (Str "0001"))
  = Some "100SPRINGFIELDIL"
  ∧ address_key (MyLocation (Str "100 Main Road") (Str "Springfield") (Str "IL") (Str "0002"))
    = Some "100SPRINGFIELDIL"
  ∧ address_to_code
      (Location_Codes_Finder__init__
         [ MyLocation (Str "100 Main St") (Str "Springfield") (Str "IL") (Str "0001");
           MyLocation (Str "100 Main Road") (Str "Springfield") (Str "IL") (Str "0002") ]
         []) !! "100SPRINGFIELDIL"
    ≠ Some "0001".
Proof. split_and!; [reflexivity..|]. vm_compute. discriminate. Qed.

(** * The responsible party *)

Section MatrixMapperFacts.
Context `{Env}.

(** C5, amended. When the final consignor type, trimmed and upper-cased,
    is "MM" and the final consignee type, trimmed, upper-cased and with its
    space characters removed ([replace(" ", "")]: a tab or a line break
    inside the type is kept), is "CADC", the responsible party is "037Q",
    whatever the special codes, the carrier, the special type mappings and
    the coding matrix say. *)
Theorem manufacturer_to_canadian_dc_override (r : row) :
  Py.upper (Py.strip (str (row_get r "Final Consignor Type" (Str "")))) = "MM" →
  Py.remove_spaces
    (Py.upper (Py.strip (str (row_get r "Final Consignee Type" (Str ""))))) = "CADC" →
  determine_profit_center r = Some (Str "037Q").
Proof.
  intros Hor Hee. unfold determine_profit_center. by rewrite Hor, Hee.
Qed.

(** C6, amended. For a record that the manufacturer to Canadian
    distribution centre override does not match: when the final consignee
    code is one of "0K35", "024P", "067N", the consignee type, trimmed,
    upper-cased and with its space characters removed ([replace(" ", "")]:
    a tab or a line break inside the type is kept), is "USDC" or "CADC",
    and the consignor type, trimmed and upper-cased, is not "LC", the
    responsible party is the final consignee code. *)
Theorem special_code_rule (r : row) (code : string) :
  let consignor_type :=
    Py.upper (Py.strip (str (row_get r "Final Consignor Type" (Str "")))) in
  let consignee_type_norm :=
    Py.remove_spaces
      (Py.upper (Py.strip (str (row_get r "Final Consignee Type" (Str ""))))) in
  ¬ (consignor_type = "MM" ∧ consignee_type_norm = "CADC") →
  r !! "Final Consignee Code" = Some (Str code) →
  code ∈ SPECIAL_CODES →
  consignee_type_norm = "USDC" ∨ consignee_type_norm = "CADC" →
  consignor_type ≠ "LC" →
  determine_profit_center r = Some (Str code).
Proof.
  intros consignor_type consignee_type_norm Hnot Hcode Hspecial Hee Hor.
  unfold determine_profit_center. fold consignor_type consignee_type_norm.
  assert (bool_decide (consignor_type = "MM")
          && bool_decide (consignee_type_norm = "CADC") = false) as ->.
  { apply andb_false_iff.
    destruct (decide (consignor_type = "MM")) as [Hmm|Hmm];
      [right|left]; apply bool_decide_eq_false; [|done].
    intros Hca. by apply Hnot. }
  rewrite Hcode. simpl.
  rewrite (bool_decide_eq_true_2 _ Hspecial).
  assert (bool_decide (consignee_type_norm ∈ ["USDC"; "CADC"]) = true) as ->.
  { apply bool_decide_eq_true_2. rewrite !elem_of_cons. tauto. }
  by rewrite (bool_decide_eq_false_2 _ Hor).
Qed.

End MatrixMapperFacts.

(** * The general-ledger account *)

Lemma startswith_spec p s : Py.startswith p s = true ↔ ∃ b, s = p +:+ b.
Proof.
  revert s. induction p as [|a p IH]; intros s; simpl.
  - split; [intros _; by exists s|done].
  - destruct s as [|c s]; simpl.
    + split; [done|]. intros [b Hb]. done.
    + rewrite andb_true_iff, bool_decide_eq_true, IH. split.
      * intros [-> [b ->]]. by exists b.
      * intros [b Hb]. rewrite string_app_cons in Hb. injection Hb as -> ->. eauto.
Qed.

(** [sub in s] holds exactly when [s] is [a + sub + b] for some [a], [b]. *)
Lemma contains_spec sub s :
  Py.contains sub s = true ↔ ∃ a b, s = a +:+ sub +:+ b.
Proof.
  induction s as [|c s IH].
  - simpl. rewrite orb_false_r, startswith_spec. split.
    + intros [b Hb]. by exists "", b.
    + intros (a & b & Hab). destruct a as [|? ?]; [by exists b|done].
  - change (Py.contains sub (String c s))
      with (Py.startswith sub (String c s) || Py.contains sub s).
    rewrite orb_true_iff, startswith_spec, IH. split.
    + intros [[b Hb]|(a & b & ->)]; [by exists "", b|by exists (String c a), b].
    + intros (a & b & Hab). destruct a as [|c' a].
      * left. by exists b.
      * right. rewrite string_app_cons in Hab. injection Hab as -> ->. eauto.
Qed.

Lemma py_eq_Str a b : py_eq (Str a) (Str b) = true ↔ a = b.
Proof. simpl. apply bool_decide_eq_true. Qed.

(** C7. The account number is 621000 when the profit centre contains
    "G59", whatever the final consignee code and the responsible party;
    otherwise it is 621000 when the final consignee code equals the
    responsible party and 621020 when it does not. *)
Theorem account_number_cases (r : row) :
  let profit_center := str (row_get r "Profit Center EJ" (Str "")) in
  let final_consignee := row_get r "Final Consignee Code" PyNone in
  let responsible_party := row_get r "Responsible Party" PyNone in
  (Py.contains "G59" profit_center = true →
     account_number r = 621000%Z ∧ account_EJ r = Str "621000")
  ∧ (Py.contains "G59" profit_center = false →
     py_eq final_consignee responsible_party = true →
     account_number r = 621000%Z ∧ account_EJ r = Str "621000")
  ∧ (Py.contains "G59" profit_center = false →
     py_eq final_consignee responsible_party = false →
     account_number r = 621020%Z ∧ account_EJ r = Str "621020")
  ∧ (∀ a b, final_consignee = Str a → responsible_party = Str b →
     (py_eq final_consignee responsible_party = true ↔ a = b)).
Proof.
  intros profit_center final_consignee responsible_party.
  unfold account_EJ, account_number.
  fold profit_center final_consignee responsible_party.
  split_and!.
  - by intros ->.
  - by intros -> ->.
  - by intros -> ->.
  - intros a b -> ->. apply py_eq_Str.
Qed.

(** * The stages of the pipeline *)

Lemma set_col_eq c f (r : row) : set_col c f r !! c = Some (f r).
Proof. apply lookup_insert_eq. Qed.

Lemma set_col_ne c c' f (r : row) : c ≠ c' → set_col c f r !! c' = r !! c'.
Proof. intros. by apply lookup_insert_ne. Qed.

Lemma set_where_ne mask c c' v (r : row) :
  c ≠ c' → set_where mask c v r !! c' = r !! c'.
Proof. intros. unfold set_where. destruct (mask r); [by apply lookup_insert_ne|done]. Qed.

Lemma set_where_eq mask c v (r : row) :
  set_where mask c v r !! c = if mask r then Some v else r !! c.
Proof. unfold set_where. destruct (mask r); [apply lookup_insert_eq|done]. Qed.

Lemma col_eq (r r' : row) c : r !! c = r' !! c → col r c = col r' c.
Proof. unfold col. by intros ->. Qed.

(** Frame conditions: what a stage does not write, it leaves as it was. *)
Ltac frame :=
  intros; cbv zeta;
  repeat first
    [ rewrite set_col_ne by done
    | rewrite set_where_ne by done ];
  done.

Section StageFacts.
Context `{Env}.
Variable ctx : context.

Lemma combined_addresses_frame (r : row) c :
  c ≠ "Consignor_Combined_Address" → c ≠ "Consignee_Combined_Address" →
  combined_addresses r !! c = r !! c.
Proof. unfold combined_addresses. frame. Qed.

Lemma extract_codes_frame (r : row) c :
  c ≠ "Extracted Consignor Code" → c ≠ "Extracted Consignee Code" →
  extract_codes ctx r !! c = r !! c.
Proof. unfold extract_codes. frame. Qed.

Lemma address_checker_rule_frame (r : row) c :
  c ≠ "Extracted Consignor Code" → c ≠ "Extracted Consignee Code" →
  address_checker_rule ctx r !! c = r !! c.
Proof. unfold address_checker_rule. frame. Qed.

Lemma org_dest_type_codes_frame (r : row) c :
  c ≠ "Org Type Consignor Code" → c ≠ "Dest Type Consignee Code" →
  org_dest_type_codes ctx r !! c = r !! c.
Proof. unfold org_dest_type_codes. frame. Qed.

Lemma address_lookup_codes_frame (r : row) c :
  c ≠ "Addr_Lookup_Consignor_Code" → c ≠ "Addr_Lookup_Consignee_Code" →
  address_lookup_codes ctx r !! c = r !! c.
Proof. unfold address_lookup_codes. frame. Qed.

Lemma suite_mississauga_override_frame (r : row) c :
  c ≠ "Addr_Lookup_Consignee_Code" →
  suite_mississauga_override r !! c = r !! c.
Proof. unfold suite_mississauga_override. frame. Qed.

Lemma final_location_codes_frame (r : row) c :
  c ≠ "Final Consignor Code" → c ≠ "Final Consignee Code" →
  final_location_codes r !! c = r !! c.
Proof. unfold final_location_codes. frame. Qed.

Lemma normalize_finals_frame (r : row) c :
  c ≠ "Final Consignor Code" → c ≠ "Final Consignee Code" →
  normalize_finals r !! c = r !! c.
Proof. unfold normalize_finals. frame. Qed.

Lemma apply_rule_frame cols (r : row) rule c :
  c ≠ set_column rule → apply_rule cols r rule !! c = r !! c.
Proof.
  intros Hc. unfold apply_rule. destruct (decide _); [|done].
  by rewrite set_where_ne.
Qed.

Lemma final_types_frame (r : row) c :
  c ≠ "Final Consignor Type" → c ≠ "Final Consignee Type" →
  final_types ctx r !! c = r !! c.
Proof. unfold final_types. frame. Qed.

End StageFacts.

(** ** The candidates of a record *)

Lemma col_set_col_eq c f (r : row) : col (set_col c f r) c = f r.
Proof. unfold col. by rewrite set_col_eq. Qed.

Lemma col_set_col_ne c c' f (r : row) : c ≠ c' → col (set_col c f r) c' = col r c'.
Proof. intros. unfold col. by rewrite set_col_ne. Qed.

Lemma row_get_set_col_ne c c' f (r : row) d :
  c ≠ c' → row_get (set_col c f r) c' d = row_get r c' d.
Proof. intros. unfold row_get. by rewrite set_col_ne. Qed.

Section Candidates.
Context `{Env}.
Variable ctx : context.

Lemma extract_codes_consignor (r : row) :
  extract_codes ctx r !! "Extracted Consignor Code"
  = Some (Str (_normalize_loc_code_series
                 (cell_of (extract_from_text (location_finder ctx) (col r "Consignor"))))).
Proof. unfold extract_codes. cbv zeta. rewrite set_col_ne by done. apply set_col_eq. Qed.

Lemma extract_codes_consignee (r : row) :
  extract_codes ctx r !! "Extracted Consignee Code"
  = Some (Str (_normalize_loc_code_series
                 (cell_of (extract_from_text (location_finder ctx) (col r "Consignee"))))).
Proof.
  unfold extract_codes. cbv zeta. rewrite set_col_eq.
  by rewrite col_set_col_ne.
Qed.

Lemma address_checker_rule_consignor (r : row) :
  address_checker_rule ctx r !! "Extracted Consignor Code"
  = if wipe_consignor ctx r then Some (Str "") else r !! "Extracted Consignor Code".
Proof.
  unfold address_checker_rule. cbv zeta.
  rewrite set_where_ne by done. by rewrite set_where_eq.
Qed.

Lemma address_checker_rule_consignee (r : row) :
  address_checker_rule ctx r !! "Extracted Consignee Code"
  = if wipe_consignee ctx r then Some (Str "") else r !! "Extracted Consignee Code".
Proof.
  unfold address_checker_rule. cbv zeta. rewrite set_where_eq.
  destruct (wipe_consignee ctx r); [done|]. by rewrite set_where_ne.
Qed.

Lemma org_dest_type_codes_consignor (r : row) :
  org_dest_type_codes ctx r !! "Org Type Consignor Code"
  = Some (Str (_normalize_loc_code_series
                 match org_type_col ctx, dest_type_col ctx with
                 | Some org_col, Some _ =>
                     cell_of (validate_code_in_list (location_finder ctx)
                                (row_get r org_col (Str "")))
                 | _, _ => Str ""
                 end)).
Proof.
  unfold org_dest_type_codes. cbv zeta.
  rewrite set_col_ne by done. rewrite set_col_eq.
  rewrite col_set_col_ne by done. rewrite col_set_col_eq.
  by destruct (org_type_col ctx), (dest_type_col ctx).
Qed.

Lemma org_dest_type_codes_consignee (r : row) :
  org_dest_type_codes ctx r !! "Dest Type Consignee Code"
  = Some (Str (_normalize_loc_code_series
                 match org_type_col ctx, dest_type_col ctx with
                 | Some _, Some dest_col =>
                     cell_of (validate_code_in_list (location_finder ctx)
                                (row_get r dest_col (Str "")))
                 | _, _ => Str ""
                 end)).
Proof.
  unfold org_dest_type_codes. cbv zeta.
  rewrite set_col_eq.
  rewrite col_set_col_ne by done. rewrite col_set_col_eq.
  by destruct (org_type_col ctx), (dest_type_col ctx).
Qed.

Lemma address_lookup_codes_consignor (r : row) :
  address_lookup_codes ctx r !! "Addr_Lookup_Consignor_Code"
  = Some (Str (_normalize_loc_code_series
                 (cell_of (extract_from_address (location_finder ctx)
                             (col r "Consignor_Combined_Address"))))).
Proof.
  unfold address_lookup_codes. cbv zeta. rewrite set_col_ne by done. apply set_col_eq.
Qed.

Lemma address_lookup_codes_consignee (r : row) :
  address_lookup_codes ctx r !! "Addr_Lookup_Consignee_Code"
  = Some (Str (_normalize_loc_code_series
                 (cell_of (extract_from_address (location_finder ctx)
                             (col r "Consignee_Combined_Address"))))).
Proof.
  unfold address_lookup_codes. cbv zeta. rewrite set_col_eq.
  by rewrite col_set_col_ne.
Qed.

Lemma suite_mississauga_override_consignee (r : row) :
  suite_mississauga_override r !! "Addr_Lookup_Consignee_Code"
  = r !! "Addr_Lookup_Consignee_Code"
  ∨ ∃ code, code ∈ ["097H"; "067N"; "0897"]
            ∧ suite_mississauga_override r !! "Addr_Lookup_Consignee_Code"
              = Some (Str code).
Proof.
  unfold suite_mississauga_override. cbv zeta.
  rewrite !set_where_eq. cbv beta.
  generalize (Py.upper (as_text (col r "Consignee_Combined_Address"))).
  generalize (Py.strip (Py.upper (as_text (col r "Consignor")))).
  intros consignor_txt consignee_combo.
  destruct (Py.startswith "SUITEMISSISSAUGAON" consignee_combo); cbn [andb]; [|by left].
  destruct (startswith_any ["CHEMFREE"; "BERRY GLOBAL"] consignor_txt).
  { right. exists "0897". split; [|done]. rewrite !elem_of_cons. tauto. }
  destruct (startswith_any ["VECTAIR"; "ZEP"] consignor_txt).
  { right. exists "067N". split; [|done]. rewrite !elem_of_cons. tauto. }
  destruct (startswith_any _ consignor_txt); [|by left].
  right. exists "097H". split; [|done]. rewrite !elem_of_cons. tauto.
Qed.

End Candidates.

(** ** The address checker *)

Lemma elem_of_master_combined_set my_loc k :
  k ∈ master_combined_set my_loc ↔ ∃ r, r ∈ my_loc ∧ address_key r = Some k.
Proof.
  unfold master_combined_set. rewrite elem_of_list_to_set, list_elem_of_omap. done.
Qed.

(** The search for a whole word: the text is [pre + w + post] with [w] a
    word of the list, [pre] empty or ending outside [\w] and [post] empty
    or starting outside [\w]. *)
Lemma word_ends_spec w s :
  word_ends w s = true
  ↔ ∃ post, s = w +:+ post ∧ ∀ c r, post = String c r → Py.is_word c = false.
Proof.
  revert s. induction w as [|a w IH]; intros s.
  - destruct s as [|c r]; simpl.
    + split; [|done]. intros _. by exists "".
    + rewrite negb_true_iff. split.
      * intros Hc. exists (String c r). split; [done|]. by intros ?? [= <- <-].
      * intros (post & Heq & Hpost). rewrite string_app_nil_l in Heq. by eapply Hpost.
  - destruct s as [|c r]; simpl.
    + split; [done|]. by intros (post & ? & _).
    + rewrite andb_true_iff, bool_decide_eq_true, IH. split.
      * intros [-> (post & -> & Hpost)]. by exists post.
      * intros (post & Heq & Hpost). rewrite string_app_cons in Heq.
        injection Heq as -> ->. eauto.
Qed.

Lemma search_words_spec b ws s :
  search_words b ws s = true
  ↔ ∃ pre w post,
      s = pre +:+ w +:+ post ∧ w ∈ ws
      ∧ ends_in_word_char b pre = false
      ∧ ∀ c r, post = String c r → Py.is_word c = false.
Proof.
  split.
  - revert b. induction s as [|c r IH]; intros b.
    + simpl. rewrite orb_false_r, andb_true_iff, negb_true_iff.
      intros [-> (w & Hw & Hends)%existsb_exists].
      apply word_ends_spec in Hends as (post & Hs & Hpost).
      exists "", w, post. by rewrite <- list_elem_of_In in Hw.
    + change (search_words b ws (String c r))
        with ((negb b && existsb (λ w, word_ends w (String c r)) ws)
              || search_words (Py.is_word c) ws r).
      rewrite orb_true_iff, andb_true_iff, negb_true_iff.
      intros [[-> (w & Hw & Hends)%existsb_exists]|Hr].
      * apply word_ends_spec in Hends as (post & Hs & Hpost).
        exists "", w, post. by rewrite <- list_elem_of_In in Hw.
      * apply IH in Hr as (pre & w & post & -> & Hw & Hpre & Hpost).
        by exists (String c pre), w, post.
  - intros (pre & w & post & -> & Hw & Hpre & Hpost).
    revert b Hpre. induction pre as [|c pre IH]; intros b Hpre.
    + simpl in Hpre. subst b.
      assert (existsb (λ w0, word_ends w0 (w +:+ post)) ws = true) as Hex.
      { apply existsb_exists. exists w. split; [by apply list_elem_of_In|].
        apply word_ends_spec. by exists post. }
      rewrite string_app_nil_l.
      destruct (w +:+ post); simpl; by rewrite Hex.
    + rewrite string_app_cons.
      change (search_words b ws (String c (pre +:+ w +:+ post)))
        with ((negb b && existsb (λ w0, word_ends w0 (String c (pre +:+ w +:+ post))) ws)
              || search_words (Py.is_word c) ws (pre +:+ w +:+ post)).
      rewrite (IH (Py.is_word c)) by done. apply orb_true_r.
Qed.


Section AddressChecker.
Context `{Env}.
Variable ctx : context.



End AddressChecker.

(** ** The precedence chain and the exception rules *)

Lemma precedence_Str a b c :
  precedence (Str a) (Str b) (Str c)
  = Str (if negb (Py.blank a) then a
         else if negb (Py.blank b) then b
         else if negb (Py.blank c) then c
         else "NON-CINTAS").
Proof.
  unfold precedence, fillna_with, fillna, clean_blank.
  destruct (Py.blank a), (Py.blank b), (Py.blank c); done.
Qed.

Lemma _normalize_loc_code_series_fixed s :
  _normalize_loc_code (Str s) = s → _normalize_loc_code_series (Str s) = s.
Proof. done. Qed.

Lemma rule_matches_ext rule (r r' : row) :
  r !! match_column rule = r' !! match_column rule →
  rule_matches rule r = rule_matches rule r'.
Proof. intros Hr. unfold rule_matches, col. by rewrite Hr. Qed.

Lemma apply_rule_eq cols (r : row) rule :
  apply_rule cols r rule !! set_column rule
  = if bool_decide (match_column rule ∈ cols) && rule_matches rule r
    then Some (Str (value rule))
    else r !! set_column rule.
Proof.
  unfold apply_rule. case_bool_decide as Hc.
  - rewrite decide_True by done. by rewrite set_where_eq.
  - by rewrite decide_False.
Qed.

Lemma rules_separate_cons rule rules :
  rules_separate (rule :: rules) → rules_separate rules.
Proof. intros Hs r1 r2 H1 H2. apply Hs; by right. Qed.

Lemma foldl_apply_rule_matches cols rules (r : row) rule :
  (∀ rule', rule' ∈ rules → match_column rule ≠ set_column rule') →
  rule_matches rule (foldl (apply_rule cols) r rules) = rule_matches rule r.
Proof.
  revert r. induction rules as [|rule0 rules IH]; intros r Hsep; [done|].
  simpl. rewrite IH by (intros; apply Hsep; by right).
  apply rule_matches_ext, apply_rule_frame, Hsep. by left.
Qed.

Lemma foldl_apply_rule_frame cols rules (r : row) c :
  rules_separate rules →
  (∀ rule, rule ∈ rules → set_column rule = c → rule_matches rule r = false) →
  foldl (apply_rule cols) r rules !! c = r !! c.
Proof.
  revert r. induction rules as [|rule0 rules IH]; intros r Hsep Hno; [done|].
  simpl. rewrite IH.
  - destruct (decide (c = set_column rule0)) as [->|Hc].
    + rewrite apply_rule_eq, (Hno rule0) by (done || by left).
      by rewrite andb_false_r.
    + by apply apply_rule_frame.
  - by eapply rules_separate_cons.
  - intros rule Hin Hset.
    rewrite (rule_matches_ext rule _ r).
    + apply Hno; [by right|done].
    + apply apply_rule_frame, Hsep; [by right|by left].
Qed.

Lemma foldl_apply_rule_last cols before rule after (r : row) :
  rules_separate (before ++ rule :: after) →
  match_column rule ∈ cols →
  rule_matches rule r = true →
  (∀ rule', rule' ∈ after → set_column rule' = set_column rule →
            rule_matches rule' r = false) →
  foldl (apply_rule cols) r (before ++ rule :: after) !! set_column rule
  = Some (Str (value rule)).
Proof.
  intros Hsep Hcol Hm Hafter. rewrite foldl_app. simpl.
  set (r1 := foldl (apply_rule cols) r before).
  assert (∀ rule', rule' ∈ rule :: after → rule_matches rule' r1 = rule_matches rule' r)
    as Hinv.
  { intros rule' Hin. apply foldl_apply_rule_matches.
    intros rule'' Hin''. apply Hsep.
    - apply elem_of_app. by right.
    - apply elem_of_app. by left. }
  rewrite foldl_apply_rule_frame.
  - rewrite apply_rule_eq, (bool_decide_eq_true_2 _ Hcol), Hinv by by left.
    by rewrite Hm.
  - intros r1' r2' H1 H2. apply Hsep; apply elem_of_app; right; by right.
  - intros rule' Hin Hset.
    rewrite (rule_matches_ext rule' _ r1).
    + rewrite Hinv by by right. by apply Hafter.
    + apply apply_rule_frame, Hsep.
      * apply elem_of_app. right. by right.
      * apply elem_of_app. right. by left.
Qed.

Lemma EXCEPTION_RULES_separate : rules_separate EXCEPTION_RULES.
Proof.
  assert (Forall (λ rule, Forall (λ rule', match_column rule ≠ set_column rule')
                            EXCEPTION_RULES) EXCEPTION_RULES) as Hall.
  { repeat constructor; done. }
  intros rule rule' Hin Hin'.
  rewrite Forall_forall in Hall. specialize (Hall rule Hin).
  rewrite Forall_forall in Hall. by apply Hall.
Qed.

Lemma EXCEPTION_RULES_canonical rule :
  rule ∈ EXCEPTION_RULES → match_column rule ∈ CANONICAL_COLUMNS.
Proof.
  assert (Forall (λ rule, match_column rule ∈ CANONICAL_COLUMNS) EXCEPTION_RULES) as Hall.
  { repeat constructor; simpl; rewrite !elem_of_cons; tauto. }
  rewrite Forall_forall in Hall. apply Hall.
Qed.

Lemma EXCEPTION_RULES_values rule :
  rule ∈ EXCEPTION_RULES → _normalize_loc_code (Str (value rule)) = value rule.
Proof.
  assert (Forall (λ rule, _normalize_loc_code (Str (value rule)) = value rule)
            EXCEPTION_RULES) as Hall.
  { repeat constructor. }
  rewrite Forall_forall in Hall. apply Hall.
Qed.

Section FinalCodes.
Context `{Env}.
Variable ctx : context.

Lemma final_location_codes_consignor (r : row) :
  final_location_codes r !! "Final Consignor Code"
  = Some (precedence (col r "Extracted Consignor Code")
                     (col r "Org Type Consignor Code")
                     (col r "Addr_Lookup_Consignor_Code")).
Proof.
  unfold final_location_codes. cbv zeta. rewrite set_col_ne by done. apply set_col_eq.
Qed.

Lemma final_location_codes_consignee (r : row) :
  final_location_codes r !! "Final Consignee Code"
  = Some (precedence (col r "Extracted Consignee Code")
                     (col r "Dest Type Consignee Code")
                     (col r "Addr_Lookup_Consignee_Code")).
Proof.
  unfold final_location_codes. cbv zeta. rewrite set_col_eq.
  by rewrite !col_set_col_ne.
Qed.

Lemma normalize_finals_consignor (r : row) :
  normalize_finals r !! "Final Consignor Code"
  = Some (Str (_normalize_loc_code_series (col r "Final Consignor Code"))).
Proof.
  unfold normalize_finals. cbv zeta. rewrite set_col_ne by done. apply set_col_eq.
Qed.

Lemma normalize_finals_consignee (r : row) :
  normalize_finals r !! "Final Consignee Code"
  = Some (Str (_normalize_loc_code_series (col r "Final Consignee Code"))).
Proof.
  unfold normalize_finals. cbv zeta. rewrite set_col_eq.
  by rewrite col_set_col_ne.
Qed.

(** The record when its candidates are settled, before the final codes. *)
Lemma candidates_normalized (r : row) c :
  c ∈ [ "Extracted Consignor Code"; "Org Type Consignor Code"; "Addr_Lookup_Consignor_Code";
        "Extracted Consignee Code"; "Dest Type Consignee Code"; "Addr_Lookup_Consignee_Code" ] →
  ∃ s,
    suite_mississauga_override
      (address_lookup_codes ctx
         (org_dest_type_codes ctx
            (address_checker_rule ctx
               (extract_codes ctx (combined_addresses r))))) !! c = Some (Str s)
    ∧ _normalize_loc_code (Str s) = s.
Proof.
  intros Hc.
  repeat (apply elem_of_cons in Hc as [->|Hc]); [..|by apply elem_of_nil in Hc].
  - rewrite suite_mississauga_override_frame, address_lookup_codes_frame,
      org_dest_type_codes_frame by done.
    rewrite address_checker_rule_consignor.
    destruct (wipe_consignor _ _); [by exists ""|].
    rewrite extract_codes_consignor. eexists. split; [done|].
    apply _normalize_loc_code_of_series.
  - rewrite suite_mississauga_override_frame, address_lookup_codes_frame by done.
    rewrite org_dest_type_codes_consignor. eexists. split; [done|].
    apply _normalize_loc_code_of_series.
  - rewrite suite_mississauga_override_frame by done.
    rewrite address_lookup_codes_consignor. eexists. split; [done|].
    apply _normalize_loc_code_of_series.
  - rewrite suite_mississauga_override_frame, address_lookup_codes_frame,
      org_dest_type_codes_frame by done.
    rewrite address_checker_rule_consignee.
    destruct (wipe_consignee _ _); [by exists ""|].
    rewrite extract_codes_consignee. eexists. split; [done|].
    apply _normalize_loc_code_of_series.
  - rewrite suite_mississauga_override_frame, address_lookup_codes_frame by done.
    rewrite org_dest_type_codes_consignee. eexists. split; [done|].
    apply _normalize_loc_code_of_series.
  - destruct (suite_mississauga_override_consignee
                (address_lookup_codes ctx
                   (org_dest_type_codes ctx
                      (address_checker_rule ctx
                         (extract_codes ctx (combined_addresses r))))))
      as [-> | (code & Hcode & ->)].
    + rewrite address_lookup_codes_consignee. eexists. split; [done|].
      apply _normalize_loc_code_of_series.
    + exists code. split; [done|].
      repeat (apply elem_of_cons in Hcode as [->|Hcode]); [done..|].
      by apply elem_of_nil in Hcode.
Qed.

Lemma precedence_normalized a b c :
  _normalize_loc_code (Str a) = a → _normalize_loc_code (Str b) = b →
  _normalize_loc_code (Str c) = c →
  ∃ s, precedence (Str a) (Str b) (Str c) = Str s ∧ _normalize_loc_code (Str s) = s.
Proof.
  intros Ha Hb Hc. rewrite precedence_Str. eexists. split; [done|].
  destruct (Py.blank a), (Py.blank b), (Py.blank c); simpl; done.
Qed.

(** The stages before the exception rules keep the columns of the sheet
    that the rules read. *)
Lemma stages_keep_canonical (r : row) c :
  c ∈ CANONICAL_COLUMNS →
  normalize_finals
    (final_location_codes
       (suite_mississauga_override
          (address_lookup_codes ctx
             (org_dest_type_codes ctx
                (address_checker_rule ctx
                   (extract_codes ctx (combined_addresses r))))))) !! c = r !! c.
Proof.
  intros Hc.
  repeat (apply elem_of_cons in Hc as [->|Hc]); [..|by apply elem_of_nil in Hc];
    rewrite normalize_finals_frame, final_location_codes_frame,
      suite_mississauga_override_frame, address_lookup_codes_frame,
      org_dest_type_codes_frame, address_checker_rule_frame,
      extract_codes_frame, combined_addresses_frame by done; done.
Qed.

End FinalCodes.

Lemma foldl_apply_rule_other cols rules (r : row) c :
  (∀ rule, rule ∈ rules → set_column rule ≠ c) →
  foldl (apply_rule cols) r rules !! c = r !! c.
Proof.
  revert r. induction rules as [|rule0 rules IH]; intros r Hc; [done|].
  simpl. rewrite IH by (intros; apply Hc; by right).
  apply apply_rule_frame. intros ->. by apply (Hc rule0); [left|].
Qed.

Lemma EXCEPTION_RULES_set_column rule :
  rule ∈ EXCEPTION_RULES →
  set_column rule = "Final Consignor Code" ∨ set_column rule = "Final Consignee Code".
Proof.
  assert (Forall (λ rule, set_column rule = "Final Consignor Code"
                          ∨ set_column rule = "Final Consignee Code")
            EXCEPTION_RULES) as Hall.
  { repeat constructor; simpl; tauto. }
  rewrite Forall_forall in Hall. apply Hall.
Qed.

Section FinalCodeTheorem.
Context `{Env}.
Variable ctx : context.

Lemma exceptions_frame (r : row) c :
  c ≠ "Final Consignor Code" → c ≠ "Final Consignee Code" →
  exceptions ctx r !! c = r !! c.
Proof.
  intros H1 H2. apply foldl_apply_rule_other.
  intros rule [-> | ->]%EXCEPTION_RULES_set_column; done.
Qed.

(** A final code is the normalised text that the exception rules left in
    its column. *)
Lemma resolve_codes_final (r : row) c :
  c = "Final Consignor Code" ∨ c = "Final Consignee Code" →
  resolve_codes ctx r !! c
  = Some (Str (_normalize_loc_code_series
                 (col (exceptions ctx
                         (normalize_finals
                            (final_location_codes
                               (suite_mississauga_override
                                  (address_lookup_codes ctx
                                     (org_dest_type_codes ctx
                                        (address_checker_rule ctx
                                           (extract_codes ctx
                                              (combined_addresses r))))))))) c))).
Proof.
  unfold resolve_codes.
  intros [-> | ->]; [apply normalize_finals_consignor|apply normalize_finals_consignee].
Qed.

Lemma resolve_codes_candidate (r : row) c :
  c ∈ [ "Extracted Consignor Code"; "Org Type Consignor Code"; "Addr_Lookup_Consignor_Code";
        "Extracted Consignee Code"; "Dest Type Consignee Code"; "Addr_Lookup_Consignee_Code" ] →
  ∃ s, resolve_codes ctx r !! c = Some (Str s)
       ∧ suite_mississauga_override
           (address_lookup_codes ctx
              (org_dest_type_codes ctx
                 (address_checker_rule ctx
                    (extract_codes ctx (combined_addresses r))))) !! c = Some (Str s)
       ∧ _normalize_loc_code (Str s) = s.
Proof.
  intros Hc. destruct (candidates_normalized ctx r c Hc) as (s & Hs & Hn).
  exists s. split; [|done].
  rewrite <- Hs. unfold resolve_codes.
  repeat (apply elem_of_cons in Hc as [->|Hc]); [..|by apply elem_of_nil in Hc];
    rewrite normalize_finals_frame, exceptions_frame, normalize_finals_frame,
      final_location_codes_frame by done; done.
Qed.

Lemma no_rule_keeps_precedence (r : row) party_final a b c cand_a cand_b cand_c :
  (party_final = "Final Consignor Code"
   ∧ cand_a = "Extracted Consignor Code"
   ∧ cand_b = "Org Type Consignor Code"
   ∧ cand_c = "Addr_Lookup_Consignor_Code")
  ∨ (party_final = "Final Consignee Code"
     ∧ cand_a = "Extracted Consignee Code"
     ∧ cand_b = "Dest Type Consignee Code"
     ∧ cand_c = "Addr_Lookup_Consignee_Code") →
  resolve_codes ctx r !! cand_a = Some (Str a) →
  resolve_codes ctx r !! cand_b = Some (Str b) →
  resolve_codes ctx r !! cand_c = Some (Str c) →
  (∀ rule, rule ∈ EXCEPTION_RULES → set_column rule = party_final →
           rule_matches rule r = false) →
  resolve_codes ctx r !! party_final
  = Some (Str (if negb (Py.blank a) then a
               else if negb (Py.blank b) then b
               else if negb (Py.blank c) then c
               else "NON-CINTAS")).
Proof.
  intros Hparty Ha Hb Hc Hno.
  set (r6 := suite_mississauga_override
               (address_lookup_codes ctx
                  (org_dest_type_codes ctx
                     (address_checker_rule ctx
                        (extract_codes ctx (combined_addresses r)))))).
  assert (∀ x s, x ∈ [cand_a; cand_b; cand_c] → resolve_codes ctx r !! x = Some (Str s) →
                 r6 !! x = Some (Str s) ∧ _normalize_loc_code (Str s) = s) as Hcand.
  { intros x s Hx Hs.
    destruct (resolve_codes_candidate r x) as (s' & Hs' & Hr6 & Hn).
    { destruct Hparty as [(_ & -> & -> & ->)|(_ & -> & -> & ->)];
        repeat (apply elem_of_cons in Hx as [->|Hx]);
        try (by apply elem_of_nil in Hx); rewrite !elem_of_cons; tauto. }
    rewrite Hs in Hs'. injection Hs' as <-. done. }
  destruct (Hcand cand_a a) as [Ha6 Han]; [rewrite !elem_of_cons; tauto|done|].
  destruct (Hcand cand_b b) as [Hb6 Hbn]; [rewrite !elem_of_cons; tauto|done|].
  destruct (Hcand cand_c c) as [Hc6 Hcn]; [rewrite !elem_of_cons; tauto|done|].
  destruct (precedence_normalized a b c Han Hbn Hcn) as (s & Hs & Hsn).
  rewrite <- precedence_Str, Hs.
  assert (final_location_codes r6 !! party_final = Some (Str s)) as H7.
  { destruct Hparty as [(-> & -> & -> & ->)|(-> & -> & -> & ->)].
    - rewrite final_location_codes_consignor. unfold col. rewrite Ha6, Hb6, Hc6.
      cbn [default from_option id]. by rewrite Hs.
    - rewrite final_location_codes_consignee. unfold col. rewrite Ha6, Hb6, Hc6.
      cbn [default from_option id]. by rewrite Hs. }
  assert (normalize_finals (final_location_codes r6) !! party_final = Some (Str s)) as H8.
  { destruct Hparty as [(-> & _)|(-> & _)].
    - rewrite normalize_finals_consignor. unfold col. rewrite H7. simpl.
      by rewrite (_normalize_loc_code_series_fixed s Hsn).
    - rewrite normalize_finals_consignee. unfold col. rewrite H7. simpl.
      by rewrite (_normalize_loc_code_series_fixed s Hsn). }
  assert (exceptions ctx (normalize_finals (final_location_codes r6)) !! party_final
          = Some (Str s)) as H9.
  { rewrite <- H8. apply foldl_apply_rule_frame; [apply EXCEPTION_RULES_separate|].
    intros rule Hin Hset.
    rewrite (rule_matches_ext rule _ r); [by apply Hno|].
    apply stages_keep_canonical. by apply EXCEPTION_RULES_canonical. }
  rewrite resolve_codes_final by (destruct Hparty as [(-> & _)|(-> & _)]; tauto).
  fold r6. unfold col. rewrite H9. simpl.
  by rewrite (_normalize_loc_code_series_fixed s Hsn).
Qed.

(** C1, amended. For each party the record keeps three texts: the
    extracted code after the address check, the validated type-field code
    and the address-lookup code. When no exception rule written for the
    party's final code matches the record, the final code is the first of
    the three that is not blank, and "NON-CINTAS" when all are blank. When
    such rules match, the final code is the literal of the last one. *)
Theorem final_code_precedence (r : row) :
  (∃ a b c,
     resolve_codes ctx r !! "Extracted Consignor Code" = Some (Str a)
     ∧ resolve_codes ctx r !! "Org Type Consignor Code" = Some (Str b)
     ∧ resolve_codes ctx r !! "Addr_Lookup_Consignor_Code" = Some (Str c)
     ∧ ((∀ rule, rule ∈ EXCEPTION_RULES → set_column rule = "Final Consignor Code" →
                 rule_matches rule r = false) →
        resolve_codes ctx r !! "Final Consignor Code"
        = Some (Str (if negb (Py.blank a) then a
                     else if negb (Py.blank b) then b
                     else if negb (Py.blank c) then c
                     else "NON-CINTAS"))))
  ∧ (∃ a b c,
       resolve_codes ctx r !! "Extracted Consignee Code" = Some (Str a)
       ∧ resolve_codes ctx r !! "Dest Type Consignee Code" = Some (Str b)
       ∧ resolve_codes ctx r !! "Addr_Lookup_Consignee_Code" = Some (Str c)
       ∧ ((∀ rule, rule ∈ EXCEPTION_RULES → set_column rule = "Final Consignee Code" →
                   rule_matches rule r = false) →
          resolve_codes ctx r !! "Final Consignee Code"
          = Some (Str (if negb (Py.blank a) then a
                       else if negb (Py.blank b) then b
                       else if negb (Py.blank c) then c
                       else "NON-CINTAS"))))
  ∧ (∀ before rule after,
       EXCEPTION_RULES = before ++ rule :: after →
       match_column rule ∈ sheet_columns ctx →
       rule_matches rule r = true →
       (∀ rule', rule' ∈ after → set_column rule' = set_column rule →
                 rule_matches rule' r = false) →
       resolve_codes ctx r !! set_column rule = Some (Str (value rule))).
Proof.
  split_and!.
  - destruct (resolve_codes_candidate r "Extracted Consignor Code") as (a & Ha & _);
      [rewrite !elem_of_cons; tauto|].
    destruct (resolve_codes_candidate r "Org Type Consignor Code") as (b & Hb & _);
      [rewrite !elem_of_cons; tauto|].
    destruct (resolve_codes_candidate r "Addr_Lookup_Consignor_Code") as (c & Hc & _);
      [rewrite !elem_of_cons; tauto|].
    exists a, b, c. split_and!; [done..|].
    intros Hno. eapply no_rule_keeps_precedence; [left; done|done..].
  - destruct (resolve_codes_candidate r "Extracted Consignee Code") as (a & Ha & _);
      [rewrite !elem_of_cons; tauto|].
    destruct (resolve_codes_candidate r "Dest Type Consignee Code") as (b & Hb & _);
      [rewrite !elem_of_cons; tauto|].
    destruct (resolve_codes_candidate r "Addr_Lookup_Consignee_Code") as (c & Hc & _);
      [rewrite !elem_of_cons; tauto|].
    exists a, b, c. split_and!; [done..|].
    intros Hno. eapply no_rule_keeps_precedence; [right; done|done..].
  - intros before rule after Hrules Hcol Hm Hafter.
    assert (rule ∈ EXCEPTION_RULES) as Hin.
    { rewrite Hrules. apply elem_of_app. right. by left. }
    assert (∀ rule', rule' ∈ EXCEPTION_RULES →
              rule_matches rule'
                (normalize_finals
                   (final_location_codes
                      (suite_mississauga_override
                         (address_lookup_codes ctx
                            (org_dest_type_codes ctx
                               (address_checker_rule ctx
                                  (extract_codes ctx (combined_addresses r))))))))
              = rule_matches rule' r) as Hsame.
    { intros rule' Hin'. apply rule_matches_ext, stages_keep_canonical.
      by apply EXCEPTION_RULES_canonical. }
    rewrite resolve_codes_final by by apply EXCEPTION_RULES_set_column.
    unfold exceptions, col. rewrite Hrules.
    rewrite foldl_apply_rule_last.
    + simpl. f_equal. f_equal. by apply EXCEPTION_RULES_values.
    + rewrite <- Hrules. apply EXCEPTION_RULES_separate.
    + done.
    + by rewrite Hsame.
    + intros rule' Hin' Hset. rewrite Hsame; [by apply Hafter|].
      rewrite Hrules. apply elem_of_app. right. by right.
Qed.

End FinalCodeTheorem.

(** C1 as the claim states it fails: the extracted code of the consignee
    is present, and the final code is the literal of the exception rule. *)
Lemma final_code_overridden_by_exception :
  @resolve_codes example_env example_context example_valdez_record
     !! "Extracted Consignee Code" = Some (Str "0095")
  ∧ @resolve_codes example_env example_context example_valdez_record
     !! "Final Consignee Code" = Some (Str "0K35").
Proof. split; vm_compute; reflexivity. Qed.

(** C5 as the claim states it fails: the consignor type is "MM" and the
    consignee type, "CA", a tab, "DC", is "CADC" without its whitespace, but
    [replace(" ", "")] keeps the tab and the override is not applied. *)
Lemma manufacturer_to_canadian_dc_override_keeps_tab :
  let r : row :=
    {[ "Final Consignor Type" := Str "MM";
       "Final Consignee Type" := Str ("CA" +:+ String "009" "DC");
       "Final Consignor Code" := Str "0001"; "Final Consignee Code" := Str "0002" ]} in
  Py.upper (Py.strip (str (row_get r "Final Consignor Type" (Str "")))) = "MM"
  ∧ keep_chars (λ c, negb (Py.isspace c))
      (Py.upper (Py.strip (str (row_get r "Final Consignee Type" (Str ""))))) = "CADC"
  ∧ @determine_profit_center example_env r = Some (Str "UNKNOWN")
  ∧ @determine_profit_center example_env r ≠ Some (Str "037Q").
Proof. split_and!; [vm_compute; reflexivity..|vm_compute; discriminate]. Qed.

(** C6 as the claim states it fails: the consignee code is "0K35", the
    consignee type, "US", a tab, "DC", is "USDC" without its whitespace and
    the consignor type is not "LC", but [replace(" ", "")] keeps the tab
    and the rule is not applied. Likewise a consignor type " lc ", which is
    not the text "LC", is "LC" once trimmed and upper-cased, and the rule
    is not applied. *)
Lemma special_code_rule_keeps_tab :
  let r : row :=
    {[ "Final Consignor Type" := Str "DC";
       "Final Consignee Type" := Str ("US" +:+ String "009" "DC");
       "Final Consignor Code" := Str "0001"; "Final Consignee Code" := Str "0K35" ]} in
  let r' : row :=
    {[ "Final Consignor Type" := Str " lc "; "Final Consignee Type" := Str "US DC";
       "Final Consignor Code" := Str "0001"; "Final Consignee Code" := Str "0K35" ]} in
  "0K35" ∈ SPECIAL_CODES
  ∧ keep_chars (λ c, negb (Py.isspace c))
      (Py.upper (Py.strip (str (row_get r "Final Consignee Type" (Str ""))))) = "USDC"
  ∧ row_get r "Final Consignor Type" (Str "") ≠ Str "LC"
  ∧ @determine_profit_center example_env r = Some (Str "UNKNOWN")
  ∧ @determine_profit_center example_env r ≠ Some (Str "0K35")
  ∧ row_get r' "Final Consignor Type" (Str "") ≠ Str "LC"
  ∧ @determine_profit_center example_env r' = Some (Str "UNKNOWN").
Proof.
  split_and!; [vm_compute; tauto|vm_compute; reflexivity|vm_compute; discriminate
              |vm_compute; reflexivity|vm_compute; discriminate|vm_compute; discriminate
              |vm_compute; reflexivity].
Qed.

Lemma manufacturer_to_canadian_dc_override_witness :
  @determine_profit_center example_env
    {[ "Final Consignor Type" := Str "MM"; "Final Consignee Type" := Str "CA DC";
       "Final Consignor Code" := Str "0001"; "Final Consignee Code" := Str "0K35";
       "Carrier Name" := Str "Omnitrans Inc" ]}
  = Some (Str "037Q").
Proof.
  apply (@manufacturer_to_canadian_dc_override example_env); vm_compute; reflexivity.
Defined.

Lemma special_code_rule_witness :
  @determine_profit_center example_env
    {[ "Final Consignor Type" := Str "MM"; "Final Consignee Type" := Str "US DC";
       "Final Consignor Code" := Str "0001"; "Final Consignee Code" := Str "0K35" ]}
  = Some (Str "0K35").
Proof.
  apply (@special_code_rule example_env).
  - vm_compute. intros [_ Hne]. discriminate Hne.
  - vm_compute. reflexivity.
  - vm_compute. reflexivity.
  - left. vm_compute. reflexivity.
  - vm_compute. discriminate.
Defined.

(** * Re-deriving a record *)

Ltac notin := refine (bool_decide_unpack _ _); vm_compute; exact I.

Lemma agree_col skip (r r' : row) c : agree skip r r' → c ∉ skip → col r c = col r' c.
Proof. intros Ha Hc. unfold col. by rewrite (Ha c Hc). Qed.

Lemma agree_row_get skip (r r' : row) c d :
  agree skip r r' → c ∉ skip → row_get r c d = row_get r' c d.
Proof. intros Ha Hc. unfold row_get. by rewrite (Ha c Hc). Qed.

Lemma agree_weaken skip skip' (r r' : row) :
  agree skip r r' → (∀ c, c ∈ skip → c ∈ skip') → agree skip' r r'.
Proof. intros Ha Hs c Hc. apply Ha. intros Hin. by apply Hc, Hs. Qed.

(** Writing the same value to a column on both sides removes it from the
    columns to skip. *)
Lemma agree_set_col skip c f f' (r r' : row) :
  agree (c :: skip) r r' → f r = f' r' → agree skip (set_col c f r) (set_col c f' r').
Proof.
  intros Ha Hf x Hx. destruct (decide (x = c)) as [->|Hne].
  - by rewrite !set_col_eq, Hf.
  - rewrite !set_col_ne by done. apply Ha. by apply not_elem_of_cons.
Qed.

Lemma agree_set_col_same skip c f f' (r r' : row) :
  agree skip r r' → f r = f' r' → agree skip (set_col c f r) (set_col c f' r').
Proof.
  intros Ha Hf x Hx. destruct (decide (x = c)) as [->|Hne].
  - by rewrite !set_col_eq, Hf.
  - rewrite !set_col_ne by done. by apply Ha.
Qed.

Lemma agree_set_where skip mask mask' c v (r r' : row) :
  agree skip r r' → mask r = mask' r' →
  agree skip (set_where mask c v r) (set_where mask' c v r').
Proof.
  intros Ha Hm x Hx. unfold set_where. rewrite Hm.
  destruct (mask' r'); [|by apply Ha].
  destruct (decide (x = c)) as [->|Hne].
  - by rewrite !lookup_insert_eq.
  - rewrite !lookup_insert_ne by done. by apply Ha.
Qed.

Section Rederive.
Context `{Env}.
Variable ctx : context.

Hypothesis picked_not_derived :
  ∀ p, org_type_col ctx = Some p ∨ dest_type_col ctx = Some p → p ∉ DERIVED_COLUMNS.

Lemma combined_addresses_agree (r r' : row) :
  agree DERIVED_COLUMNS r r' →
  agree (drop 2 DERIVED_COLUMNS) (combined_addresses r) (combined_addresses r').
Proof.
  intros Ha. unfold combined_addresses. cbv zeta.
  apply agree_set_col.
  - apply agree_set_col; [done|].
    by rewrite !(agree_col _ r r' _ Ha) by notin.
  - rewrite !col_set_col_ne by done.
    by rewrite !(agree_col _ r r' _ Ha) by notin.
Qed.

Lemma extract_codes_agree (r r' : row) :
  agree (drop 2 DERIVED_COLUMNS) r r' →
  agree (drop 4 DERIVED_COLUMNS) (extract_codes ctx r) (extract_codes ctx r').
Proof.
  intros Ha. unfold extract_codes. cbv zeta.
  apply agree_set_col.
  - apply agree_set_col; [done|].
    by rewrite !(agree_col _ r r' _ Ha) by notin.
  - rewrite !col_set_col_ne by done.
    by rewrite !(agree_col _ r r' _ Ha) by notin.
Qed.

Lemma address_checker_rule_agree (r r' : row) :
  agree (drop 4 DERIVED_COLUMNS) r r' →
  agree (drop 4 DERIVED_COLUMNS) (address_checker_rule ctx r) (address_checker_rule ctx r').
Proof.
  intros Ha. unfold address_checker_rule. cbv zeta.
  apply agree_set_where.
  - apply agree_set_where; [done|].
    unfold wipe_consignor. by rewrite !(agree_col _ r r' _ Ha) by notin.
  - unfold wipe_consignee. by rewrite !(agree_col _ r r' _ Ha) by notin.
Qed.

Lemma org_dest_type_codes_agree (r r' : row) :
  agree (drop 4 DERIVED_COLUMNS) r r' →
  agree (drop 6 DERIVED_COLUMNS) (org_dest_type_codes ctx r) (org_dest_type_codes ctx r').
Proof.
  intros Ha x Hx.
  destruct (decide (x = "Org Type Consignor Code")) as [->|Hor].
  { rewrite !org_dest_type_codes_consignor.
    destruct (org_type_col ctx) as [p|] eqn:Hp; [|done].
    destruct (dest_type_col ctx) as [q|]; [|done].
    rewrite (agree_row_get _ r r' p _ Ha); [done|].
    intros Hin. apply (picked_not_derived p); [by left|].
    by apply (subseteq_drop 4 DERIVED_COLUMNS). }
  destruct (decide (x = "Dest Type Consignee Code")) as [->|Hee].
  { rewrite !org_dest_type_codes_consignee.
    destruct (org_type_col ctx) as [p|]; [|done].
    destruct (dest_type_col ctx) as [q|] eqn:Hq; [|done].
    rewrite (agree_row_get _ r r' q _ Ha); [done|].
    intros Hin. apply (picked_not_derived q); [by right|].
    by apply (subseteq_drop 4 DERIVED_COLUMNS). }
  rewrite !org_dest_type_codes_frame by done. apply Ha.
  intros Hin. apply Hx. simpl in *. rewrite !elem_of_cons in *. tauto.
Qed.

Lemma address_lookup_codes_agree (r r' : row) :
  agree (drop 6 DERIVED_COLUMNS) r r' →
  agree (drop 8 DERIVED_COLUMNS) (address_lookup_codes ctx r) (address_lookup_codes ctx r').
Proof.
  intros Ha. unfold address_lookup_codes. cbv zeta.
  apply agree_set_col.
  - apply agree_set_col; [done|].
    by rewrite !(agree_col _ r r' _ Ha) by notin.
  - rewrite !col_set_col_ne by done.
    by rewrite !(agree_col _ r r' _ Ha) by notin.
Qed.

Lemma suite_mississauga_override_agree (r r' : row) :
  agree (drop 8 DERIVED_COLUMNS) r r' →
  agree (drop 8 DERIVED_COLUMNS)
    (suite_mississauga_override r) (suite_mississauga_override r').
Proof.
  intros Ha. unfold suite_mississauga_override. cbv zeta.
  rewrite !(agree_col _ r r' _ Ha) by notin.
  repeat apply agree_set_where; done.
Qed.

Lemma final_location_codes_agree (r r' : row) :
  agree (drop 8 DERIVED_COLUMNS) r r' →
  agree (drop 10 DERIVED_COLUMNS) (final_location_codes r) (final_location_codes r').
Proof.
  intros Ha. unfold final_location_codes. cbv zeta.
  apply agree_set_col.
  - apply agree_set_col; [done|].
    by rewrite !(agree_col _ r r' _ Ha) by notin.
  - rewrite !col_set_col_ne by done.
    by rewrite !(agree_col _ r r' _ Ha) by notin.
Qed.

Lemma normalize_finals_agree (r r' : row) :
  agree (drop 10 DERIVED_COLUMNS) r r' →
  agree (drop 10 DERIVED_COLUMNS) (normalize_finals r) (normalize_finals r').
Proof.
  intros Ha. unfold normalize_finals. cbv zeta.
  apply agree_set_col_same.
  - apply agree_set_col_same; [done|].
    by rewrite !(agree_col _ r r' _ Ha) by notin.
  - rewrite !col_set_col_ne by done.
    by rewrite !(agree_col _ r r' _ Ha) by notin.
Qed.

Lemma exceptions_agree (r r' : row) :
  agree (drop 10 DERIVED_COLUMNS) r r' →
  agree (drop 10 DERIVED_COLUMNS) (exceptions ctx r) (exceptions ctx r').
Proof.
  unfold exceptions.
  assert (∀ rule, rule ∈ EXCEPTION_RULES →
                  match_column rule ∉ drop 10 DERIVED_COLUMNS) as Hread.
  { intros rule Hin%EXCEPTION_RULES_canonical.
    repeat (apply elem_of_cons in Hin as [->|Hin]); [notin..|].
    by apply elem_of_nil in Hin. }
  revert Hread r r'.
  induction EXCEPTION_RULES as [|rule rules IH]; intros Hread r r' Ha; [done|].
  simpl. apply IH; [intros; apply Hread; by right|].
  unfold apply_rule. destruct (decide _); [|done].
  apply agree_set_where; [done|].
  unfold rule_matches. rewrite (agree_col _ r r' _ Ha); [done|].
  apply Hread. by left.
Qed.

Lemma final_types_agree (r r' : row) :
  agree (drop 10 DERIVED_COLUMNS) r r' →
  agree (drop 12 DERIVED_COLUMNS) (final_types ctx r) (final_types ctx r').
Proof.
  intros Ha. unfold final_types. cbv zeta.
  apply agree_set_col.
  - apply agree_set_col; [done|].
    by rewrite !(agree_col _ r r' _ Ha) by notin.
  - rewrite !col_set_col_ne by done.
    by rewrite !(agree_col _ r r' _ Ha) by notin.
Qed.

Lemma determine_profit_center_agree (r r' : row) :
  agree (drop 12 DERIVED_COLUMNS) r r' →
  determine_profit_center r = determine_profit_center r'.
Proof.
  intros Ha. unfold determine_profit_center, matrix_logic, carrier_is_omnitrans.
  rewrite !(agree_row_get _ r r' _ _ Ha) by notin.
  rewrite !(Ha "Final Consignee Code") by notin.
  rewrite !(Ha "Final Consignor Code") by notin.
  rewrite !(Ha "Final Consignee Type") by notin.
  rewrite !(Ha "Final Consignor Type") by notin.
  done.
Qed.

Lemma resolve_codes_agree (r r' : row) :
  agree DERIVED_COLUMNS r r' →
  agree (drop 10 DERIVED_COLUMNS) (resolve_codes ctx r) (resolve_codes ctx r').
Proof.
  intros Ha. unfold resolve_codes.
  apply normalize_finals_agree, exceptions_agree, normalize_finals_agree,
    final_location_codes_agree, suite_mississauga_override_agree,
    address_lookup_codes_agree, org_dest_type_codes_agree,
    address_checker_rule_agree, extract_codes_agree, combined_addresses_agree, Ha.
Qed.

(** The derived columns of a record depend on its other columns only. *)
Lemma derive_row_agree (r r' : row) :
  agree DERIVED_COLUMNS r r' → derive_row ctx r = derive_row ctx r'.
Proof.
  intros Ha. unfold derive_row, responsible_party.
  pose proof (final_types_agree _ _ (resolve_codes_agree _ _ Ha)) as Ht.
  rewrite (determine_profit_center_agree _ _ Ht).
  destruct (determine_profit_center _) as [rp|]; [|done]. simpl. f_equal.
  apply map_eq. intros c. destruct (decide (c = "Responsible Party")) as [->|Hc].
  - by rewrite !lookup_insert_eq.
  - rewrite !lookup_insert_ne by done. apply Ht.
    simpl. rewrite elem_of_cons. intros [?|Hin]; [done|]. by apply elem_of_nil in Hin.
Qed.

(** The derivation writes derived columns only. *)
Lemma derive_row_frame (r r1 : row) :
  derive_row ctx r = Some r1 → agree DERIVED_COLUMNS r1 r.
Proof.
  unfold derive_row, responsible_party. intros Hd c Hc.
  destruct (determine_profit_center _) as [rp|]; [|done].
  simpl in Hd. injection Hd as <-.
  assert (∀ d, d ∈ DERIVED_COLUMNS → c ≠ d) as Hne by (intros d Hd ->; done).
  rewrite lookup_insert_ne by (symmetry; apply Hne; notin).
  rewrite final_types_frame by (apply Hne; notin).
  unfold resolve_codes.
  rewrite normalize_finals_frame, exceptions_frame, normalize_finals_frame,
    final_location_codes_frame, suite_mississauga_override_frame,
    address_lookup_codes_frame, org_dest_type_codes_frame,
    address_checker_rule_frame, extract_codes_frame, combined_addresses_frame
    by (apply Hne; notin).
  done.
Qed.

Lemma derive_row_total (r : row) : is_Some (derive_row ctx r).
Proof.
  unfold derive_row, responsible_party.
  set (r2 := final_types ctx (resolve_codes ctx r)).
  assert (is_Some (r2 !! "Final Consignor Type")) as [t1 Ht1].
  { unfold r2, final_types. cbv zeta. rewrite set_col_ne by done.
    rewrite set_col_eq. eauto. }
  assert (is_Some (r2 !! "Final Consignee Type")) as [t2 Ht2].
  { unfold r2, final_types. cbv zeta. rewrite set_col_eq. eauto. }
  assert (is_Some (r2 !! "Final Consignor Code")) as [c1 Hc1].
  { unfold r2. rewrite final_types_frame by done.
    rewrite resolve_codes_final by tauto. eauto. }
  assert (is_Some (r2 !! "Final Consignee Code")) as [c2 Hc2].
  { unfold r2. rewrite final_types_frame by done.
    rewrite resolve_codes_final by tauto. eauto. }
  assert (is_Some (matrix_logic r2)) as Hmatrix.
  { unfold matrix_logic. rewrite Ht1, Ht2, Hc1, Hc2. cbn [mbind option_bind].
    destruct (_ ≫= _) as [code|]; [by eexists|].
    destruct (_ ≫= _) as [direction|]; [|by eexists].
    destruct (bool_decide (direction = "ORIGIN")); [by eexists|].
    destruct (bool_decide (direction = "DESTINATION")); by eexists. }
  assert (is_Some (determine_profit_center r2)) as [rp ->]; [|by eexists].
  unfold determine_profit_center.
  destruct (_ && _); [by eexists|].
  rewrite Hc2. cbn [mbind option_bind].
  destruct (_ && _); [by eexists|].
  destruct (negb _); [by eexists|done].
Qed.

End Rederive.

(** * Picked columns *)

Lemma foldl_insert_lookup {V} (m : gmap string V) (l : list (string * V)) k v :
  foldl (λ m kv, <[kv.1 := kv.2]> m) m l !! k = Some v →
  (k, v) ∈ l ∨ m !! k = Some v.
Proof.
  revert m. induction l as [|[k' v'] l IH]; intros m Hl; [by right|].
  simpl in Hl. apply IH in Hl as [Hin|Hm]; [left; by right|].
  destruct (decide (k' = k)) as [->|Hne].
  - rewrite lookup_insert_eq in Hm. injection Hm as ->. left. by left.
  - rewrite lookup_insert_ne in Hm by done. by right.
Qed.

Lemma dict_of_pairs_lookup {V} (l : list (string * V)) k v :
  dict_of_pairs l !! k = Some v → (k, v) ∈ l.
Proof.
  intros [Hin|Hm]%foldl_insert_lookup; [done|]. by rewrite lookup_empty in Hm.
Qed.

Lemma first_some_Some {A B} (f : A → option B) l y :
  first_some f l = Some y → ∃ x, x ∈ l ∧ f x = Some y.
Proof.
  induction l as [|x l IH]; simpl; [done|].
  destruct (f x) as [y'|] eqn:E.
  - intros [= <-]. exists x. split; [by left|done].
  - intros (x' & Hin & Hx')%IH. exists x'. split; [by right|done].
Qed.

(** A picked column is a column of the sheet whose normalised name is the
    normalised name of one of the candidates. *)
Lemma _pick_col_Some cols candidates c :
  _pick_col cols candidates = Some c →
  c ∈ cols ∧ ∃ cand, cand ∈ candidates ∧ _norm_col c = _norm_col cand.
Proof.
  unfold _pick_col. intros (cand & Hcand & Hlook)%first_some_Some.
  apply dict_of_pairs_lookup, list_elem_of_fmap in Hlook as (c' & [= Hn ->] & Hin).
  split; [done|]. by exists cand.
Qed.

Lemma picked_type_column_not_derived refs cols p :
  org_type_col (make_context refs cols) = Some p
  ∨ dest_type_col (make_context refs cols) = Some p →
  p ∉ DERIVED_COLUMNS.
Proof.
  assert (Forall (λ d, Forall (λ cand, _norm_col d ≠ _norm_col cand)
                         (ORG_TYPE_ALIASES ++ DEST_TYPE_ALIASES)) DERIVED_COLUMNS) as Hall.
  { repeat constructor; vm_compute; discriminate. }
  intros Hp Hd. rewrite Forall_forall in Hall. specialize (Hall p Hd).
  rewrite Forall_forall in Hall.
  destruct Hp as [Hp|Hp]; simpl in Hp;
    apply _pick_col_Some in Hp as (_ & cand & Hcand & Hn);
    apply (Hall cand); [apply elem_of_app; by left|done|apply elem_of_app; by right|done].
Qed.

Lemma picked_type_column_not_extracted refs cols p :
  org_type_col (make_context refs cols) = Some p
  ∨ dest_type_col (make_context refs cols) = Some p →
  p ≠ "Extracted Consignor Code" ∧ p ≠ "Extracted Consignee Code".
Proof.
  intros Hp%picked_type_column_not_derived.
  split; intros ->; apply Hp; unfold DERIVED_COLUMNS; rewrite !elem_of_cons; tauto.
Qed.

(** * The labels of the result *)

Lemma elem_of_add_label h c x : x ∈ add_label h c ↔ x ∈ h ∨ x = c.
Proof.
  unfold add_label. destruct (decide (c ∈ h)) as [Hc|Hc].
  - split; [by left|]. intros [?| ->]; done.
  - rewrite elem_of_app, list_elem_of_singleton. done.
Qed.

Lemma elem_of_foldl_add_label h l x : x ∈ foldl add_label h l ↔ x ∈ h ∨ x ∈ l.
Proof.
  revert h. induction l as [|c l IH]; intros h; simpl.
  - rewrite elem_of_nil. tauto.
  - rewrite IH, elem_of_add_label, elem_of_cons. tauto.
Qed.

Lemma elem_of_rename_label old new h x :
  x ∈ rename_label old new h ↔ (x ∈ h ∧ x ≠ old) ∨ (x = new ∧ old ∈ h).
Proof.
  unfold rename_label. rewrite list_elem_of_fmap. split.
  - intros (y & -> & Hy). destruct (decide (y = old)) as [->|Hne]; [by right|by left].
  - intros [[Hx Hne]|[-> Hold]].
    + exists x. by rewrite decide_False.
    + exists old. by rewrite decide_True.
Qed.

Lemma elem_of_reorder h x : x ∈ reorder h ↔ x ∈ h.
Proof.
  unfold reorder. rewrite elem_of_app. split.
  - intros [Hf|Ho].
    + by apply list_elem_of_filter in Hf as [? _].
    + by apply list_elem_of_filter in Ho as [_ ?].
  - intros Hx.
    destruct (decide (x ∈ filter (λ c, c ∈ h) FIRST_COLUMNS)) as [Hf|Hf].
    + by left.
    + right. by apply list_elem_of_filter.
Qed.

Lemma count_label_app c h1 h2 :
  count_label c (h1 ++ h2) = count_label c h1 + count_label c h2.
Proof. unfold count_label. by rewrite filter_app, length_app. Qed.

Lemma count_label_pos c h : c ∈ h → 0 < count_label c h.
Proof.
  unfold count_label. intros Hc.
  assert (c ∈ filter (λ x, x = c) h) as Hf by by apply list_elem_of_filter.
  destruct (filter _ h); [by apply elem_of_nil in Hf|simpl; lia].
Qed.

Lemma count_label_rename_new old new h :
  old ≠ new →
  count_label new (rename_label old new h) = count_label new h + count_label old h.
Proof.
  intros Hne. unfold count_label, rename_label.
  induction h as [|x h IH]; [done|].
  rewrite fmap_cons, !filter_cons.
  repeat case_decide; simplify_eq; simpl; rewrite IH; lia.
Qed.

Lemma count_label_rename_other c old new h :
  c ≠ old → c ≠ new → count_label c (rename_label old new h) = count_label c h.
Proof.
  intros Hold Hnew. unfold count_label, rename_label.
  induction h as [|x h IH]; [done|].
  rewrite fmap_cons, !filter_cons.
  repeat case_decide; simplify_eq; simpl; rewrite IH; lia.
Qed.

Lemma merge_columns_profit (left h : list string) :
  merge_columns left = Ok h →
  (∀ x, x ∈ left → x ∈ h)
  ∧ "ProfitCtr" ∈ h
  ∧ ("ProfitCtr" ∉ left → ∃ before after, h = left ++ before ++ "ProfitCtr" :: after).
Proof.
  unfold merge_columns. destruct (existsb _ _); [done|]. intros [= <-].
  unfold MERGED_COLUMNS. cbn [fmap list_fmap].
  split_and!.
  - intros x Hx. apply elem_of_app. by left.
  - destruct (decide ("ProfitCtr" ∈ left)) as [Hin|Hnot].
    + apply elem_of_app. by left.
    + apply elem_of_app. right. right. by left.
  - intros Hnot. rewrite (decide_False (P := "ProfitCtr" ∈ left)) by done.
    by eexists [_], [_].
Qed.

(** A sheet that [run_pipeline] returned has the column ["Profit Center EJ"]
    and no column ["ProfitCtr"]. *)
Lemma run_pipeline_columns_result cols h :
  run_pipeline_columns cols = Ok h → "Profit Center EJ" ∈ h ∧ "ProfitCtr" ∉ h.
Proof.
  unfold run_pipeline_columns.
  destruct (merge_columns (derived_columns cols)) as [h1|] eqn:Hm; [|done].
  apply merge_columns_profit in Hm as (_ & Hp & _). simpl.
  rewrite (decide_True (P := "ProfitCtr" ∈ h1)) by done.
  set (h2 := rename_label "ProfitCtr" "Profit Center EJ" h1).
  assert ("ProfitCtr" ∉ h2) as H2.
  { unfold h2. rewrite elem_of_rename_label. intros [[_ ?]|[? _]]; done. }
  match goal with |- context [text_column "Profit Center EJ" ?x] => set (h3 := x) end.
  assert ("ProfitCtr" ∉ h3) as H3.
  { unfold h3. repeat case_decide; try done;
      rewrite elem_of_rename_label; intros [[? _]|[? _]]; done. }
  unfold text_column.
  destruct (decide (1 < count_label "Profit Center EJ" h3)); [done|]. simpl.
  destruct (decide (1 < count_label "Cost Center EJ" _)); [done|]. simpl.
  intros [= <-]. rewrite !elem_of_reorder, !elem_of_add_label. split.
  - tauto.
  - intros [[[[?|?]|?]|?]|?]; done.
Qed.

(** [run_pipeline] raises on a sheet that it returned. *)
Lemma run_pipeline_columns_twice cols h :
  run_pipeline_columns cols = Ok h → ∃ e, run_pipeline_columns h = Raise e.
Proof.
  intros [Hej Hctr]%run_pipeline_columns_result.
  unfold run_pipeline_columns.
  assert ("Profit Center EJ" ∈ derived_columns h) as Hej'.
  { unfold derived_columns. rewrite !elem_of_foldl_add_label. tauto. }
  assert ("ProfitCtr" ∉ derived_columns h) as Hctr'.
  { unfold derived_columns. rewrite !elem_of_foldl_add_label.
    assert ("ProfitCtr" ∉ CANONICAL_COLUMNS) by notin.
    assert ("ProfitCtr" ∉ DERIVED_COLUMNS) by notin.
    tauto. }
  generalize dependent (derived_columns h). intros left Hej' Hctr'.
  destruct (merge_columns left) as [h1|e] eqn:Hm; [|by exists e].
  apply merge_columns_profit in Hm as (_ & Hp & Hsplit).
  destruct (Hsplit Hctr') as (before & after & ->). cbn [bind_result].
  rewrite (decide_True (P := "ProfitCtr" ∈ _)) by done.
  set (h2 := rename_label "ProfitCtr" "Profit Center EJ" _).
  assert (1 < count_label "Profit Center EJ" h2) as H2.
  { unfold h2. rewrite count_label_rename_new by done.
    rewrite !count_label_app.
    pose proof (count_label_pos _ _ Hej').
    assert (0 < count_label "ProfitCtr" ("ProfitCtr" :: after)).
    { apply count_label_pos. by left. }
    lia. }
  clearbody h2.
  match goal with |- context [text_column "Profit Center EJ" ?x] => set (h3 := x) end.
  assert (1 < count_label "Profit Center EJ" h3) as H3.
  { unfold h3. repeat case_decide; try done;
      by rewrite count_label_rename_other. }
  clearbody h3.
  unfold text_column. rewrite decide_True by done. by eexists.
Qed.

(** * The sheet *)

Lemma foldl_add_label_present h l :
  (∀ x, x ∈ l → x ∈ h) → foldl add_label h l = h.
Proof.
  revert h. induction l as [|c l IH]; intros h Hl; [done|].
  simpl. assert (add_label h c = h) as ->.
  { unfold add_label. rewrite decide_True; [done|]. apply Hl. by left. }
  apply IH. intros x Hx. apply Hl. by right.
Qed.

Lemma columns_assign c f df : columns (assign c f df) = add_label (columns df) c.
Proof. done. Qed.

Lemma columns_standardize_input_columns df :
  columns (standardize_input_columns df) = foldl add_label (columns df) CANONICAL_COLUMNS.
Proof.
  unfold standardize_input_columns.
  assert (∀ l df0,
            columns (foldl (λ df c, assign c (λ r, Str (as_text (col r c))) df) df0 l)
            = foldl add_label (columns df0) l) as Hsecond.
  { induction l as [|c l IH]; intros df0; [done|]. simpl. by rewrite IH. }
  assert (∀ l df0,
            columns (foldl (λ df fa,
                              match _pick_col (columns df) fa.2 with
                              | Some found => assign fa.1 (λ r, col r found) df
                              | None => assign fa.1 (λ _, Str "") df
                              end) df0 l)
            = foldl add_label (columns df0) l.*1) as Hfirst.
  { induction l as [|fa l IH]; intros df0; [done|]. simpl. rewrite IH.
    by destruct (_pick_col _ _). }
  rewrite Hsecond, Hfirst.
  change (FIELD_ALIASES.*1) with CANONICAL_COLUMNS.
  apply foldl_add_label_present.
  intros x Hx. apply elem_of_foldl_add_label. by right.
Qed.

Section Sheet.
Context `{Env}.

(** On a sheet with a record, or without one of the type-code columns,
    the derivation returns the derived records under the labels that the
    label model starts from. *)
Lemma run_pipeline_derive_returns refs df :
  let ctx := make_context refs (columns (standardize_input_columns df)) in
  rows (standardize_input_columns df) ≠ []
  ∨ org_type_col ctx = None ∨ dest_type_col ctx = None →
  ∃ rows', mapM (derive_row ctx) (rows (standardize_input_columns df)) = Some rows'
           ∧ run_pipeline_derive refs df
             = inr {| columns := derived_columns (columns df); rows := rows' |}.
Proof.
  intros ctx Hrun. unfold run_pipeline_derive, derived_columns. fold ctx. clearbody ctx.
  assert (is_Some (mapM (derive_row ctx) (rows (standardize_input_columns df))))
    as [rows' Hrows].
  { apply mapM_is_Some, Forall_forall. intros r _. apply derive_row_total. }
  exists rows'. split; [exact Hrows|]. rewrite Hrows.
  rewrite columns_standardize_input_columns.
  destruct (rows (standardize_input_columns df)) as [|r0 rs]; [|reflexivity].
  destruct Hrun as [Hne|[-> | ->]]; [by destruct Hne|reflexivity|].
  destruct (org_type_col ctx); reflexivity.
Qed.

(** C9, amended. [run_pipeline] raises on every sheet that it has returned.
    The derivation of one record (the derived columns through
    "Responsible Party") always returns, and applied to a record that it
    has returned it returns that record unchanged, for the type-code
    columns that the pipeline picks are never derived columns. *)
Theorem rerun_raises_and_rederivation_is_stable :
  (∀ cols h, run_pipeline_columns cols = Ok h → ∃ e, run_pipeline_columns h = Raise e)
  ∧ (∀ ctx r, is_Some (derive_row ctx r))
  ∧ (∀ ctx r r1,
       (∀ p, org_type_col ctx = Some p ∨ dest_type_col ctx = Some p →
             p ∉ DERIVED_COLUMNS) →
       derive_row ctx r = Some r1 → derive_row ctx r1 = Some r1)
  ∧ (∀ refs cols p,
       org_type_col (make_context refs cols) = Some p
       ∨ dest_type_col (make_context refs cols) = Some p →
       p ∉ DERIVED_COLUMNS).
Proof.
  split_and!.
  - apply run_pipeline_columns_twice.
  - apply derive_row_total.
  - intros ctx r r1 Hpick Hr. rewrite <- Hr.
    apply derive_row_agree; [done|]. by eapply derive_row_frame.
  - apply picked_type_column_not_derived.
Qed.

End Sheet.

(** C9 as the claim states it fails: the pipeline returns a sheet for the
    canonical columns and raises on that sheet. *)
Lemma run_pipeline_raises_on_its_output :
  run_pipeline_columns CANONICAL_COLUMNS
  = Ok [ "Automation Accuracy"; "Profit Center EJ"; "Cost Center EJ"; "Account # EJ";
         "Consignor"; "Consignee"; "Origin Address"; "Origin City"; "Origin State";
         "Destination Address"; "Destination City"; "Destination State";
         "Consignor_Combined_Address"; "Consignee_Combined_Address";
         "Extracted Consignor Code"; "Extracted Consignee Code";
         "Org Type Consignor Code"; "Dest Type Consignee Code";
         "Addr_Lookup_Consignor_Code"; "Addr_Lookup_Consignee_Code";
         "Final Consignor Code"; "Final Consignee Code";
         "Final Consignor Type"; "Final Consignee Type";
         "Responsible Party"; "Loc Code" ]
  ∧ run_pipeline_columns
      [ "Automation Accuracy"; "Profit Center EJ"; "Cost Center EJ"; "Account # EJ";
        "Consignor"; "Consignee"; "Origin Address"; "Origin City"; "Origin State";
        "Destination Address"; "Destination City"; "Destination State";
        "Consignor_Combined_Address"; "Consignee_Combined_Address";
        "Extracted Consignor Code"; "Extracted Consignee Code";
        "Org Type Consignor Code"; "Dest Type Consignee Code";
        "Addr_Lookup_Consignor_Code"; "Addr_Lookup_Consignee_Code";
        "Final Consignor Code"; "Final Consignee Code";
        "Final Consignor Type"; "Final Consignee Type";
        "Responsible Party"; "Loc Code" ]
    = Raise AttributeError.
Proof. split; vm_compute; reflexivity. Qed.

(** * Further properties of the code normaliser and of the list of codes *)

(** What [format_code_4] returns has four characters or more, is trimmed
    and upper-case, and is all digits exactly when the trimmed input is. *)
Lemma format_code_4_shape v f :
  format_code_4 v = Some f →
  4 ≤ String.length f ∧ Py.strip f = f ∧ Py.upper f = f ∧ f ≠ ""
  ∧ (Py.isdigit (Py.upper (Py.strip (str v))) = true → Py.isdigit f = true ∧ String.length f = 4)
  ∧ (Py.isdigit (Py.upper (Py.strip (str v))) = false → Py.isdigit f = false).
Proof.
  destruct v as [| |s]; [done..|].
  rewrite format_code_4_Str. cbv zeta. simpl str.
  destruct (canon_fixed s) as [Hs Hu].
  set (t := Py.upper (Py.strip s)) in *.
  destruct (Py.is_empty t) eqn:He; [done|]. apply is_empty_false in He.
  destruct (Py.isdigit t) eqn:Hd; intros [= <-].
  - apply isdigit_spec in Hd as [_ Hall].
    pose proof (all_digits_zfill 4 _ Hall) as Hz.
    set (z := Py.zfill 4 t) in *.
    assert (Py.all_chars Py.is_digit (Py.last_chars 4 z) = true) as Hall'
      by by apply all_chars_drop.
    assert (String.length (Py.last_chars 4 z) = 4) as Hlen.
    { rewrite length_last_chars. unfold z. rewrite length_zfill. lia. }
    assert (Py.last_chars 4 z ≠ "") as Hne.
    { intros E. rewrite E in Hlen. done. }
    split_and!; [lia|by apply all_digits_strip|by apply all_digits_upper|done| |done].
    intros _. split; [|done]. apply isdigit_spec. done.
  - destruct (zfill_fixed 4 t Hs Hu) as [Hzs Hzu].
    pose proof (zfill_nonempty 4 t He) as Hne.
    split_and!; [rewrite length_zfill; lia|done..| ].
    intros _. destruct (Py.isdigit (Py.zfill 4 t)) eqn:Hd'; [|done].
    apply isdigit_spec in Hd' as [_ Hall]. apply zfill_all_digits in Hall.
    assert (Py.isdigit t = true) by by apply isdigit_spec. congruence.
Qed.

Lemma format_code_4_fixed v f :
  format_code_4 v = Some f → format_code_4 (Str f) = Some f.
Proof.
  intros Hf. pose proof (format_code_4_shape v f Hf) as (Hlen & Hs & Hu & Hne & Hd & Hnd).
  rewrite format_code_4_Str. cbv zeta. rewrite Hs, Hu.
  apply is_empty_false in Hne. rewrite Hne.
  destruct (Py.isdigit (Py.upper (Py.strip (str v)))) eqn:E.
  - destruct (Hd eq_refl) as [-> Hl4]. f_equal.
    rewrite zfill_ge by lia. apply last_chars_all. lia.
  - rewrite (Hnd eq_refl). f_equal. by apply zfill_ge.
Qed.

(** X1. [format_code_4] is idempotent: formatting the code it returned
    (or the [None] it returned) gives the same result; a code it returns
    has at least four characters and is already trimmed and upper-case. *)
Theorem format_code_4_idempotent v :
  format_code_4 (cell_of (format_code_4 v)) = format_code_4 v
  ∧ ∀ f, format_code_4 v = Some f →
         4 ≤ String.length f ∧ Py.strip f = f ∧ Py.upper f = f.
Proof.
  split.
  - destruct (format_code_4 v) as [f|] eqn:E; [|done]. simpl. by eapply format_code_4_fixed.
  - intros f Hf. destruct (format_code_4_shape v f Hf) as (? & ? & ? & _). done.
Qed.

Lemma validate_code_in_list_eq master_table codes_list code :
  let self := Location_Codes_Finder__init__ master_table codes_list in
  validate_code_in_list self code =
    match format_code_4 code with
    | Some formatted =>
        if decide (formatted ∈ codes_set_4 self) then Some formatted else None
    | None => None
    end.
Proof.
  intros self. unfold validate_code_in_list.
  destruct (format_code_4 code) as [formatted|] eqn:Hf; [|done].
  destruct (decide (formatted ∈ codes_set_4 self)) as [|Hnot]; [done|].
  destruct (decide (Py.upper (Py.strip (str code)) ∈ codes_set_raw self)) as [Hraw|];
    [|done].
  destruct Hnot.
  apply (codes_set_4_of_raw master_table codes_list _ _ Hraw).
  rewrite format_code_4_canon; [done|].
  unfold format_code_4 in Hf. by destruct (isna code).
Qed.

Lemma format_code_4_Some_notna v f : format_code_4 v = Some f → isna v = false.
Proof. unfold format_code_4. by destruct (isna v). Qed.

(** X2. Every code of the list of codes is accepted by
    [validate_code_in_list] in each of its spellings: an input that
    [format_code_4] formats as it formats a member of the list is
    validated to that formatted code (to nothing when the member is
    missing or blank). *)
Theorem listed_code_is_validated master_table codes_list c x :
  c ∈ codes_list →
  format_code_4 x = format_code_4 c →
  validate_code_in_list (Location_Codes_Finder__init__ master_table codes_list) x
  = format_code_4 c.
Proof.
  intros Hc Hx. rewrite validate_code_in_list_eq, Hx.
  destruct (format_code_4 c) as [f|] eqn:Hf; [|done].
  rewrite decide_True; [done|].
  pose proof (format_code_4_Some_notna _ _ Hf) as Hna.
  apply (codes_set_4_of_raw master_table codes_list (Py.upper (Py.strip (str c)))).
  - apply elem_of_codes_set_raw. by exists c.
  - by rewrite format_code_4_canon.
Qed.

Lemma listed_code_is_validated_witness :
  validate_code_in_list
    (Location_Codes_Finder__init__ [] [Str "11k"; NaN; Str "95"]) (Str " 0095 ")
  = Some "0095".
Proof.
  apply (listed_code_is_validated [] [Str "11k"; NaN; Str "95"] (Str "95") (Str " 0095 ")).
  - rewrite !elem_of_cons. tauto.
  - reflexivity.
Defined.

Lemma elem_of_codes_set_4 master_table codes_list f :
  f ∈ codes_set_4 (Location_Codes_Finder__init__ master_table codes_list)
  ↔ ∃ c, c ∈ codes_list ∧ format_code_4 c = Some f.
Proof.
  split.
  - simpl. intros (raw & Hraw & Hf)%elem_of_set_omap.
    apply (elem_of_codes_set_raw master_table codes_list) in Hraw as (c & Hc & Hna & ->).
    exists c. split; [done|]. by rewrite <- format_code_4_canon.
  - intros (c & Hc & Hf).
    pose proof (format_code_4_Some_notna _ _ Hf) as Hna.
    apply (codes_set_4_of_raw master_table codes_list (Py.upper (Py.strip (str c)))).
    + apply elem_of_codes_set_raw. by exists c.
    + by rewrite format_code_4_canon.
Qed.

(** X3. The codes that [validate_code_in_list] can return are exactly
    the members of [codes_set_4]: a text is a member if and only if it is
    validated to itself, every code returned is a member, and validating a
    returned code returns it again. *)
Theorem validate_code_in_list_allowed master_table codes_list :
  let self := Location_Codes_Finder__init__ master_table codes_list in
  (∀ f, f ∈ codes_set_4 self ↔ validate_code_in_list self (Str f) = Some f)
  ∧ (∀ code f, validate_code_in_list self code = Some f → f ∈ codes_set_4 self)
  ∧ (∀ code, validate_code_in_list self (cell_of (validate_code_in_list self code))
             = validate_code_in_list self code).
Proof.
  intros self.
  assert (∀ code f, validate_code_in_list self code = Some f →
                    f ∈ codes_set_4 self ∧ format_code_4 code = Some f) as Hsound.
  { intros code f. unfold self. rewrite validate_code_in_list_eq.
    destruct (format_code_4 code) as [f'|]; [|done].
    case_decide; [|done]. by intros [= <-]. }
  assert (∀ f, f ∈ codes_set_4 self → validate_code_in_list self (Str f) = Some f) as Hmem.
  { intros f Hf. unfold self. rewrite validate_code_in_list_eq.
    apply elem_of_codes_set_4 in Hf as Hc. destruct Hc as (c & _ & Hc).
    rewrite (format_code_4_fixed _ _ Hc). by rewrite decide_True. }
  split_and!.
  - intros f. split; [apply Hmem|]. by intros [? _]%Hsound.
  - intros code f [? _]%Hsound. done.
  - intros code. destruct (validate_code_in_list self code) as [f|] eqn:E; [|done].
    simpl. apply Hmem. by apply Hsound in E as [? _].
Qed.

(** * Further properties of the tokens of [extract_from_text] *)

Lemma rev_app_app s acc t : String.rev_app s acc +:+ t = String.rev_app s (acc +:+ t).
Proof.
  revert acc. induction s as [|c s IH]; intros acc; simpl; [done|].
  by rewrite IH, string_app_cons.
Qed.

Lemma string_rev_cons c s : String.rev (String c s) = String.rev s +:+ String c "".
Proof. unfold String.rev. simpl. by rewrite rev_app_app, string_app_nil_l. Qed.

Lemma string_app_snoc s1 c s2 : (s1 +:+ String c "") +:+ s2 = s1 +:+ String c s2.
Proof. by rewrite string_app_assoc, string_app_cons, string_app_nil_l. Qed.

Lemma all_chars_rev p s : Py.all_chars p (String.rev s) = Py.all_chars p s.
Proof.
  induction s as [|c s IH]; [done|].
  rewrite string_rev_cons, all_chars_app, IH. simpl.
  rewrite andb_true_r. apply andb_comm.
Qed.

Lemma length_string_rev s : String.length (String.rev s) = String.length s.
Proof.
  induction s as [|c s IH]; [done|].
  rewrite string_rev_cons, string_length_app, IH. simpl. lia.
Qed.

Lemma string_rev_nonempty s : s ≠ "" → String.rev s ≠ "".
Proof.
  intros Hs Hr. pose proof (length_string_rev s) as Hl. rewrite Hr in Hl.
  destruct s; [done|]. simpl in Hl. lia.
Qed.

(** The runs of [re.findall(r"[A-Z0-9]+", text)] *)
Lemma alnum_runs_inv cur text tok :
  Py.all_chars is_code_char cur = true →
  tok ∈ alnum_runs cur text →
  tok ≠ "" ∧ Py.all_chars is_code_char tok = true
  ∧ ∃ a b, String.rev cur +:+ text = a +:+ tok +:+ b.
Proof.
  revert cur. induction text as [|c r IH]; intros cur Hcur; simpl.
  - destruct (Py.is_empty cur) eqn:He; [by intros ?%elem_of_nil|].
    intros ->%list_elem_of_singleton. apply is_empty_false in He.
    split_and!; [by apply string_rev_nonempty|by rewrite all_chars_rev|].
    exists "", "". by rewrite string_app_nil_l.
  - destruct (is_code_char c) eqn:Hc.
    + intros Htok. apply IH in Htok as (Hne & Hall & a & b & Hab).
      * split_and!; [done..|]. exists a, b.
        by rewrite <- Hab, string_rev_cons, string_app_snoc.
      * simpl. by rewrite Hc, Hcur.
    + destruct (Py.is_empty cur) eqn:He.
      * apply is_empty_true in He as ->.
        intros Htok. apply IH in Htok as (Hne & Hall & a & b & Hab); [|done].
        split_and!; [done..|]. exists (String c a), b.
        change (String.rev "") with "" in *. rewrite string_app_nil_l in *.
        by rewrite string_app_cons, <- Hab.
      * apply is_empty_false in He.
        intros [->|Htok]%elem_of_cons.
        -- split_and!; [by apply string_rev_nonempty|by rewrite all_chars_rev|].
           exists "", (String c r). by rewrite string_app_nil_l.
        -- apply IH in Htok as (Hne & Hall & a & b & Hab); [|done].
           split_and!; [done..|].
           change (String.rev "") with "" in *. rewrite string_app_nil_l in *.
           exists (String.rev cur +:+ String c a), b.
           by rewrite string_app_assoc, string_app_cons, <- Hab.
Qed.

Lemma code_shape_digits tok :
  Py.all_chars Py.is_digit tok = true → 1 ≤ String.length tok ≤ 4 →
  code_shape (String.rev tok).
Proof.
  intros Hall Hlen. exists (String.rev tok), "".
  rewrite string_app_nil_r, all_chars_rev, length_string_rev. split_and!; simpl; (done || lia).
Qed.

Lemma code_shape_letters ls ds :
  Py.all_chars Py.is_upper ls = true → 1 ≤ String.length ls ≤ 2 →
  Py.all_chars Py.is_digit ds = true → 1 ≤ String.length ds ≤ 4 →
  code_shape (String.rev (ls +:+ ds)).
Proof.
  intros Hl Hll Hd Hdl. exists (String.rev ds), (String.rev ls).
  rewrite !all_chars_rev, !length_string_rev. split_and!; try (done || lia).
  clear. revert ds. induction ls as [|c ls IH]; intros ds.
  - by rewrite string_app_nil_l, string_app_nil_r.
  - rewrite string_app_cons, !string_rev_cons, IH. by rewrite string_app_assoc.
Qed.

Lemma code_shapes_inv st text tok :
  shape_wf st →
  tok ∈ code_shapes st text →
  code_shape tok ∧ ∃ a b, pending st +:+ text = a +:+ tok +:+ b.
Proof.
  assert (∀ p r (a b : string) c, r = a +:+ tok +:+ b →
            p +:+ String c r = (p +:+ String c a) +:+ tok +:+ b) as Hshift.
  { intros p r a b c ->. by rewrite string_app_assoc, string_app_cons. }
  revert st. induction text as [|c r IH]; intros st Hwf.
  - destruct st as [|t n|t]; simpl.
    + by intros ?%elem_of_nil.
    + intros ->%list_elem_of_singleton. destruct Hwf as (Hall & <- & Hn).
      split; [by apply code_shape_digits|]. exists "", "". by rewrite string_app_nil_l.
    + intros ->%list_elem_of_singleton. destruct Hwf as (l & ds & -> & Hl & Hd & Hn).
      split.
      * apply (code_shape_letters (String l "") ds); simpl; try (done || lia).
        by rewrite Hl.
      * exists "", "". by rewrite string_app_nil_l.
  - destruct st as [|t n|t]; simpl.
    + destruct (Py.is_digit c) eqn:Hc.
      * intros Htok. apply IH in Htok as (Hs & a & b & Hab);
          [|simpl; rewrite Hc; split_and!; (done || lia)].
        split; [done|]. exists a, b. rewrite <- Hab. simpl.
        rewrite string_app_nil_l. by rewrite string_rev_cons, string_app_snoc.
      * intros Htok. apply IH in Htok as (Hs & a & b & Hab); [|done].
        split; [done|]. simpl in Hab. rewrite string_app_nil_l in *.
        exists (String c a), b. by rewrite string_app_cons, <- Hab.
    + destruct Hwf as (Hall & <- & Hn).
      destruct (Py.is_digit c) eqn:Hc; [destruct (_ <? 4) eqn:Hlt|
        destruct (Py.is_upper c) eqn:Hu].
      * apply Nat.ltb_lt in Hlt.
        intros Htok. apply IH in Htok as (Hs & a & b & Hab).
        -- split; [done|]. exists a, b. rewrite <- Hab. simpl.
           by rewrite string_rev_cons, string_app_snoc.
        -- simpl. rewrite Hc, Hall. split_and!; (done || lia).
      * intros [->|Htok]%elem_of_cons.
        -- split; [by apply code_shape_digits|]. by exists "", (String c r).
        -- apply IH in Htok as (Hs & a & b & Hab);
             [|simpl; rewrite Hc; split_and!; (done || lia)].
           split; [done|]. simpl in Hab.
           change (String.rev (String c "")) with (String c "") in Hab.
           rewrite string_app_cons, string_app_nil_l in Hab.
           exists (String.rev t +:+ a), b. by rewrite Hab, string_app_assoc.
      * intros Htok. apply IH in Htok as (Hs & a & b & Hab).
        -- split; [done|]. exists a, b. rewrite <- Hab. simpl.
           by rewrite string_rev_cons, string_app_snoc.
        -- simpl. exists c, t. split_and!; (done || lia).
      * intros [->|Htok]%elem_of_cons.
        -- split; [by apply code_shape_digits|]. by exists "", (String c r).
        -- apply IH in Htok as (Hs & a & b & Hab); [|done].
           split; [done|]. simpl in Hab. rewrite string_app_nil_l in Hab.
           by eapply ex_intro, ex_intro, Hshift.
    + destruct Hwf as (l & ds & -> & Hl & Hd & Hn).
      destruct (Py.is_upper c) eqn:Hu; [|destruct (Py.is_digit c) eqn:Hc].
      * intros [->|Htok]%elem_of_cons.
        -- split.
           ++ apply (code_shape_letters (String c (String l "")) ds); simpl;
                try (done || lia). by rewrite Hu, Hl.
           ++ exists "", r. rewrite string_app_nil_l.
              by rewrite (string_rev_cons c), string_app_snoc.
        -- apply IH in Htok as (Hs & a & b & Hab); [|done].
           split; [done|]. simpl in Hab. rewrite string_app_nil_l in Hab.
           by eapply ex_intro, ex_intro, Hshift.
      * intros [->|Htok]%elem_of_cons.
        -- split.
           ++ apply (code_shape_letters (String l "") ds); simpl; try (done || lia).
              by rewrite Hl.
           ++ by exists "", (String c r).
        -- apply IH in Htok as (Hs & a & b & Hab);
             [|simpl; rewrite Hc; split_and!; (done || lia)].
           split; [done|]. simpl in Hab.
           change (String.rev (String c "")) with (String c "") in Hab.
           rewrite string_app_cons, string_app_nil_l in Hab.
           exists (String.rev (String l ds) +:+ a), b. by rewrite Hab, string_app_assoc.
      * intros [->|Htok]%elem_of_cons.
        -- split.
           ++ apply (code_shape_letters (String l "") ds); simpl; try (done || lia).
              by rewrite Hl.
           ++ by exists "", (String c r).
        -- apply IH in Htok as (Hs & a & b & Hab); [|done].
           split; [done|]. simpl in Hab. rewrite string_app_nil_l in Hab.
           by eapply ex_intro, ex_intro, Hshift.
Qed.

(** X4. The tokens that [extract_from_text] tries are pieces of the
    upper-cased text: a run of [re.findall(r"[A-Z0-9]+", text)] is a
    non-empty piece made of capital letters and digits, and a match of
    [re.findall(r"\d{1,4}[A-Z]{0,2}|\d{1,4}", text)] is a piece made of one
    to four digits followed by at most two capital letters. *)
Theorem extract_from_text_tokens text tok :
  (tok ∈ alnum_runs "" text →
   tok ≠ "" ∧ Py.all_chars is_code_char tok = true ∧ Py.contains tok text = true)
  ∧ (tok ∈ code_shapes Idle text → code_shape tok ∧ Py.contains tok text = true).
Proof.
  split.
  - intros (Hne & Hall & a & b & Hab)%alnum_runs_inv; [|done].
    split_and!; [done..|]. apply contains_spec. exists a, b.
    by rewrite <- Hab, string_app_nil_l.
  - intros (Hs & a & b & Hab)%code_shapes_inv; [|done].
    split; [done|]. apply contains_spec. exists a, b.
    by rewrite <- Hab, string_app_nil_l.
Qed.

Lemma elem_of_insert_by_len t l x : x ∈ insert_by_len t l ↔ x = t ∨ x ∈ l.
Proof.
  induction l as [|y l IH]; simpl.
  - rewrite list_elem_of_singleton, elem_of_nil. tauto.
  - destruct (_ <=? _); rewrite !elem_of_cons; [tauto|]. rewrite IH. tauto.
Qed.

Lemma elem_of_sorted_by_len_desc l x : x ∈ sorted_by_len_desc l ↔ x ∈ l.
Proof.
  unfold sorted_by_len_desc. induction l as [|y l IH]; simpl; [done|].
  rewrite elem_of_insert_by_len, IH, elem_of_cons. tauto.
Qed.

Lemma insert_by_len_sorted t l :
  StronglySorted longer_first l → StronglySorted longer_first (insert_by_len t l).
Proof.
  induction 1 as [|y l Hl IH Hy]; simpl.
  - by repeat constructor.
  - destruct (_ <=? _) eqn:E.
    + apply Nat.leb_le in E. constructor; [by constructor|].
      constructor; [done|]. eapply Forall_impl; [exact Hy|].
      unfold longer_first. intros; simpl in *; lia.
    + apply Nat.leb_gt in E. constructor; [done|].
      apply Forall_forall. intros x [->|Hx]%elem_of_insert_by_len.
      * unfold longer_first. lia.
      * rewrite Forall_forall in Hy. by apply Hy.
Qed.

Lemma sorted_by_len_desc_sorted l : StronglySorted longer_first (sorted_by_len_desc l).
Proof.
  unfold sorted_by_len_desc. induction l as [|y l IH]; simpl; [constructor|].
  by apply insert_by_len_sorted.
Qed.

Lemma first_some_None {A B} (f : A → option B) l :
  first_some f l = None ↔ ∀ x, x ∈ l → f x = None.
Proof.
  induction l as [|x l IH]; simpl.
  - split; [|done]. by intros _ x ?%elem_of_nil.
  - destruct (f x) eqn:E.
    + split; [done|]. intros Hall. rewrite <- E. apply Hall. by left.
    + rewrite IH. split.
      * intros Hall x' [->|?]%elem_of_cons; [done|by apply Hall].
      * intros Hall x' Hx'. apply Hall. by right.
Qed.

Lemma first_some_sorted {B} (f : string → option B) l y :
  StronglySorted longer_first l →
  first_some f l = Some y →
  ∃ x, x ∈ l ∧ f x = Some y
       ∧ ∀ x', x' ∈ l → String.length x < String.length x' → f x' = None.
Proof.
  induction 1 as [|x l Hl IH Hx]; simpl; [done|].
  destruct (f x) as [y'|] eqn:E.
  - intros [= ->]. exists x. split_and!; [by left|done|].
    intros x' [->|Hx']%elem_of_cons; [lia|].
    rewrite Forall_forall in Hx. specialize (Hx _ Hx'). unfold longer_first in Hx. lia.
  - intros (x0 & Hin & Hf & Hlong)%IH. exists x0. split_and!; [by right|done|].
    intros x' [->|Hx']%elem_of_cons; [done|by apply Hlong].
Qed.

Section ExtractFromText.
Context `{Env}.

(** X5. [extract_from_text] tries the longest tokens first. For a text
    that is not missing, and a set whose iteration yields its members: when
    it returns a code, the code is the validated form of a token and no
    strictly longer token is valid; when it returns nothing, no token is
    valid. *)
Theorem extract_from_text_longest_valid_token (self : Location_Codes_Finder) (v : cell) :
  (∀ l x, x ∈ set_iteration l ↔ x ∈ l) →
  isna v = false →
  let text := Py.upper (str v) in
  let tokens := alnum_runs "" text ++ code_shapes Idle text in
  match extract_from_text self v with
  | Some code =>
      ∃ tok, tok ∈ tokens
             ∧ validate_code_in_list self (Str tok) = Some code
             ∧ ∀ tok', tok' ∈ tokens → String.length tok < String.length tok' →
                       validate_code_in_list self (Str tok') = None
  | None => ∀ tok, tok ∈ tokens → validate_code_in_list self (Str tok) = None
  end.
Proof.
  intros Hset Hv text tokens. unfold extract_from_text. rewrite Hv.
  fold text. fold tokens.
  assert (∀ x, x ∈ sorted_by_len_desc (set_iteration tokens) ↔ x ∈ tokens) as Hin.
  { intros x. by rewrite elem_of_sorted_by_len_desc, Hset. }
  destruct (first_some _ _) as [code|] eqn:E.
  - apply first_some_sorted in E as (tok & Htok & Hval & Hlong);
      [|apply sorted_by_len_desc_sorted].
    exists tok. split_and!; [by apply Hin|done|].
    intros tok' Htok' Hlen. apply Hlong; [by apply Hin|done].
  - intros tok Htok. rewrite first_some_None in E. apply E. by apply Hin.
Qed.

End ExtractFromText.

Lemma extract_from_text_longest_valid_token_witness :
  @extract_from_text example_env
    (Location_Codes_Finder__init__ [] [Str "95"]) (Str "Cintas 0095 Valdez")
  = Some "0095"
  ∧ match @extract_from_text example_env
            (Location_Codes_Finder__init__ [] [Str "95"]) (Str "Cintas 0095 Valdez") with
    | Some code =>
        ∃ tok, tok ∈ alnum_runs "" (Py.upper (str (Str "Cintas 0095 Valdez")))
                     ++ code_shapes Idle (Py.upper (str (Str "Cintas 0095 Valdez")))
               ∧ validate_code_in_list (Location_Codes_Finder__init__ [] [Str "95"])
                   (Str tok) = Some code
               ∧ ∀ tok', tok' ∈ alnum_runs "" (Py.upper (str (Str "Cintas 0095 Valdez")))
                                ++ code_shapes Idle
                                     (Py.upper (str (Str "Cintas 0095 Valdez"))) →
                         String.length tok < String.length tok' →
                         validate_code_in_list (Location_Codes_Finder__init__ [] [Str "95"])
                           (Str tok') = None
    | None =>
        ∀ tok, tok ∈ alnum_runs "" (Py.upper (str (Str "Cintas 0095 Valdez")))
                     ++ code_shapes Idle (Py.upper (str (Str "Cintas 0095 Valdez"))) →
               validate_code_in_list (Location_Codes_Finder__init__ [] [Str "95"])
                 (Str tok) = None
    end.
Proof.
  split; [vm_compute; reflexivity|].
  apply (@extract_from_text_longest_valid_token example_env
           (Location_Codes_Finder__init__ [] [Str "95"]) (Str "Cintas 0095 Valdez")).
  - intros l x. apply elem_of_remove_dups.
  - reflexivity.
Defined.

(** * Further properties of the address key and of the address index *)

Lemma remove_spaces_app a b :
  Py.remove_spaces (a +:+ b) = Py.remove_spaces a +:+ Py.remove_spaces b.
Proof.
  induction a as [|c a IH]; [by rewrite !string_app_nil_l|].
  rewrite string_app_cons. simpl. case_bool_decide; [done|].
  by rewrite string_app_cons, IH.
Qed.

Lemma remove_spaces_idem s : Py.remove_spaces (Py.remove_spaces s) = Py.remove_spaces s.
Proof.
  induction s as [|c s IH]; [done|]. simpl.
  case_bool_decide as Hc; [done|]. simpl. rewrite bool_decide_false by done. by rewrite IH.
Qed.

Lemma remove_spaces_upper s : Py.remove_spaces (Py.upper s) = Py.upper (Py.remove_spaces s).
Proof.
  unfold Py.upper. induction s as [|c s IH]; [done|]. simpl.
  assert (bool_decide (Py.upper_char c = " "%char) = bool_decide (c = " "%char)) as ->.
  { apply bool_decide_ext. each_char c; split; intros; discriminate. }
  case_bool_decide; [done|]. simpl. by rewrite IH.
Qed.

Lemma remove_spaces_take_word s : Py.remove_spaces (Py.take_word s) = Py.take_word s.
Proof.
  induction s as [|c s IH]; [done|]. simpl.
  destruct (Py.isspace c) eqn:Hc; [done|]. simpl.
  case_bool_decide as Hsp; [apply space_isspace in Hsp; congruence|]. by rewrite IH.
Qed.

Lemma take_word_rstrip s : Py.take_word (Py.rstrip s) = Py.take_word s.
Proof.
  induction s as [|c r IH]; [done|].
  rewrite rstrip_cons. simpl.
  destruct (Py.blank r) eqn:Hb.
  - destruct (Py.isspace c) eqn:Hc; [done|]. simpl. rewrite Hc.
    apply rstrip_empty in Hb. rewrite Hb in IH. by rewrite <- IH.
  - simpl. destruct (Py.isspace c); [done|]. by rewrite IH.
Qed.

(** The first word of a trimmed text that is not empty. *)
Lemma first_word_strip s :
  Py.blank s = false → Py.first_word (Py.strip s) = Some (Py.take_word (Py.lstrip s)).
Proof.
  intros Hb. unfold Py.first_word.
  assert (Py.lstrip (Py.strip s) = Py.strip s) as ->.
  { apply strip_fixed, strip_idem. }
  destruct (Py.strip s) as [|c r] eqn:E.
  - apply strip_empty in E. congruence.
  - rewrite <- E. unfold Py.strip. by rewrite take_word_rstrip.
Qed.

Lemma remove_spaces_empty s : Py.remove_spaces s = "" → Py.blank s = true.
Proof.
  unfold Py.blank. induction s as [|c s IH]; [done|]. simpl.
  case_bool_decide as Hc; [|done]. intros Hs. rewrite (space_isspace _ Hc). by apply IH.
Qed.

Lemma rstrip_remove_spaces t :
  Py.rstrip t = t → Py.rstrip (Py.remove_spaces t) = Py.remove_spaces t.
Proof.
  induction t as [|c r IH]; [done|].
  rewrite rstrip_cons. destruct (Py.blank r) eqn:Hb.
  - destruct (Py.isspace c) eqn:Hc; [done|]. intros [= <-]. simpl.
    case_bool_decide as Hsp; [apply space_isspace in Hsp; congruence|].
    simpl. by rewrite Hc.
  - intros [= Hr]. specialize (IH Hr). simpl.
    case_bool_decide as Hsp; [done|].
    rewrite rstrip_cons, IH.
    destruct (Py.blank (Py.remove_spaces r)) eqn:Hb'; [|done].
    apply rstrip_empty in Hb'. rewrite IH in Hb'. apply remove_spaces_empty in Hb'.
    congruence.
Qed.

Lemma rstrip_app a b : b ≠ "" → Py.rstrip b = b → Py.rstrip (a +:+ b) = a +:+ b.
Proof.
  intros Hne Hb. induction a as [|c a IH]; [by rewrite string_app_nil_l|].
  rewrite string_app_cons, rstrip_cons, IH.
  destruct (Py.blank (a +:+ b)) eqn:Hbl; [|done].
  apply rstrip_empty in Hbl. rewrite IH in Hbl.
  destruct a; [by rewrite string_app_nil_l in Hbl|by rewrite string_app_cons in Hbl].
Qed.

Lemma take_word_lstrip_nonempty s :
  Py.blank s = false →
  ∃ c r, Py.take_word (Py.lstrip s) = String c r ∧ Py.isspace c = false.
Proof.
  intros Hb. destruct (first_word_nonempty (Py.strip s) (Py.take_word (Py.lstrip s)))
    as (c & r & ? & ?); [by apply first_word_strip|eauto].
Qed.

Lemma combine_addr_eq street city state :
  combine_addr street city state =
  if isna street || isna city || isna state
     || Py.blank (str street) || Py.blank (str city) || Py.blank (str state)
  then None
  else Some (address_text street city state).
Proof.
  unfold combine_addr.
  destruct (isna street || isna city || isna state); [done|]. simpl.
  rewrite <- !canon_empty.
  assert (∀ s, Py.is_empty (Py.upper (Py.strip s)) = Py.is_empty (Py.strip s)) as Hu.
  { intros s. by destruct (Py.strip s). }
  rewrite !Hu.
  destruct (Py.is_empty (Py.strip (str street))) eqn:E1; [done|].
  destruct (Py.is_empty (Py.strip (str city))) eqn:E2; [done|].
  destruct (Py.is_empty (Py.strip (str state))) eqn:E3; [done|]. simpl.
  rewrite <- Hu, canon_empty in E1, E2.
  rewrite !first_word_strip by done.
  unfold address_text.
  by rewrite !remove_spaces_app, !remove_spaces_take_word, !upper_app.
Qed.

Lemma combine_addr_fixed street city state k :
  combine_addr street city state = Some k →
  Py.remove_spaces k = k ∧ Py.upper k = k ∧ Py.strip k = k.
Proof.
  rewrite combine_addr_eq.
  destruct (_ || _) eqn:E; [done|]. intros [= <-].
  repeat (apply orb_false_iff in E as [E ?]).
  unfold address_text. split_and!.
  - rewrite !remove_spaces_app, !remove_spaces_upper, !remove_spaces_take_word.
    by rewrite remove_spaces_idem.
  - by rewrite !upper_app, !upper_idem.
  - destruct (take_word_lstrip_nonempty (str street)) as (c & r & Hw & Hc); [done|].
    assert (Py.rstrip (Py.strip (str state)) = Py.strip (str state)) as Hrs.
    { unfold Py.strip. apply rstrip_idem. }
    set (st := Py.upper (Py.remove_spaces (Py.strip (str state)))).
    assert (Py.rstrip st = st) as Hst.
    { unfold st. by rewrite rstrip_upper, rstrip_remove_spaces. }
    assert (st ≠ "") as Hne.
    { intros Hu. assert (Py.blank st = true) as Hbl by by rewrite Hu.
      unfold st in Hbl. rewrite blank_upper in Hbl.
      apply rstrip_empty in Hbl. rewrite rstrip_remove_spaces in Hbl by done.
      apply remove_spaces_empty, strip_empty in Hbl. rewrite strip_idem in Hbl.
      apply strip_empty in Hbl. congruence. }
    clearbody st. unfold Py.strip.
    assert (∀ x, Py.lstrip (Py.upper (Py.take_word (Py.lstrip (str street))) +:+ x)
                 = Py.upper (Py.take_word (Py.lstrip (str street))) +:+ x) as ->.
    { intros x. rewrite Hw. unfold Py.upper. simpl. rewrite string_app_cons. simpl.
      by rewrite isspace_upper_char, Hc. }
    rewrite <- string_app_assoc. by apply rstrip_app.
Qed.

(** X6. [combine_addr] returns nothing exactly when a part is missing or
    blank. The key it returns otherwise is the first word of the street,
    the first word of the city and the state without its spaces, in upper
    case: it is not empty, holds no space and no lower-case letter and is
    trimmed, so that the key normalisation of [extract_from_address]
    leaves it as it is. *)
Theorem combine_addr_key street city state :
  (combine_addr street city state = None
   ↔ isna street = true ∨ isna city = true ∨ isna state = true
     ∨ Py.blank (str street) = true ∨ Py.blank (str city) = true
     ∨ Py.blank (str state) = true)
  ∧ ∀ k, combine_addr street city state = Some k →
         k = Py.upper (Py.take_word (Py.lstrip (str street)))
             +:+ Py.upper (Py.take_word (Py.lstrip (str city)))
             +:+ Py.upper (Py.remove_spaces (Py.strip (str state)))
         ∧ k ≠ ""
         ∧ Py.remove_spaces k = k ∧ Py.upper k = k ∧ Py.strip k = k.
Proof.
  split.
  - rewrite combine_addr_eq. destruct (_ || _) eqn:E.
    + split; [intros _|done].
      repeat (apply orb_true_iff in E as [E|E]); tauto.
    + split; [done|].
      repeat (apply orb_false_iff in E as [E ?]).
      intros [?|[?|[?|[?|[?|?]]]]]; congruence.
  - intros k Hk. split_and!.
    + rewrite combine_addr_eq in Hk. destruct (_ || _); [done|]. by injection Hk as <-.
    + by eapply combine_addr_nonempty.
    + by eapply combine_addr_fixed.
    + by eapply combine_addr_fixed.
    + by eapply combine_addr_fixed.
Qed.



Lemma extract_from_address_Some master_table codes_list a code :
  extract_from_address (Location_Codes_Finder__init__ master_table codes_list) a = Some code →
  isna a = false
  ∧ ∃ r, r ∈ master_table
         ∧ address_key r = Some (Py.strip (Py.upper (Py.remove_spaces (str a))))
         ∧ format_code_4 (Str (str (Loc_Code r))) = Some code.
Proof.
  unfold extract_from_address. destruct (isna a); [done|].
  set (key := Py.strip (Py.upper (Py.remove_spaces (str a)))).
  destruct (Py.is_empty key); [done|].
  destruct (address_to_code _ !! key) as [raw|] eqn:E; [|done].
  intros Hcode. split; [done|].
  simpl in E. apply dict_of_pairs_lookup in E.
  unfold master_pairs in E. apply list_elem_of_omap in E as (r & Hr & Hkc).
  rewrite usable_key_address_key in Hkc.
  destruct (address_key r) as [k|] eqn:Hk; [|done]. simpl in Hkc.
  injection Hkc as -> <-. exists r. split_and!; [done..|].
  by rewrite <- (format_code_4_canon (Str (str (Loc_Code r)))).
Qed.


(** X8. [extract_from_address] returns a code only for an address that
    is not missing and whose key (spaces removed, upper-cased, trimmed) is
    the key of a row of the master table, and the code is the formatted
    code of such a row. *)
Theorem address_lookup_sound master_table codes_list a code :
  extract_from_address (Location_Codes_Finder__init__ master_table codes_list) a = Some code →
  isna a = false
  ∧ ∃ r, r ∈ master_table
         ∧ address_key r = Some (Py.strip (Py.upper (Py.remove_spaces (str a))))
         ∧ format_code_4 (Str (str (Loc_Code r))) = Some code.
Proof. apply extract_from_address_Some. Qed.

Lemma address_lookup_sound_witness :
  isna (Str "100 springfield il") = false
  ∧ ∃ r, r ∈ [MyLocation (Str "100 Main St") (Str "Springfield") (Str "IL") (Str "95")]
         ∧ address_key r
           = Some (Py.strip (Py.upper (Py.remove_spaces (str (Str "100 springfield il")))))
         ∧ format_code_4 (Str (str (Loc_Code r))) = Some "0095".
Proof.
  apply (address_lookup_sound
           [MyLocation (Str "100 Main St") (Str "Springfield") (Str "IL") (Str "95")] []
           (Str "100 springfield il") "0095").
  reflexivity.
Defined.

Lemma _first_nonblank_cons v vals :
  _first_nonblank (v :: vals) =
  if Py.blank (str v) || bool_decide (Py.upper (Py.strip (str v)) ∈ ["NAN"; "NONE"])
  then _first_nonblank vals else Py.strip (str v).
Proof.
  assert (∀ s, _first_nonblank (Str s :: vals) =
               if Py.blank s || bool_decide (Py.upper (Py.strip s) ∈ ["NAN"; "NONE"])
               then _first_nonblank vals else Py.strip s) as Hs.
  { intros s. rewrite <- canon_empty.
    change (_first_nonblank (Str s :: vals))
      with (if negb (Py.is_empty (Py.strip s))
               && negb (bool_decide (Py.upper (Py.strip s) ∈ ["NAN"; "NONE"]))
            then Py.strip s else _first_nonblank vals).
    destruct (Py.strip s); [done|]. simpl. by destruct (bool_decide _). }
  destruct v as [| |s]; [|exact (Hs "nan")|exact (Hs s)].
  simpl str. rewrite <- (Hs "None"). simpl.
  first [done | rewrite bool_decide_eq_true_2; [done|rewrite !elem_of_cons; tauto]].
Qed.

Lemma blank_like_bool v :
  Py.blank (str v) || bool_decide (Py.upper (Py.strip (str v)) ∈ ["NAN"; "NONE"]) = true
  ↔ blank_like v.
Proof. unfold blank_like. by rewrite orb_true_iff, bool_decide_eq_true. Qed.

(** X9. [_first_nonblank] returns the trimmed text of the first value
    that is not passed over, and the empty text exactly when every value
    is passed over. A value is passed over when its text is blank or is
    "nan" or "none" in any case, which covers [None] and NaN. *)
Theorem _first_nonblank_spec vals :
  (_first_nonblank vals = "" ↔ Forall blank_like vals)
  ∧ ∀ before v after,
      vals = before ++ v :: after → Forall blank_like before → ¬ blank_like v →
      _first_nonblank vals = Py.strip (str v).
Proof.
  split.
  - induction vals as [|v vals IH]; [done|].
    rewrite _first_nonblank_cons, Forall_cons, <- IH, <- blank_like_bool.
    destruct (_ || _) eqn:E; [tauto|].
    split; [|intros [? _]; done].
    intros Hs. apply strip_empty in Hs. apply orb_false_iff in E as [E _]. congruence.
  - intros before v after -> Hbefore Hv.
    induction Hbefore as [|u before Hu _ IH]; simpl app; rewrite _first_nonblank_cons.
    + destruct (_ || _) eqn:E; [|done]. by apply blank_like_bool in E.
    + apply blank_like_bool in Hu. by rewrite Hu.
Qed.

(** * Further properties of the responsible party *)

Section MatrixMapperMore.
Context `{Env}.

Lemma matrix_logic_is_Some (r : row) :
  is_Some (r !! "Final Consignor Type") → is_Some (r !! "Final Consignee Type") →
  is_Some (r !! "Final Consignor Code") → is_Some (r !! "Final Consignee Code") →
  is_Some (matrix_logic r).
Proof.
  intros [a Ha] [b Hb] [c Hc] [d Hd]. unfold matrix_logic.
  rewrite Ha, Hb, Hc, Hd. cbn [mbind option_bind].
  destruct (type_key a b ≫= _); [by eexists|].
  destruct (type_key a b ≫= _); [|by eexists].
  repeat case_bool_decide; by eexists.
Qed.

(** X10. [determine_profit_center] raises no [KeyError] on a record that
    has its two final codes and its two final types. On a record without
    the column "Final Consignee Code" it returns "037Q" when the
    manufacturer to Canadian distribution centre override applies and
    raises [KeyError] otherwise. *)
Theorem determine_profit_center_key_error (r : row) :
  let consignor_type :=
    Py.upper (Py.strip (str (row_get r "Final Consignor Type" (Str "")))) in
  let consignee_type_norm :=
    Py.remove_spaces
      (Py.upper (Py.strip (str (row_get r "Final Consignee Type" (Str ""))))) in
  (is_Some (r !! "Final Consignor Type") → is_Some (r !! "Final Consignee Type") →
   is_Some (r !! "Final Consignor Code") → is_Some (r !! "Final Consignee Code") →
   is_Some (determine_profit_center r))
  ∧ (r !! "Final Consignee Code" = None →
     determine_profit_center r =
     if bool_decide (consignor_type = "MM") && bool_decide (consignee_type_norm = "CADC")
     then Some (Str "037Q") else None).
Proof.
  intros consignor_type consignee_type_norm. split.
  - intros Ha Hb Hc [d Hd]. unfold determine_profit_center.
    fold consignor_type consignee_type_norm.
    destruct (_ && _); [by eexists|].
    rewrite Hd. cbn [mbind option_bind].
    destruct (_ && _ && _); [by eexists|].
    match goal with |- context [Py.is_empty ?c] => destruct (Py.is_empty c) end;
      cbn [negb]; [|by eexists].
    apply matrix_logic_is_Some; [done..|]. rewrite Hd. by eexists.
  - intros Hd. unfold determine_profit_center.
    fold consignor_type consignee_type_norm.
    destruct (_ && _); [done|]. by rewrite Hd.
Qed.

(** X11. After the two overrides: for a record that neither the
    manufacturer to Canadian distribution centre override nor the special
    code rule decides, the responsible party of an Omnitrans carrier is the
    first non-blank value among the extracted, address-lookup and
    type-field consignee codes and the final consignor code, when there is
    one; in every other case it is what the special type mappings and the
    coding matrix give. *)
Theorem carrier_rule_then_matrix (r : row) :
  let consignor_type :=
    Py.upper (Py.strip (str (row_get r "Final Consignor Type" (Str "")))) in
  let consignee_type_norm :=
    Py.remove_spaces
      (Py.upper (Py.strip (str (row_get r "Final Consignee Type" (Str ""))))) in
  let candidate :=
    _first_nonblank [ row_get r "Extracted Consignee Code" PyNone;
                      row_get r "Addr_Lookup_Consignee_Code" PyNone;
                      row_get r "Dest Type Consignee Code" PyNone;
                      row_get r "Final Consignor Code" PyNone ] in
  ∀ final_consignee,
  ¬ (consignor_type = "MM" ∧ consignee_type_norm = "CADC") →
  r !! "Final Consignee Code" = Some final_consignee →
  in_SPECIAL_CODES final_consignee
    && bool_decide (consignee_type_norm ∈ ["USDC"; "CADC"])
    && negb (bool_decide (consignor_type = "LC")) = false →
  determine_profit_center r =
  if carrier_is_omnitrans r && negb (Py.is_empty candidate)
  then Some (Str candidate)
  else matrix_logic r.
Proof.
  intros consignor_type consignee_type_norm candidate final_consignee Hnot Hcode Hspecial.
  unfold determine_profit_center. fold consignor_type consignee_type_norm.
  assert (bool_decide (consignor_type = "MM")
          && bool_decide (consignee_type_norm = "CADC") = false) as ->.
  { apply andb_false_iff.
    destruct (decide (consignor_type = "MM")) as [Hmm|Hmm];
      [right|left]; apply bool_decide_eq_false; [|done].
    intros Hca. by apply Hnot. }
  rewrite Hcode. cbn [mbind option_bind]. rewrite Hspecial.
  destruct (carrier_is_omnitrans r); [|done].
  fold candidate. by destruct (Py.is_empty candidate).
Qed.

End MatrixMapperMore.

Lemma carrier_rule_then_matrix_witness :
  @determine_profit_center example_env
    {[ "Final Consignor Type" := Str "LC"; "Final Consignee Type" := Str "US DC";
       "Final Consignor Code" := Str "0001"; "Final Consignee Code" := Str "0002";
       "Extracted Consignee Code" := Str ""; "Addr_Lookup_Consignee_Code" := Str " 0042 ";
       "Carrier Name" := Str "Omnitrans Logistics" ]}
  = Some (Str "0042").
Proof.
  rewrite (@carrier_rule_then_matrix example_env _ (Str "0002")).
  - vm_compute. reflexivity.
  - vm_compute. intros [Hmm _]. discriminate Hmm.
  - vm_compute. reflexivity.
  - vm_compute. reflexivity.
Defined.

(** * Further properties of the final codes *)

Lemma precedence_not_blank a b c :
  ∃ s, precedence (Str a) (Str b) (Str c) = Str s ∧ Py.blank s = false.
Proof.
  rewrite precedence_Str. eexists. split; [done|].
  destruct (Py.blank a) eqn:Ha, (Py.blank b) eqn:Hb, (Py.blank c) eqn:Hc; simpl; done.
Qed.

Lemma EXCEPTION_RULES_not_blank rule :
  rule ∈ EXCEPTION_RULES → Py.blank (value rule) = false.
Proof.
  assert (Forall (λ rule, Py.blank (value rule) = false) EXCEPTION_RULES) as Hall.
  { repeat constructor. }
  rewrite Forall_forall in Hall. apply Hall.
Qed.

(** A property of the text of a column that every literal of the rules
    has is kept by the rules. *)
Lemma foldl_apply_rule_invariant (P : string → Prop) cols rules (r : row) c s :
  (∀ rule, rule ∈ rules → P (value rule)) →
  r !! c = Some (Str s) → P s →
  ∃ s', foldl (apply_rule cols) r rules !! c = Some (Str s') ∧ P s'.
Proof.
  revert r s. induction rules as [|rule rules IH]; intros r s Hrules Hr Hs; [eauto|].
  simpl.
  assert (∃ s1, apply_rule cols r rule !! c = Some (Str s1) ∧ P s1) as (s1 & H1 & HP1).
  { destruct (decide (c = set_column rule)) as [->|Hne].
    - rewrite apply_rule_eq. destruct (_ && _); [|eauto].
      eexists. split; [done|]. apply Hrules. by left.
    - rewrite apply_rule_frame by done. eauto. }
  eapply IH; [|done..]. intros rule' Hin. apply Hrules. by right.
Qed.

Lemma set_col_id c f (r : row) : r !! c = Some (f r) → set_col c f r = r.
Proof. intros Hr. unfold set_col. by apply insert_id. Qed.

Lemma normalize_finals_id (r : row) a b :
  r !! "Final Consignor Code" = Some (Str a) → _normalize_loc_code (Str a) = a →
  r !! "Final Consignee Code" = Some (Str b) → _normalize_loc_code (Str b) = b →
  normalize_finals r = r.
Proof.
  intros Ha Hna Hb Hnb. unfold normalize_finals. cbv zeta.
  rewrite (set_col_id "Final Consignor Code").
  - apply set_col_id. unfold col. rewrite Hb. simpl.
    by rewrite (_normalize_loc_code_series_fixed b Hnb).
  - unfold col. rewrite Ha. simpl. by rewrite (_normalize_loc_code_series_fixed a Hna).
Qed.

Section FinalCodesMore.
Context `{Env}.
Variable ctx : context.

Lemma resolve_codes_candidates_of (r : row) :
  resolve_codes ctx r
  = normalize_finals
      (exceptions ctx (normalize_finals (final_location_codes (candidates_of ctx r)))).
Proof. unfold resolve_codes, candidates_of. reflexivity. Qed.

Lemma final_location_codes_normal (r : row) c :
  c = "Final Consignor Code" ∨ c = "Final Consignee Code" →
  ∃ s, final_location_codes (candidates_of ctx r) !! c = Some (Str s)
       ∧ _normalize_loc_code (Str s) = s ∧ Py.blank s = false.
Proof.
  assert (∀ x, x ∈ [ "Extracted Consignor Code"; "Org Type Consignor Code";
                     "Addr_Lookup_Consignor_Code"; "Extracted Consignee Code";
                     "Dest Type Consignee Code"; "Addr_Lookup_Consignee_Code" ] →
               ∃ s, col (candidates_of ctx r) x = Str s ∧ _normalize_loc_code (Str s) = s)
    as Hcand.
  { intros x Hx. destruct (candidates_normalized ctx r x Hx) as (s & Hs & Hn).
    exists s. split; [|done]. unfold col, candidates_of. by rewrite Hs. }
  intros [-> | ->].
  - rewrite final_location_codes_consignor.
    destruct (Hcand "Extracted Consignor Code") as (a & -> & Ha);
      [rewrite !elem_of_cons; tauto|].
    destruct (Hcand "Org Type Consignor Code") as (b & -> & Hb);
      [rewrite !elem_of_cons; tauto|].
    destruct (Hcand "Addr_Lookup_Consignor_Code") as (c & -> & Hc);
      [rewrite !elem_of_cons; tauto|].
    destruct (precedence_normalized a b c Ha Hb Hc) as (s & Hs & Hn).
    destruct (precedence_not_blank a b c) as (s' & Hs' & Hbl).
    exists s. rewrite Hs. split_and!; [done..|]. congruence.
  - rewrite final_location_codes_consignee.
    destruct (Hcand "Extracted Consignee Code") as (a & -> & Ha);
      [rewrite !elem_of_cons; tauto|].
    destruct (Hcand "Dest Type Consignee Code") as (b & -> & Hb);
      [rewrite !elem_of_cons; tauto|].
    destruct (Hcand "Addr_Lookup_Consignee_Code") as (c & -> & Hc);
      [rewrite !elem_of_cons; tauto|].
    destruct (precedence_normalized a b c Ha Hb Hc) as (s & Hs & Hn).
    destruct (precedence_not_blank a b c) as (s' & Hs' & Hbl).
    exists s. rewrite Hs. split_and!; [done..|]. congruence.
Qed.

Lemma normalize_finals_after_precedence (r : row) :
  normalize_finals (final_location_codes (candidates_of ctx r))
  = final_location_codes (candidates_of ctx r).
Proof.
  destruct (final_location_codes_normal r "Final Consignor Code") as (a & Ha & Hna & _);
    [tauto|].
  destruct (final_location_codes_normal r "Final Consignee Code") as (b & Hb & Hnb & _);
    [tauto|].
  by eapply normalize_finals_id.
Qed.

Lemma exceptions_normal (r : row) c :
  c = "Final Consignor Code" ∨ c = "Final Consignee Code" →
  ∃ s, exceptions ctx (final_location_codes (candidates_of ctx r)) !! c = Some (Str s)
       ∧ _normalize_loc_code (Str s) = s ∧ Py.blank s = false.
Proof.
  intros Hc. destruct (final_location_codes_normal r c Hc) as (s & Hs & Hn & Hb).
  destruct (foldl_apply_rule_invariant
              (λ s, _normalize_loc_code (Str s) = s ∧ Py.blank s = false)
              (sheet_columns ctx) EXCEPTION_RULES
              (final_location_codes (candidates_of ctx r)) c s) as (s' & Hs' & Hn' & Hb');
    [|done|done|by exists s'].
  intros rule Hin. split; [by apply EXCEPTION_RULES_values|by apply EXCEPTION_RULES_not_blank].
Qed.

Lemma normalize_finals_after_exceptions (r : row) :
  normalize_finals (exceptions ctx (final_location_codes (candidates_of ctx r)))
  = exceptions ctx (final_location_codes (candidates_of ctx r)).
Proof.
  destruct (exceptions_normal r "Final Consignor Code") as (a & Ha & Hna & _); [tauto|].
  destruct (exceptions_normal r "Final Consignee Code") as (b & Hb & Hnb & _); [tauto|].
  by eapply normalize_finals_id.
Qed.

Lemma resolve_codes_exceptions (r : row) :
  resolve_codes ctx r = exceptions ctx (final_location_codes (candidates_of ctx r)).
Proof.
  rewrite resolve_codes_candidates_of, normalize_finals_after_precedence.
  apply normalize_finals_after_exceptions.
Qed.

(** X12. The two re-normalisations of the final codes in [run_pipeline]
    change nothing: the final codes that the precedence chain gives are
    already normalised, and so are those that the exception rules leave.
    The record with its final codes is the record that the exception
    rules return. *)
Theorem normalize_finals_changes_nothing (r : row) :
  normalize_finals (final_location_codes (candidates_of ctx r))
  = final_location_codes (candidates_of ctx r)
  ∧ normalize_finals (exceptions ctx (final_location_codes (candidates_of ctx r)))
    = exceptions ctx (final_location_codes (candidates_of ctx r))
  ∧ resolve_codes ctx r = exceptions ctx (final_location_codes (candidates_of ctx r)).
Proof.
  split_and!.
  - apply normalize_finals_after_precedence.
  - apply normalize_finals_after_exceptions.
  - apply resolve_codes_exceptions.
Qed.

(** X13. A final code is never missing and never blank, and it is a
    fixed point of [_normalize_loc_code]. *)
Theorem final_codes_never_blank (r : row) :
  (∃ s, resolve_codes ctx r !! "Final Consignor Code" = Some (Str s)
        ∧ Py.blank s = false ∧ _normalize_loc_code (Str s) = s)
  ∧ (∃ s, resolve_codes ctx r !! "Final Consignee Code" = Some (Str s)
          ∧ Py.blank s = false ∧ _normalize_loc_code (Str s) = s).
Proof.
  rewrite resolve_codes_exceptions. split.
  - destruct (exceptions_normal r "Final Consignor Code") as (s & ? & ? & ?); [tauto|].
    by exists s.
  - destruct (exceptions_normal r "Final Consignee Code") as (s & ? & ? & ?); [tauto|].
    by exists s.
Qed.

End FinalCodesMore.

(** ** The exception rules on a standardised sheet *)

(** X14. In [run_pipeline] the exception loop skips no rule: the column
    that a rule matches on is a canonical column, which the standardised
    sheet always has, so every rule sets its literal where it matches. *)
Theorem exception_rules_always_apply refs (df : frame) :
  let ctx := make_context refs (columns (standardize_input_columns df)) in
  Forall (λ rule, ∀ r : row,
            apply_rule (sheet_columns ctx) r rule
            = set_where (rule_matches rule) (set_column rule) (Str (value rule)) r)
         EXCEPTION_RULES.
Proof.
  intros ctx. apply Forall_forall. intros rule Hrule r.
  unfold apply_rule. rewrite decide_True; [done|].
  unfold ctx. cbn [make_context sheet_columns].
  rewrite columns_standardize_input_columns, elem_of_foldl_add_label.
  left. rewrite elem_of_foldl_add_label. right. by apply EXCEPTION_RULES_canonical.
Qed.

(** ** The Mississauga override *)

Lemma startswith_head a p c s : Py.startswith (String a p) (String c s) = true → c = a.
Proof. simpl. intros [Hc _]%andb_true_iff. by apply bool_decide_eq_true in Hc. Qed.

Lemma startswith_any_head ps c s :
  startswith_any ps (String c s) = true →
  Exists (λ p, match p with String a _ => c = a | EmptyString => True end) ps.
Proof.
  unfold startswith_any. intros (p & Hp & Hs)%existsb_exists.
  apply Exists_exists. exists p. split; [by apply list_elem_of_In|].
  destruct p as [|a p]; [done|]. by eapply startswith_head.
Qed.

Lemma startswith_any_empty ps :
  Forall (λ p, p ≠ "") ps → startswith_any ps "" = false.
Proof.
  intros Hps. unfold startswith_any. apply not_true_iff_false.
  intros (p & Hp & Hs)%existsb_exists. apply list_elem_of_In in Hp.
  rewrite Forall_forall in Hps. specialize (Hps p Hp). by destruct p.
Qed.

Lemma mississauga_groups_exclusive txt :
  let g1 := startswith_any ["LNK"; "AMERICAN METAL CRAFTERS"; "RADIANS"; "EVER READY"] txt in
  let g2 := startswith_any ["VECTAIR"; "ZEP"] txt in
  let g3 := startswith_any ["CHEMFREE"; "BERRY GLOBAL"] txt in
  (g1 = true → g2 = false ∧ g3 = false) ∧ (g2 = true → g3 = false).
Proof.
  intros g1 g2 g3. destruct txt as [|c s].
  { unfold g1, g2, g3. rewrite !startswith_any_empty by (repeat constructor; done). done. }
  assert (∀ ps qs,
            Forall (λ p, Forall (λ q, match p, q with
                                      | String a _, String b _ => a ≠ b
                                      | _, _ => False
                                      end) qs) ps →
            startswith_any ps (String c s) = true →
            startswith_any qs (String c s) = false) as Hex.
  { intros ps qs Hdis Hp. apply not_true_iff_false. intros Hq.
    apply startswith_any_head, Exists_exists in Hp as (p & Hp & Hpc).
    apply startswith_any_head, Exists_exists in Hq as (q & Hq & Hqc).
    rewrite Forall_forall in Hdis. specialize (Hdis p Hp).
    rewrite Forall_forall in Hdis. specialize (Hdis q Hq).
    destruct p, q; try done. congruence. }
  split; [intros H1; split|intros H2]; (eapply Hex; [|eassumption]);
    repeat constructor; discriminate.
Qed.

(** X15. The Mississauga override: a consignor name begins with a prefix
    of at most one of the three groups, so the three assignments never
    compete; the address-lookup code of the consignee becomes the literal
    of the group when the combined address of the consignee begins with
    SUITEMISSISSAUGAON, and stays as it was otherwise. No other column is
    written. *)
Theorem suite_mississauga_override_cases (r : row) :
  let consignee_combo := Py.upper (as_text (col r "Consignee_Combined_Address")) in
  let consignor_txt := Py.strip (Py.upper (as_text (col r "Consignor"))) in
  let g097H :=
    startswith_any ["LNK"; "AMERICAN METAL CRAFTERS"; "RADIANS"; "EVER READY"] consignor_txt in
  let g067N := startswith_any ["VECTAIR"; "ZEP"] consignor_txt in
  let g0897 := startswith_any ["CHEMFREE"; "BERRY GLOBAL"] consignor_txt in
  suite_mississauga_override r !! "Addr_Lookup_Consignee_Code"
  = (if Py.startswith "SUITEMISSISSAUGAON" consignee_combo
     then if g097H then Some (Str "097H")
          else if g067N then Some (Str "067N")
          else if g0897 then Some (Str "0897")
          else r !! "Addr_Lookup_Consignee_Code"
     else r !! "Addr_Lookup_Consignee_Code")
  ∧ (g097H = true → g067N = false ∧ g0897 = false)
  ∧ (g067N = true → g0897 = false)
  ∧ ∀ c, c ≠ "Addr_Lookup_Consignee_Code" → suite_mississauga_override r !! c = r !! c.
Proof.
  intros consignee_combo consignor_txt g097H g067N g0897.
  destruct (mississauga_groups_exclusive consignor_txt) as [H1 H2].
  split_and!; [|exact H1|exact H2|apply suite_mississauga_override_frame].
  unfold suite_mississauga_override. cbv zeta.
  rewrite !set_where_eq. cbv beta.
  fold consignee_combo consignor_txt. fold g097H g067N g0897.
  destruct (Py.startswith "SUITEMISSISSAUGAON" consignee_combo); cbn [andb]; [|done].
  fold g097H g067N g0897 in H1, H2. clearbody g097H g067N g0897.
  destruct g097H.
  { destruct (H1 eq_refl) as [-> ->]. done. }
  destruct g067N.
  { rewrite (H2 eq_refl). done. }
  by destruct g0897.
Qed.

(** ** Final types *)

Lemma upper__normalize_loc_code s :
  Py.upper (_normalize_loc_code (Str s)) = _normalize_loc_code (Str s).
Proof.
  rewrite _normalize_loc_code_Str. cbv zeta.
  destruct (Py.is_empty _); [done|].
  destruct (Py.isdigit _) eqn:Hd.
  - apply isdigit_spec in Hd as [_ Hall]. apply all_digits_upper. by apply all_digits_zfill.
  - apply upper_idem.
Qed.

Lemma upper__normalize_loc_code_series v :
  Py.upper (_normalize_loc_code_series v) = _normalize_loc_code_series v.
Proof. apply upper__normalize_loc_code. Qed.

(** The key of a row of the master location table in [master_code_to_type]. *)
Lemma master_code_to_type_key m :
  Py.upper (str (Str (_normalize_loc_code_series
                        (Str (_normalize_loc_code_series (ML_Loc_Code m))))))
  = _normalize_loc_code_series (ML_Loc_Code m).
Proof.
  simpl str. rewrite upper__normalize_loc_code_series.
  apply _normalize_loc_code_series_idem.
Qed.

Lemma master_code_to_type_keys master_loc :
  ((λ m, (Py.upper
            (str (Str (_normalize_loc_code_series
                         (Str (_normalize_loc_code_series (ML_Loc_Code m)))))),
          master_type (Type_Code m))) <$> master_loc).*1
  = (λ m, _normalize_loc_code_series (ML_Loc_Code m)) <$> master_loc.
Proof.
  induction master_loc as [|m l IH]; [done|].
  rewrite !fmap_cons, IH. cbn [fst]. by rewrite master_code_to_type_key.
Qed.

(** X16. The final type of a code. The normalised code of a row of the
    master location table has the type of the last row with that
    normalised code: its text in upper case, or "NON-CINTAS" when the type
    of that row is missing ([None] or NaN) or is the text "nan" in any
    case; a code that no row has is "NON-CINTAS"; a final type is never a
    missing value. *)
Theorem final_type_of_master_code refs cols :
  let ctx := make_context refs cols in
  (∀ before m after,
     cintas_master_data_2 refs = before ++ m :: after →
     (∀ m', m' ∈ after →
            _normalize_loc_code_series (ML_Loc_Code m')
            ≠ _normalize_loc_code_series (ML_Loc_Code m)) →
     type_of_code ctx (Str (_normalize_loc_code_series (ML_Loc_Code m)))
     = match Type_Code m with
       | Str t => if bool_decide (Py.upper t = "NAN") then Str "NON-CINTAS"
                  else Str (Py.upper t)
       | PyNone | NaN => Str "NON-CINTAS"
       end)
  ∧ (∀ code,
       (∀ m, m ∈ cintas_master_data_2 refs →
             _normalize_loc_code_series (ML_Loc_Code m) ≠ Py.upper code) →
       type_of_code ctx (Str code) = Str "NON-CINTAS")
  ∧ (∀ v, ∃ t, type_of_code ctx v = Str t).
Proof.
  intros ctx.
  assert (code_to_type ctx = master_code_to_type (cintas_master_data_2 refs)) as Hctx
    by reflexivity.
  split_and!.
  - intros before m after Hrefs Hafter. unfold type_of_code. rewrite Hctx, Hrefs.
    simpl str. rewrite upper__normalize_loc_code_series.
    unfold master_code_to_type. rewrite fmap_app, fmap_cons.
    rewrite master_code_to_type_key.
    rewrite dict_of_pairs_last.
    + destruct (Type_Code m) as [| |t]; simpl; [done..|]. by destruct (bool_decide _).
    + rewrite master_code_to_type_keys. intros (m' & Hk & Hm')%list_elem_of_fmap.
      by apply (Hafter m').
  - intros code Hno. unfold type_of_code. rewrite Hctx. simpl str.
    unfold master_code_to_type. rewrite dict_of_pairs_absent; [done|].
    rewrite master_code_to_type_keys. intros (m & Hk & Hm)%list_elem_of_fmap.
    by apply (Hno m).
  - intros v. unfold type_of_code.
    destruct (default NaN _) as [| |t]; simpl; eauto.
Qed.

(** ** What the address checker keeps *)

Section AddressCheckerMore.
Context `{Env}.
Variable ctx : context.

Lemma address_checker_rule_keeps_party (r : row) name code address :
  (name = "Consignor" ∧ code = "Extracted Consignor Code"
   ∧ address = "Consignor_Combined_Address")
  ∨ (name = "Consignee" ∧ code = "Extracted Consignee Code"
     ∧ address = "Consignee_Combined_Address") →
  (∃ pre w post,
     Py.upper (as_text (col r name)) = pre +:+ w +:+ post
     ∧ w ∈ ["CINTAS"; "MAT"]
     ∧ ends_in_word_char false pre = false
     ∧ ∀ c s, post = String c s → Py.is_word c = false)
  ∨ as_text (col r address) ∈ combined_set ctx
  ∨ has_code (col r code) = false →
  address_checker_rule ctx r !! code = r !! code.
Proof.
  intros Hparty Hkeep.
  assert (mentions_cintas_or_mat (Py.upper (as_text (col r name))) = true
          ∨ as_text (col r address) ∈ combined_set ctx
          ∨ has_code (col r code) = false) as Hkeep'.
  { destruct Hkeep as [Hword|[?|?]]; [left|tauto..].
    unfold mentions_cintas_or_mat. by apply search_words_spec. }
  clear Hkeep.
  destruct Hparty as [(-> & -> & ->)|(-> & -> & ->)].
  - rewrite address_checker_rule_consignor.
    assert (wipe_consignor ctx r = false) as ->; [|done].
    unfold wipe_consignor, no_cintas_or_mat, addr_ok.
    destruct Hkeep' as [->|[Hin| ->]]; [by rewrite andb_false_r| |done].
    rewrite (bool_decide_eq_true_2 _ Hin). simpl. by rewrite andb_false_r.
  - rewrite address_checker_rule_consignee.
    assert (wipe_consignee ctx r = false) as ->; [|done].
    unfold wipe_consignee, no_cintas_or_mat, addr_ok.
    destruct Hkeep' as [->|[Hin| ->]]; [by rewrite andb_false_r| |done].
    rewrite (bool_decide_eq_true_2 _ Hin). simpl. by rewrite andb_false_r.
Qed.

(** X17. The address checker keeps the extracted code of a party when
    the upper-cased name of the party holds CINTAS or MAT as a whole word
    (the name is [pre + w + post] with [pre] empty or ending outside [\w]
    and [post] empty or starting outside [\w]), when the combined address
    of the party is an address of the master table, and when there is no
    extracted code. *)
Theorem address_checker_rule_keeps (r : row) :
  ((∃ pre w post,
      Py.upper (as_text (col r "Consignor")) = pre +:+ w +:+ post
      ∧ w ∈ ["CINTAS"; "MAT"]
      ∧ ends_in_word_char false pre = false
      ∧ ∀ c s, post = String c s → Py.is_word c = false)
   ∨ as_text (col r "Consignor_Combined_Address") ∈ combined_set ctx
   ∨ has_code (col r "Extracted Consignor Code") = false →
   address_checker_rule ctx r !! "Extracted Consignor Code"
   = r !! "Extracted Consignor Code")
  ∧ ((∃ pre w post,
        Py.upper (as_text (col r "Consignee")) = pre +:+ w +:+ post
        ∧ w ∈ ["CINTAS"; "MAT"]
        ∧ ends_in_word_char false pre = false
        ∧ ∀ c s, post = String c s → Py.is_word c = false)
     ∨ as_text (col r "Consignee_Combined_Address") ∈ combined_set ctx
     ∨ has_code (col r "Extracted Consignee Code") = false →
     address_checker_rule ctx r !! "Extracted Consignee Code"
     = r !! "Extracted Consignee Code").
Proof.
  split; intros Hkeep.
  - apply (address_checker_rule_keeps_party r "Consignor" _ "Consignor_Combined_Address");
      tauto.
  - apply (address_checker_rule_keeps_party r "Consignee" _ "Consignee_Combined_Address");
      tauto.
Qed.

Lemma org_dest_type_codes_without_column (r : row) :
  org_type_col ctx = None ∨ dest_type_col ctx = None →
  org_dest_type_codes ctx r !! "Org Type Consignor Code" = Some (Str "")
  ∧ org_dest_type_codes ctx r !! "Dest Type Consignee Code" = Some (Str "").
Proof.
  intros Hnone.
  rewrite org_dest_type_codes_consignor, org_dest_type_codes_consignee.
  destruct Hnone as [-> | ->]; [done|]. by destruct (org_type_col ctx).
Qed.

End AddressCheckerMore.

(** * Further properties of the standardisation of a sheet *)

(** ** Column names *)

Lemma _norm_col_eq s : _norm_col s = keep_chars is_norm_char (Py.lower s).
Proof. done. Qed.

Lemma lower_char_norm c : is_norm_char c = true → Py.lower_char c = c.
Proof. each_char c. Qed.

Lemma lower_upper_char c : Py.lower_char (Py.upper_char c) = Py.lower_char c.
Proof. each_char c. Qed.

Lemma lower_char_idem c : Py.lower_char (Py.lower_char c) = Py.lower_char c.
Proof. each_char c. Qed.

Lemma keep_chars_app p a b : keep_chars p (a +:+ b) = keep_chars p a +:+ keep_chars p b.
Proof.
  induction a as [|c a IH]; [by rewrite !string_app_nil_l|].
  rewrite string_app_cons. simpl. destruct (p c); [|done].
  by rewrite string_app_cons, IH.
Qed.

Lemma lower_app a b : Py.lower (a +:+ b) = Py.lower a +:+ Py.lower b.
Proof.
  unfold Py.lower. induction a as [|c a IH]; [by rewrite !string_app_nil_l|].
  rewrite string_app_cons. simpl. by rewrite string_app_cons, IH.
Qed.

Lemma all_chars_keep_chars p s : Py.all_chars p (keep_chars p s) = true.
Proof.
  induction s as [|c s IH]; [done|]. simpl.
  destruct (p c) eqn:E; [|done]. simpl. by rewrite E.
Qed.

Lemma keep_chars_all p s : Py.all_chars p s = true → keep_chars p s = s.
Proof.
  induction s as [|c s IH]; [done|]. simpl.
  intros [-> Hs]%andb_true_iff. by rewrite IH.
Qed.

Lemma lower_all_norm s : Py.all_chars is_norm_char s = true → Py.lower s = s.
Proof.
  unfold Py.lower. induction s as [|c s IH]; [done|]. simpl.
  intros [Hc Hs]%andb_true_iff. by rewrite lower_char_norm, IH.
Qed.

(** X18. [_norm_col] gives a normal form of a column name: it holds
    lower-case letters and digits only, normalising it again changes
    nothing, the case of the name does not matter, and the normal form of a
    concatenation is the concatenation of the normal forms (so characters
    other than letters and digits are simply dropped). *)
Theorem _norm_col_normal_form s t :
  _norm_col (_norm_col s) = _norm_col s
  ∧ Py.all_chars (λ c, Py.is_lower c || Py.is_digit c) (_norm_col s) = true
  ∧ _norm_col (Py.upper s) = _norm_col s
  ∧ _norm_col (Py.lower s) = _norm_col s
  ∧ _norm_col (s +:+ t) = _norm_col s +:+ _norm_col t.
Proof.
  assert (Py.all_chars is_norm_char (_norm_col s) = true) as Hall
    by apply all_chars_keep_chars.
  assert (Py.lower (Py.lower s) = Py.lower s) as Hll.
  { unfold Py.lower. clear. induction s as [|c s IH]; [done|]. simpl.
    by rewrite lower_char_idem, IH. }
  split_and!.
  - rewrite (_norm_col_eq (_norm_col s)), lower_all_norm by done. by apply keep_chars_all.
  - exact Hall.
  - rewrite !_norm_col_eq. f_equal. unfold Py.lower, Py.upper.
    clear. induction s as [|c s IH]; [done|]. simpl. by rewrite lower_upper_char, IH.
  - by rewrite !_norm_col_eq, Hll.
  - by rewrite !_norm_col_eq, lower_app, keep_chars_app.
Qed.

(** ** Picking a column *)

Lemma dict_of_pairs_snoc {V} (l : list (string * V)) k v :
  dict_of_pairs (l ++ [(k, v)]) = <[k := v]> (dict_of_pairs l).
Proof. unfold dict_of_pairs. by rewrite foldl_app. Qed.

(** A dictionary built from pairs holds, for a key, the value of the last
    pair with that key. *)
Lemma dict_of_pairs_Some {V} (l : list (string * V)) k v :
  dict_of_pairs l !! k = Some v ↔ ∃ l1 l2, l = l1 ++ (k, v) :: l2 ∧ k ∉ l2.*1.
Proof.
  split; [|intros (l1 & l2 & -> & Hk); by apply dict_of_pairs_last].
  induction l as [|[k' v'] l IH] using rev_ind; [done|].
  rewrite dict_of_pairs_snoc. destruct (decide (k' = k)) as [->|Hne].
  - rewrite lookup_insert_eq. intros [= ->]. exists l, []. split; [done|].
    by intros ?%elem_of_nil.
  - rewrite lookup_insert_ne by done. intros (l1 & l2 & -> & Hk)%IH.
    exists l1, (l2 ++ [(k', v')]). split; [by rewrite <- app_assoc|].
    rewrite fmap_app, elem_of_app. intros [?|Hin]; [done|].
    apply list_elem_of_singleton in Hin. simpl in Hin. congruence.
Qed.

Lemma dict_of_pairs_None {V} (l : list (string * V)) k :
  dict_of_pairs l !! k = None ↔ k ∉ l.*1.
Proof.
  split; [|apply dict_of_pairs_absent].
  intros Hnone Hin. apply list_elem_of_fmap in Hin as ([k' v] & -> & Hin).
  apply list_elem_of_split in Hin as (l1 & l2 & ->).
  assert (∃ v', dict_of_pairs (l1 ++ (k', v) :: l2) !! k' = Some v') as [v' Hv'];
    [|simpl in *; congruence].
  clear Hnone. induction l2 as [|[k2 v2] l2 IH] using rev_ind.
  - exists v. apply dict_of_pairs_last. by intros ?%elem_of_nil.
  - destruct IH as [v' Hv'].
    replace (l1 ++ (k', v) :: l2 ++ [(k2, v2)]) with ((l1 ++ (k', v) :: l2) ++ [(k2, v2)])
      by by rewrite <- app_assoc.
    rewrite dict_of_pairs_snoc. destruct (decide (k2 = k')) as [->|Hne].
    + rewrite lookup_insert_eq. eauto.
    + rewrite lookup_insert_ne by done. eauto.
Qed.

Lemma first_some_split {A B} (f : A → option B) l y :
  first_some f l = Some y ↔
  ∃ l1 x l2, l = l1 ++ x :: l2 ∧ f x = Some y ∧ ∀ x', x' ∈ l1 → f x' = None.
Proof.
  split.
  - induction l as [|x l IH]; simpl; [done|].
    destruct (f x) as [y'|] eqn:E.
    + intros [= ->]. exists [], x, l. split_and!; [done..|]. by intros ? ?%elem_of_nil.
    + intros (l1 & x0 & l2 & -> & Hx0 & Hl1)%IH. exists (x :: l1), x0, l2.
      split_and!; [done..|]. intros x' [->|?]%elem_of_cons; [done|by apply Hl1].
  - intros (l1 & x & l2 & -> & Hx & Hl1).
    induction l1 as [|x1 l1 IH]; simpl; [by rewrite Hx|].
    rewrite (Hl1 x1) by by left. apply IH. intros x' Hx'. apply Hl1. by right.
Qed.

(** The column that the dictionary of normalised names gives for a
    normalised name: the last column with that name. *)
Lemma norm_map_Some cols n c :
  dict_of_pairs ((λ c, (_norm_col c, c)) <$> cols) !! n = Some c
  ↔ ∃ cols1 cols2, cols = cols1 ++ c :: cols2 ∧ _norm_col c = n
                   ∧ ∀ c', c' ∈ cols2 → _norm_col c' ≠ n.
Proof.
  rewrite dict_of_pairs_Some. split.
  - intros (l1 & l2 & Hl & Hn).
    apply fmap_app_inv in Hl as (cols1 & cols' & Hl1 & Hl' & ->).
    symmetry in Hl'. apply fmap_cons_inv in Hl' as (c0 & cols2 & [= Hn0 ->] & Hl2 & ->).
    exists cols1, cols2. split_and!; [done..|].
    intros c' Hc' Hn'. apply Hn. rewrite Hl2, <- list_fmap_compose.
    apply list_elem_of_fmap. by exists c'.
  - intros (cols1 & cols2 & -> & <- & Hn).
    exists ((λ c, (_norm_col c, c)) <$> cols1), ((λ c, (_norm_col c, c)) <$> cols2).
    split; [by rewrite fmap_app|].
    rewrite <- list_fmap_compose. intros (c' & Hc' & Hin)%list_elem_of_fmap.
    by apply (Hn c').
Qed.

Lemma norm_map_None cols n :
  dict_of_pairs ((λ c, (_norm_col c, c)) <$> cols) !! n = None
  ↔ ∀ c, c ∈ cols → _norm_col c ≠ n.
Proof.
  rewrite dict_of_pairs_None, <- list_fmap_compose. split.
  - intros Hn c Hc Heq. apply Hn, list_elem_of_fmap. by exists c.
  - intros Hn (c & Hc & Hin)%list_elem_of_fmap. by apply (Hn c).
Qed.

Lemma _pick_col_None cols candidates :
  _pick_col cols candidates = None
  ↔ ∀ cand c, cand ∈ candidates → c ∈ cols → _norm_col c ≠ _norm_col cand.
Proof.
  unfold _pick_col. rewrite first_some_None. split.
  - intros Hn cand c Hcand. by apply norm_map_None, Hn.
  - intros Hn cand Hcand. apply norm_map_None. intros c. by apply Hn.
Qed.

(** X19. [_pick_col] returns a column for the first candidate whose
    normalised name is that of some column, and among the columns with
    that normalised name it returns the last one; it returns nothing
    exactly when no column has the normalised name of a candidate. *)
Theorem _pick_col_spec cols candidates :
  match _pick_col cols candidates with
  | Some c =>
      ∃ cands1 cand cands2 cols1 cols2,
        candidates = cands1 ++ cand :: cands2
        ∧ cols = cols1 ++ c :: cols2
        ∧ _norm_col c = _norm_col cand
        ∧ (∀ cand' c', cand' ∈ cands1 → c' ∈ cols → _norm_col c' ≠ _norm_col cand')
        ∧ (∀ c', c' ∈ cols2 → _norm_col c' ≠ _norm_col cand)
  | None => ∀ cand c, cand ∈ candidates → c ∈ cols → _norm_col c ≠ _norm_col cand
  end.
Proof.
  destruct (_pick_col cols candidates) as [c|] eqn:E; [|by apply _pick_col_None].
  unfold _pick_col in E.
  apply first_some_split in E as (cands1 & cand & cands2 & -> & Hc & Hbefore).
  apply norm_map_Some in Hc as (cols1 & cols2 & -> & Hn & Hlast).
  exists cands1, cand, cands2, cols1, cols2. split_and!; [done..| |done].
  intros cand' c' Hcand'. by apply norm_map_None, Hbefore.
Qed.

(** ** Standardising a sheet, one record at a time *)

Lemma rows_assign c f df : rows (assign c f df) = set_col c f <$> rows df.
Proof. done. Qed.

Lemma alias_loop_rows fas df :
  rows (foldl (λ df fa,
                 match _pick_col (columns df) fa.2 with
                 | Some found => assign fa.1 (λ r, col r found) df
                 | None => assign fa.1 (λ _, Str "") df
                 end) df fas)
  = alias_columns (columns df) fas <$> rows df.
Proof.
  revert df. induction fas as [|fa fas IH]; intros df; simpl.
  - by rewrite list_fmap_id.
  - rewrite IH. destruct (_pick_col (columns df) fa.2) as [found|];
      rewrite rows_assign, columns_assign, <- list_fmap_compose; done.
Qed.

Lemma alias_loop_columns fas df :
  columns (foldl (λ df fa,
                    match _pick_col (columns df) fa.2 with
                    | Some found => assign fa.1 (λ r, col r found) df
                    | None => assign fa.1 (λ _, Str "") df
                    end) df fas)
  = foldl add_label (columns df) fas.*1.
Proof.
  revert df. induction fas as [|fa fas IH]; intros df; [done|]. simpl. rewrite IH.
  by destruct (_pick_col _ _).
Qed.

Lemma text_loop_rows cs df :
  rows (foldl (λ df c, assign c (λ r, Str (as_text (col r c))) df) df cs)
  = text_columns cs <$> rows df.
Proof.
  unfold text_columns.
  revert df. induction cs as [|c cs IH]; intros df; simpl.
  - by rewrite list_fmap_id.
  - by rewrite IH, rows_assign, <- list_fmap_compose.
Qed.

Lemma rows_standardize_input_columns df :
  rows (standardize_input_columns df) = standardize_row (columns df) <$> rows df.
Proof.
  unfold standardize_input_columns, standardize_row.
  by rewrite text_loop_rows, alias_loop_rows, <- list_fmap_compose.
Qed.

(** *** The table of aliases *)

Lemma FIELD_ALIASES_NoDup : NoDup FIELD_ALIASES.*1.
Proof. refine (bool_decide_unpack _ _); vm_compute; exact I. Qed.

Lemma FIELD_ALIASES_lead : names_lead FIELD_ALIASES.
Proof.
  assert (Forall (λ fa, ∃ al', fa.2 = fa.1 :: al') FIELD_ALIASES) as Hall.
  { repeat constructor; simpl; eauto. }
  intros n al Hin. rewrite Forall_forall in Hall. apply (Hall _ Hin).
Qed.

Lemma FIELD_ALIASES_separate : names_separate FIELD_ALIASES.
Proof.
  assert (Forall (λ fa, Forall (λ n', n' ≠ fa.1 →
                                  Forall (λ a, _norm_col n' ≠ _norm_col a) fa.2)
                               FIELD_ALIASES.*1) FIELD_ALIASES) as Hall.
  { refine (bool_decide_unpack _ _); vm_compute; exact I. }
  intros n al n' a Hin Hn' Hne Ha.
  rewrite Forall_forall in Hall. specialize (Hall _ Hin).
  rewrite Forall_forall in Hall. specialize (Hall _ Hn' Hne).
  rewrite Forall_forall in Hall. by apply Hall.
Qed.

Lemma first_some_ext {A B} (f g : A → option B) l :
  (∀ x, x ∈ l → f x = g x) → first_some f l = first_some g l.
Proof.
  induction l as [|x l IH]; intros Hfg; [done|]. simpl.
  rewrite (Hfg x) by by left. destruct (g x); [done|].
  apply IH. intros x' Hx'. apply Hfg. by right.
Qed.

Lemma norm_map_snoc cols c :
  norm_map (cols ++ [c]) = <[_norm_col c := c]> (norm_map cols).
Proof. rewrite fmap_app. exact (dict_of_pairs_snoc _ _ _). Qed.

Lemma norm_map_add_label_ne cols n k :
  _norm_col n ≠ k → norm_map (add_label cols n) !! k = norm_map cols !! k.
Proof.
  intros Hne. unfold add_label. case_decide; [done|].
  by rewrite norm_map_snoc, lookup_insert_ne.
Qed.

Lemma norm_map_foldl_add_label_ne cols ns k :
  (∀ n, n ∈ ns → _norm_col n ≠ k) →
  norm_map (foldl add_label cols ns) !! k = norm_map cols !! k.
Proof.
  revert cols. induction ns as [|m ns IH]; intros cols Hns; [done|]. simpl.
  rewrite IH by (intros; apply Hns; by right).
  apply norm_map_add_label_ne, Hns. by left.
Qed.

(** Labels whose normalised names match no alias of a field do not change
    the column picked for the field. *)
Lemma _pick_col_foldl_add_label cols ns al :
  (∀ n a, n ∈ ns → a ∈ al → _norm_col n ≠ _norm_col a) →
  _pick_col (foldl add_label cols ns) al = _pick_col cols al.
Proof.
  intros Hns. unfold _pick_col. apply first_some_ext. intros a Ha.
  apply norm_map_foldl_add_label_ne. intros n Hn. by apply Hns.
Qed.

Lemma norm_map_foldl_add_label_name cols ns n :
  NoDup ns → (∀ n', n' ∈ ns → n' ≠ n → _norm_col n' ≠ _norm_col n) → n ∈ ns →
  norm_map (foldl add_label cols ns) !! _norm_col n
  = if decide (n ∈ cols) then norm_map cols !! _norm_col n else Some n.
Proof.
  revert cols. induction ns as [|m ns IH]; intros cols Hnd Hsep Hn.
  { by apply elem_of_nil in Hn. }
  apply NoDup_cons in Hnd as [Hm Hnd]. simpl.
  destruct (decide (n = m)) as [->|Hne].
  - rewrite norm_map_foldl_add_label_ne.
    + unfold add_label. destruct (decide (m ∈ cols)); [done|].
      by rewrite norm_map_snoc, lookup_insert_eq.
    + intros n' Hn'. apply Hsep; [by right|]. by intros ->.
  - apply elem_of_cons in Hn as [?|Hn]; [done|].
    rewrite IH; [|done|intros; apply Hsep; [by right|done]|done].
    assert (_norm_col m ≠ _norm_col n) as Hmn.
    { apply Hsep; [by left|done]. }
    rewrite norm_map_add_label_ne by done.
    destruct (decide (n ∈ add_label cols m)) as [Hin|Hnin],
             (decide (n ∈ cols)) as [Hin'|Hnin']; try done.
    + apply elem_of_add_label in Hin as [?|?]; done.
    + destruct Hnin. apply elem_of_add_label. by left.
Qed.

Section AliasTable.
Variable full : list (string * list string).
Hypothesis full_NoDup : NoDup full.*1.
Hypothesis full_separate : names_separate full.

Lemma picked_not_other_name cols n al f :
  (n, al) ∈ full → _pick_col cols al = Some f → f ∈ full.*1 → f = n.
Proof.
  intros Hin Hp Hf. apply _pick_col_Some in Hp as (_ & cand & Hcand & Hnorm).
  destruct (decide (f = n)) as [|Hne]; [done|].
  by destruct (full_separate n al f cand).
Qed.

Lemma alias_columns_lookup cols0 (r0 : row) done fas cols (r : row) :
  full = done ++ fas →
  cols = foldl add_label cols0 done.*1 →
  (∀ c, c ∉ done.*1 → r !! c = r0 !! c) →
  (∀ n al, (n, al) ∈ fas →
           alias_columns cols fas r !! n = Some (alias_value cols0 al r0))
  ∧ (∀ c, c ∉ fas.*1 → alias_columns cols fas r !! c = r !! c).
Proof.
  revert done cols r. induction fas as [|[n al] fas IH]; intros done cols r Hfull Hcols Hr.
  { split; [by intros ?? ?%elem_of_nil|done]. }
  assert ((n, al) ∈ full) as Hin.
  { rewrite Hfull. apply elem_of_app. right. by left. }
  pose proof full_NoDup as Hnd. rewrite Hfull, fmap_app, fmap_cons in Hnd.
  apply NoDup_app in Hnd as (_ & Hdis & [Hnfas _]%NoDup_cons). simpl in Hnfas.
  assert (n ∉ done.*1) as Hndone.
  { intros Hd. apply (Hdis n Hd). by left. }
  assert (_pick_col cols al = _pick_col cols0 al) as Hpick.
  { rewrite Hcols. apply _pick_col_foldl_add_label. intros n' a Hn' Ha.
    apply (full_separate n al n' a); [done| |by intros ->|done].
    rewrite Hfull, fmap_app. apply elem_of_app. by left. }
  simpl. rewrite Hpick.
  set (r' := match _pick_col cols0 al with
             | Some found => set_col n (λ r1 : row, col r1 found) r
             | None => set_col n (λ _ : row, Str "") r
             end).
  assert (r' !! n = Some (alias_value cols0 al r0)) as Hr'n.
  { unfold r', alias_value. destruct (_pick_col cols0 al) as [f|] eqn:Hf.
    - rewrite set_col_eq. f_equal. apply col_eq, Hr. intros Hfd.
      assert (f = n) as ->; [|done].
      apply (picked_not_other_name cols0 n al f); [done..|].
      rewrite Hfull, fmap_app. apply elem_of_app. by left.
    - by rewrite set_col_eq. }
  assert (∀ c, c ≠ n → r' !! c = r !! c) as Hr'c.
  { intros c Hc. unfold r'. destruct (_pick_col cols0 al); by rewrite set_col_ne. }
  clearbody r'.
  destruct (IH (done ++ [(n, al)]) (add_label cols n) r') as [IH1 IH2].
  - by rewrite <- app_assoc.
  - by rewrite fmap_app, foldl_app, <- Hcols.
  - intros c Hc. rewrite fmap_app, not_elem_of_app in Hc. destruct Hc as [Hc1 Hc2].
    rewrite Hr'c; [by apply Hr|]. intros ->. apply Hc2. by left.
  - split.
    + intros n1 al1 [[= -> ->]|Hin1]%elem_of_cons; [|by apply IH1].
      by rewrite IH2.
    + intros c [Hc1 Hc2]%not_elem_of_cons. rewrite IH2 by done. by apply Hr'c.
Qed.

End AliasTable.

Lemma text_columns_lookup cs (r : row) :
  NoDup cs →
  (∀ c, c ∈ cs → text_columns cs r !! c = Some (Str (as_text (col r c))))
  ∧ (∀ c, c ∉ cs → text_columns cs r !! c = r !! c).
Proof.
  unfold text_columns. revert r. induction cs as [|c0 cs IH]; intros r Hnd.
  { split; [by intros ? ?%elem_of_nil|done]. }
  apply NoDup_cons in Hnd as [Hc0 Hnd]. simpl.
  destruct (IH (set_col c0 (λ r, Str (as_text (col r c0))) r) Hnd) as [IH1 IH2].
  split.
  - intros c [->|Hc]%elem_of_cons.
    + by rewrite IH2, set_col_eq.
    + rewrite IH1 by done. rewrite col_set_col_ne; [done|]. by intros ->.
  - intros c [Hne Hc]%not_elem_of_cons. rewrite IH2 by done. by rewrite set_col_ne.
Qed.

Lemma FIELD_ALIASES_names : FIELD_ALIASES.*1 = CANONICAL_COLUMNS.
Proof. reflexivity. Qed.

(** A standardised record: each canonical column holds the text of the
    cell that its field takes in the record as read, and the other columns
    are as read. *)
Lemma standardize_row_lookup cols (r : row) :
  (∀ n al, (n, al) ∈ FIELD_ALIASES →
           standardize_row cols r !! n = Some (Str (as_text (alias_value cols al r))))
  ∧ (∀ c, c ∉ CANONICAL_COLUMNS → standardize_row cols r !! c = r !! c).
Proof.
  unfold standardize_row.
  destruct (alias_columns_lookup FIELD_ALIASES FIELD_ALIASES_NoDup FIELD_ALIASES_separate
              cols r [] FIELD_ALIASES cols r) as [Ha1 Ha2]; [done..|].
  destruct (text_columns_lookup CANONICAL_COLUMNS (alias_columns cols FIELD_ALIASES r))
    as [Ht1 Ht2].
  { rewrite <- FIELD_ALIASES_names. apply FIELD_ALIASES_NoDup. }
  split.
  - intros n al Hin. rewrite Ht1.
    + unfold col. by rewrite (Ha1 n al Hin).
    + rewrite <- FIELD_ALIASES_names. apply list_elem_of_fmap. by exists (n, al).
  - intros c Hc. rewrite Ht2 by done. apply Ha2. by rewrite FIELD_ALIASES_names.
Qed.

(** X20. [standardize_input_columns] adds the canonical labels that the
    sheet lacks, keeps the number and the order of the records, sets each
    canonical column of a record to the text of the column picked for the
    field among the labels of the sheet as it was read (the canonical
    columns added on the way change no pick), or to the empty text when no
    alias is found, and leaves every other column as it was. *)
Theorem standardize_input_columns_spec (df : frame) :
  columns (standardize_input_columns df) = foldl add_label (columns df) CANONICAL_COLUMNS
  ∧ length (rows (standardize_input_columns df)) = length (rows df)
  ∧ ∀ i r, rows df !! i = Some r →
      ∃ r', rows (standardize_input_columns df) !! i = Some r'
            ∧ (∀ name aliases, (name, aliases) ∈ FIELD_ALIASES →
                 r' !! name
                 = Some (Str (as_text match _pick_col (columns df) aliases with
                                      | Some found => col r found
                                      | None => Str ""
                                      end)))
            ∧ (∀ c, c ∉ CANONICAL_COLUMNS → r' !! c = r !! c).
Proof.
  split_and!.
  - apply columns_standardize_input_columns.
  - by rewrite rows_standardize_input_columns, length_fmap.
  - intros i r Hr. exists (standardize_row (columns df) r).
    rewrite rows_standardize_input_columns, list_lookup_fmap, Hr.
    split; [done|]. apply standardize_row_lookup.
Qed.

Lemma as_text_Str s : as_text (Str s) = s.
Proof. done. Qed.

Lemma FIELD_ALIASES_norms n n' :
  n ∈ CANONICAL_COLUMNS → n' ∈ CANONICAL_COLUMNS → n' ≠ n → _norm_col n' ≠ _norm_col n.
Proof.
  intros Hn Hn' Hne. rewrite <- FIELD_ALIASES_names in Hn, Hn'.
  apply list_elem_of_fmap in Hn as ([n0 al] & -> & Hin). simpl in *.
  destruct (FIELD_ALIASES_lead _ _ Hin) as [al' ->].
  apply (FIELD_ALIASES_separate n0 (n0 :: al') n' n0); [done..|by left].
Qed.

(** The cell that a field takes in a standardised record has the text
    that the field had taken in the record as read. *)
Lemma alias_value_standardized cols (r : row) n al :
  (n, al) ∈ FIELD_ALIASES →
  as_text (alias_value (foldl add_label cols CANONICAL_COLUMNS) al (standardize_row cols r))
  = as_text (alias_value cols al r).
Proof.
  intros Hin.
  destruct (standardize_row_lookup cols r) as [Hcanon Hother].
  destruct (FIELD_ALIASES_lead _ _ Hin) as [al' ->].
  assert (n ∈ CANONICAL_COLUMNS) as Hn.
  { rewrite <- FIELD_ALIASES_names. apply list_elem_of_fmap. by exists (n, n :: al'). }
  assert (NoDup CANONICAL_COLUMNS) as Hnd.
  { rewrite <- FIELD_ALIASES_names. apply FIELD_ALIASES_NoDup. }
  pose proof (norm_map_foldl_add_label_name cols CANONICAL_COLUMNS n Hnd) as Hmap.
  specialize (Hmap (λ n' Hn' Hne, FIELD_ALIASES_norms n n' Hn Hn' Hne) Hn).
  unfold alias_value at 1. unfold _pick_col at 1. cbn [first_some].
  rewrite Hmap. clear Hmap.
  destruct (decide (n ∈ cols)) as [Hcols|Hcols].
  - destruct (norm_map cols !! _norm_col n) as [f|] eqn:Hf.
    2:{ rewrite norm_map_None in Hf. by destruct (Hf n). }
    assert (alias_value cols (n :: al') r = col r f) as Hav.
    { unfold alias_value, _pick_col. cbn [first_some]. by rewrite Hf. }
    rewrite Hav.
    apply norm_map_Some in Hf as (cols1 & cols2 & Hsplit & Hnorm & _).
    destruct (decide (f = n)) as [->|Hne].
    + unfold col at 1. rewrite (Hcanon _ _ Hin), Hav. done.
    + f_equal. apply col_eq, Hother. intros Hf.
      by apply (FIELD_ALIASES_norms n f).
  - unfold col. by rewrite (Hcanon _ _ Hin).
Qed.

Lemma standardize_row_idem cols (r : row) :
  standardize_row (foldl add_label cols CANONICAL_COLUMNS) (standardize_row cols r)
  = standardize_row cols r.
Proof.
  apply map_eq. intros c.
  destruct (standardize_row_lookup cols r) as [Hcanon Hother].
  destruct (standardize_row_lookup (foldl add_label cols CANONICAL_COLUMNS)
              (standardize_row cols r)) as [Hcanon' Hother'].
  destruct (decide (c ∈ CANONICAL_COLUMNS)) as [Hc|Hc]; [|by apply Hother'].
  rewrite <- FIELD_ALIASES_names in Hc.
  apply list_elem_of_fmap in Hc as ([n al] & -> & Hin). cbn [fst].
  by rewrite (Hcanon' _ _ Hin), (Hcanon _ _ Hin), (alias_value_standardized _ _ _ _ Hin).
Qed.

(** X21. [standardize_input_columns] is idempotent: a standardised sheet
    is standardised to itself. *)
Theorem standardize_input_columns_idempotent (df : frame) :
  standardize_input_columns (standardize_input_columns df) = standardize_input_columns df.
Proof.
  assert (∀ a b : frame, columns a = columns b → rows a = rows b → a = b) as Hext.
  { intros [] []; simpl; by intros -> ->. }
  apply Hext.
  - rewrite !columns_standardize_input_columns. apply foldl_add_label_present.
    intros x Hx. apply elem_of_foldl_add_label. by right.
  - rewrite (rows_standardize_input_columns (standardize_input_columns df)).
    rewrite columns_standardize_input_columns, rows_standardize_input_columns.
    rewrite <- list_fmap_compose. apply list_fmap_ext. intros i r _. simpl.
    apply standardize_row_idem.
Qed.

(** * Further properties of the pipeline *)

(** ** The sheet through the responsible party *)

Section SheetMore.
Context `{Env}.

(** X22. [run_pipeline], through the responsible party, on a sheet with
    distinct labels. On a sheet with no record that has both type-code
    columns it raises [ValueError]. On every other sheet it returns a sheet
    whose labels are those of the sheet read, then the missing canonical
    labels, then the missing derived labels; it keeps the number and the
    order of the records, and in each record it leaves every column as it
    was read that is neither canonical nor derived. *)
Theorem run_pipeline_derive_frame refs (df : frame) :
  NoDup (columns df) →
  let ctx := make_context refs (columns (standardize_input_columns df)) in
  (rows df = [] → is_Some (org_type_col ctx) → is_Some (dest_type_col ctx) →
   run_pipeline_derive refs df = inl ValueError)
  ∧ (rows df ≠ [] ∨ org_type_col ctx = None ∨ dest_type_col ctx = None →
     ∃ df', run_pipeline_derive refs df = inr df'
            ∧ columns df' = foldl add_label (foldl add_label (columns df) CANONICAL_COLUMNS)
                                  DERIVED_COLUMNS
            ∧ length (rows df') = length (rows df)
            ∧ ∀ i r r', rows df !! i = Some r → rows df' !! i = Some r' →
                        ∀ c, c ∉ CANONICAL_COLUMNS → c ∉ DERIVED_COLUMNS →
                             r' !! c = r !! c).
Proof.
  intros _ ctx.
  assert (rows (standardize_input_columns df) = [] ↔ rows df = []) as Hempty.
  { rewrite rows_standardize_input_columns. split; [apply fmap_nil_inv|by intros ->]. }
  split.
  - intros Hrows [o Ho] [d Hd]. apply Hempty in Hrows.
    unfold run_pipeline_derive. fold ctx. by rewrite Hrows, Ho, Hd.
  - intros Hrun.
    destruct (run_pipeline_derive_returns refs df) as (rows' & E & ->).
    { fold ctx. rewrite Hempty. exact Hrun. }
    fold ctx in E. clearbody ctx.
    eexists. split; [reflexivity|]. cbn [columns rows].
    split; [reflexivity|].
    apply mapM_Some in E.
    split.
    + rewrite <- (Forall2_length _ _ _ E).
      by rewrite rows_standardize_input_columns, length_fmap.
    + intros i r r' Hr Hr' c Hcanon Hderived.
      assert (rows (standardize_input_columns df) !! i
              = Some (standardize_row (columns df) r)) as Hs.
      { by rewrite rows_standardize_input_columns, list_lookup_fmap, Hr. }
      destruct (Forall2_lookup_l _ _ _ _ _ E Hs) as (r'' & Hr'' & Hd).
      rewrite Hr' in Hr''. injection Hr'' as <-.
      rewrite (derive_row_frame ctx _ _ Hd c Hderived).
      by apply standardize_row_lookup.
Qed.

End SheetMore.

Lemma run_pipeline_derive_frame_witness :
  NoDup (columns example_sheet)
  ∧ (rows example_sheet = [] →
     is_Some (org_type_col
                (make_context example_references
                   (columns (standardize_input_columns example_sheet)))) →
     is_Some (dest_type_col
                (make_context example_references
                   (columns (standardize_input_columns example_sheet)))) →
     @run_pipeline_derive example_env example_references example_sheet = inl ValueError)
  ∧ (rows example_sheet ≠ []
     ∨ org_type_col
         (make_context example_references
            (columns (standardize_input_columns example_sheet))) = None
     ∨ dest_type_col
         (make_context example_references
            (columns (standardize_input_columns example_sheet))) = None →
     ∃ df', @run_pipeline_derive example_env example_references example_sheet = inr df'
            ∧ columns df'
              = foldl add_label (foldl add_label (columns example_sheet) CANONICAL_COLUMNS)
                      DERIVED_COLUMNS
            ∧ length (rows df') = length (rows example_sheet)
            ∧ ∀ i r r', rows example_sheet !! i = Some r → rows df' !! i = Some r' →
                        ∀ c, c ∉ CANONICAL_COLUMNS → c ∉ DERIVED_COLUMNS →
                             r' !! c = r !! c).
Proof.
  assert (NoDup (columns example_sheet)) as Hnd.
  { refine (bool_decide_unpack _ _). vm_compute. exact I. }
  split; [exact Hnd|].
  exact (@run_pipeline_derive_frame example_env example_references example_sheet Hnd).
Defined.

(** X23. The type-field codes need both type-code columns: on a sheet
    with no column for the origin type code, or with no column for the
    destination type code, both type-field codes of every record are
    empty, whatever the other column holds. *)
Theorem type_field_codes_need_both_columns refs cols (r : row) :
  (∀ c a, c ∈ cols → a ∈ ORG_TYPE_ALIASES → _norm_col c ≠ _norm_col a)
  ∨ (∀ c a, c ∈ cols → a ∈ DEST_TYPE_ALIASES → _norm_col c ≠ _norm_col a) →
  org_dest_type_codes (make_context refs cols) r !! "Org Type Consignor Code"
  = Some (Str "")
  ∧ org_dest_type_codes (make_context refs cols) r !! "Dest Type Consignee Code"
    = Some (Str "").
Proof.
  intros Hnone.
  assert (org_type_col (make_context refs cols) = None
          ∨ dest_type_col (make_context refs cols) = None) as Hpick.
  { assert (Forall (λ d, Forall (λ a, _norm_col d ≠ _norm_col a)
                           (ORG_TYPE_ALIASES ++ DEST_TYPE_ALIASES))
              (take 4 DERIVED_COLUMNS)) as Hall.
    { repeat constructor; vm_compute; discriminate. }
    assert (∀ al, al = ORG_TYPE_ALIASES ∨ al = DEST_TYPE_ALIASES →
              (∀ c a, c ∈ cols → a ∈ al → _norm_col c ≠ _norm_col a) →
              _pick_col (foldl add_label cols (take 4 DERIVED_COLUMNS)) al = None) as Hp.
    { intros al Hal Hno. apply _pick_col_None. intros cand c Hcand Hc.
      apply elem_of_foldl_add_label in Hc as [Hc|Hc]; [by apply Hno|].
      rewrite Forall_forall in Hall. specialize (Hall c Hc).
      rewrite Forall_forall in Hall. apply Hall.
      apply elem_of_app. destruct Hal as [-> | ->]; tauto. }
    destruct Hnone as [Hno|Hno]; [left|right]; apply Hp; tauto. }
  by apply org_dest_type_codes_without_column.
Qed.

Lemma type_field_codes_need_both_columns_witness :
  org_dest_type_codes
    (make_context example_references ["Consignor"; "Consignee"; "Org Type Code"])
    {[ "Consignor" := Str "ACME"; "Org Type Code" := Str "95" ]}
    !! "Org Type Consignor Code" = Some (Str "")
  ∧ org_dest_type_codes
      (make_context example_references ["Consignor"; "Consignee"; "Org Type Code"])
      {[ "Consignor" := Str "ACME"; "Org Type Code" := Str "95" ]}
      !! "Dest Type Consignee Code" = Some (Str "").
Proof.
  apply (type_field_codes_need_both_columns example_references
           ["Consignor"; "Consignee"; "Org Type Code"]).
  right.
  assert (Forall (λ c, Forall (λ a, _norm_col c ≠ _norm_col a) DEST_TYPE_ALIASES)
            ["Consignor"; "Consignee"; "Org Type Code"]) as Hall.
  { repeat constructor; vm_compute; discriminate. }
  intros c a Hc Ha. rewrite Forall_forall in Hall. specialize (Hall c Hc).
  rewrite Forall_forall in Hall. by apply Hall.
Defined.

(** ** The order of the columns *)

Lemma FIRST_COLUMNS_NoDup : NoDup FIRST_COLUMNS.
Proof. refine (bool_decide_unpack _ _); vm_compute; exact I. Qed.

Lemma filter_ext_in {A} (P Q : A → Prop) `{!∀ x, Decision (P x), !∀ x, Decision (Q x)}
    (l : list A) :
  (∀ x, x ∈ l → P x ↔ Q x) → filter P l = filter Q l.
Proof.
  induction l as [|a l IH]; intros Hl; [done|].
  rewrite !filter_cons, IH by (intros; apply Hl; by right).
  apply decide_ext, Hl. by left.
Qed.

Lemma filter_none {A} (P : A → Prop) `{!∀ x, Decision (P x)} (l : list A) :
  (∀ x, x ∈ l → ¬ P x) → filter P l = [].
Proof.
  induction l as [|a l IH]; intros Hl; [done|].
  rewrite filter_cons_False by (apply Hl; by left).
  apply IH. intros x Hx. apply Hl. by right.
Qed.

Lemma reorder_eq h :
  reorder h = filter (λ c, c ∈ h) FIRST_COLUMNS ++ filter (λ c, c ∉ FIRST_COLUMNS) h.
Proof.
  unfold reorder. f_equal. apply filter_ext_in.
  intros x Hx. rewrite list_elem_of_filter. tauto.
Qed.

(** X24. The final reordering of the columns: the columns of
    [first_cols] that the sheet has come first, in the order of that list,
    then the other columns in their order; on a sheet with distinct labels
    the result is a permutation of the labels, and reordering twice is
    reordering once. *)
Theorem reorder_permutation h :
  (NoDup h → reorder h ≡ₚ h)
  ∧ reorder h = filter (λ c, c ∈ h) FIRST_COLUMNS ++ filter (λ c, c ∉ FIRST_COLUMNS) h
  ∧ reorder (reorder h) = reorder h.
Proof.
  split_and!.
  - intros Hnd. rewrite reorder_eq.
    transitivity (filter (λ c, c ∈ FIRST_COLUMNS) h ++ filter (λ c, c ∉ FIRST_COLUMNS) h);
      [|apply filter_app_complement].
    apply Permutation_app_tail.
    apply NoDup_Permutation.
    + apply NoDup_filter, FIRST_COLUMNS_NoDup.
    + by apply NoDup_filter.
    + intros x. rewrite !list_elem_of_filter. tauto.
  - apply reorder_eq.
  - rewrite (reorder_eq (reorder h)).
    assert (filter (λ c, c ∈ reorder h) FIRST_COLUMNS = filter (λ c, c ∈ h) FIRST_COLUMNS)
      as ->.
    { apply list_filter_iff. intros x. apply elem_of_reorder. }
    rewrite (reorder_eq h) at 1. rewrite filter_app.
    rewrite (filter_none (λ c, c ∉ FIRST_COLUMNS) (filter _ FIRST_COLUMNS)).
    + rewrite list_filter_filter_l by done. simpl. by rewrite reorder_eq.
    + intros x [_ Hx]%list_elem_of_filter. tauto.
Qed.

(** ** Sheets that the pipeline refuses *)

Lemma count_label_add_label c h x : count_label c h ≤ count_label c (add_label h x).
Proof.
  unfold add_label. case_decide; [done|]. rewrite count_label_app. lia.
Qed.

Lemma merge_columns_cost (left h : list string) :
  merge_columns left = Ok h → "Cost Center" ∈ left → "Cost Center_master" ∈ h.
Proof.
  unfold merge_columns. destruct (existsb _ _); [done|]. intros [= <-] Hin.
  unfold MERGED_COLUMNS. cbn [fmap list_fmap].
  rewrite (decide_True (P := "Cost Center" ∈ left)) by done.
  apply elem_of_app. right. rewrite !elem_of_cons. tauto.
Qed.

(** X25. [run_pipeline] raises on a sheet that has a column
    "Profit Center EJ", and on a sheet that has both "Cost Center" and
    "Cost Center EJ": the merge and the renaming give two columns of one
    label, and the text conversion of that label fails. *)
Theorem run_pipeline_columns_raises cols :
  "Profit Center EJ" ∈ cols ∨ ("Cost Center" ∈ cols ∧ "Cost Center EJ" ∈ cols) →
  ∃ e, run_pipeline_columns cols = Raise e.
Proof.
  intros Hcols. unfold run_pipeline_columns.
  assert (∀ x, x ∈ cols → x ∈ derived_columns cols) as Hsub.
  { intros x Hx. unfold derived_columns. rewrite !elem_of_foldl_add_label. tauto. }
  generalize dependent (derived_columns cols). intros left Hsub.
  destruct (merge_columns left) as [h1|e] eqn:Hm; [|by exists e].
  pose proof (merge_columns_cost _ _ Hm) as Hcost.
  apply merge_columns_profit in Hm as (Hleft & Hp & _). cbn [bind_result].
  rewrite (decide_True (P := "ProfitCtr" ∈ _)) by done.
  set (h2 := rename_label "ProfitCtr" "Profit Center EJ" h1).
  assert (∀ x, x ∈ h1 → x ≠ "ProfitCtr" → x ∈ h2) as H12.
  { intros x Hx Hne. unfold h2. rewrite elem_of_rename_label. by left. }
  destruct Hcols as [Hej|[Hcc Hccej]].
  - assert (1 < count_label "Profit Center EJ" h2) as H2.
    { unfold h2. rewrite count_label_rename_new by done.
      pose proof (count_label_pos _ _ (Hleft _ (Hsub _ Hej))).
      pose proof (count_label_pos _ _ Hp).
      lia. }
    clearbody h2.
    match goal with |- context [text_column "Profit Center EJ" ?x] => set (h3 := x) end.
    assert (1 < count_label "Profit Center EJ" h3) as H3.
    { unfold h3. repeat case_decide; try done; by rewrite count_label_rename_other. }
    clearbody h3.
    unfold text_column. rewrite decide_True by done. by eexists.
  - assert ("Cost Center_master" ∈ h2) as Hm2.
    { apply H12; [|done]. by apply Hcost, Hsub. }
    assert ("Cost Center EJ" ∈ h2) as Hej2.
    { apply H12; [|done]. by apply Hleft, Hsub. }
    clearbody h2.
    rewrite (decide_True (P := "Cost Center_master" ∈ h2)) by done.
    set (h3 := rename_label "Cost Center_master" "Cost Center EJ" h2).
    assert (1 < count_label "Cost Center EJ" h3) as H3.
    { unfold h3. rewrite count_label_rename_new by done.
      pose proof (count_label_pos _ _ Hm2). pose proof (count_label_pos _ _ Hej2). lia. }
    clearbody h3.
    unfold text_column at 1.
    destruct (decide (1 < count_label "Profit Center EJ" h3)); [by eexists|].
    cbn [bind_result]. unfold text_column.
    rewrite decide_True; [by eexists|].
    pose proof (count_label_add_label "Cost Center EJ" h3 "Profit Center EJ"). lia.
Qed.

Lemma run_pipeline_columns_raises_witness :
  ∃ e, run_pipeline_columns ["Consignor"; "Cost Center"; "Cost Center EJ"] = Raise e.
Proof.
  apply run_pipeline_columns_raises. right. split; rewrite !elem_of_cons; tauto.
Defined.

(** ** Where a final code comes from *)

Lemma validate_code_in_list_Some master_table codes_list code f :
  validate_code_in_list (Location_Codes_Finder__init__ master_table codes_list) code = Some f →
  ∃ c, c ∈ codes_list ∧ format_code_4 c = Some f.
Proof.
  rewrite validate_code_in_list_eq.
  destruct (format_code_4 code) as [f'|]; [|done].
  case_decide as Hin; [|done]. intros [= <-]. by apply elem_of_codes_set_4 in Hin.
Qed.

Lemma _normalize_loc_code_series_Some v f :
  format_code_4 v = Some f → _normalize_loc_code_series (cell_of (Some f)) = f.
Proof. intros Hf. simpl. by apply (_normalize_loc_code_format_code_4 v). Qed.

Section Provenance.
Context `{Env}.
Variable refs : references.
Variable cols : list string.

Lemma validated_source code f :
  validate_code_in_list (location_finder (make_context refs cols)) code = Some f →
  code_source refs f ∧ _normalize_loc_code_series (cell_of (Some f)) = f.
Proof.
  intros Hv. apply validate_code_in_list_Some in Hv as (c & Hc & Hf).
  split; [|by eapply _normalize_loc_code_series_Some].
  apply list_elem_of_fmap in Hc as (code0 & -> & Hcode0).
  right; right; right; left. by exists code0.
Qed.

Lemma extracted_source v :
  ∃ s, _normalize_loc_code_series
         (cell_of (extract_from_text (location_finder (make_context refs cols)) v)) = s
       ∧ (s = "" ∨ code_source refs s).
Proof.
  destruct (extract_from_text _ v) as [f|] eqn:E; [|by exists ""; split; [|left]].
  unfold extract_from_text in E. destruct (isna v); [done|].
  apply first_some_Some in E as (tok & _ & Hv).
  apply validated_source in Hv as [Hs Hn]. exists f. split; [done|by right].
Qed.

Lemma type_field_source v :
  ∃ s, _normalize_loc_code_series
         (cell_of (validate_code_in_list (location_finder (make_context refs cols)) v))
       = s
       ∧ (s = "" ∨ code_source refs s).
Proof.
  destruct (validate_code_in_list _ v) as [f|] eqn:E; [|by exists ""; split; [|left]].
  apply validated_source in E as [Hs Hn]. exists f. split; [done|by right].
Qed.

Lemma address_source v :
  ∃ s, _normalize_loc_code_series
         (cell_of (extract_from_address (location_finder (make_context refs cols)) v))
       = s
       ∧ (s = "" ∨ code_source refs s).
Proof.
  destruct (extract_from_address _ v) as [f|] eqn:E; [|by exists ""; split; [|left]].
  apply extract_from_address_Some in E as (_ & r0 & Hr0 & _ & Hf).
  exists f. split; [by eapply _normalize_loc_code_series_Some|]. right.
  apply list_elem_of_fmap in Hr0 as (m & -> & Hm).
  right; right; right; right. by exists m.
Qed.

Lemma candidate_source (r : row) c :
  c ∈ [ "Extracted Consignor Code"; "Org Type Consignor Code"; "Addr_Lookup_Consignor_Code";
        "Extracted Consignee Code"; "Dest Type Consignee Code"; "Addr_Lookup_Consignee_Code" ] →
  ∃ s, col (candidates_of (make_context refs cols) r) c = Str s ∧ (s = "" ∨ code_source refs s).
Proof.
  intros Hc. unfold col, candidates_of.
  repeat (apply elem_of_cons in Hc as [->|Hc]); [..|by apply elem_of_nil in Hc].
  - rewrite suite_mississauga_override_frame, address_lookup_codes_frame,
      org_dest_type_codes_frame by done.
    rewrite address_checker_rule_consignor.
    destruct (wipe_consignor _ _); [exists ""; split; [done|by left]|].
    rewrite extract_codes_consignor.
    destruct (extracted_source (col (combined_addresses r) "Consignor")) as (s & -> & Hs).
    by exists s.
  - rewrite suite_mississauga_override_frame, address_lookup_codes_frame by done.
    rewrite org_dest_type_codes_consignor.
    destruct (org_type_col (make_context refs cols)) as [p|]; [|exists ""; split; [done|by left]].
    destruct (dest_type_col (make_context refs cols)) as [q|]; [|exists ""; split; [done|by left]].
    match goal with |- context [validate_code_in_list _ ?v] =>
      destruct (type_field_source v) as (s & -> & Hs) end.
    by exists s.
  - rewrite suite_mississauga_override_frame by done.
    rewrite address_lookup_codes_consignor.
    match goal with |- context [extract_from_address _ ?v] =>
      destruct (address_source v) as (s & -> & Hs) end.
    by exists s.
  - rewrite suite_mississauga_override_frame, address_lookup_codes_frame,
      org_dest_type_codes_frame by done.
    rewrite address_checker_rule_consignee.
    destruct (wipe_consignee _ _); [exists ""; split; [done|by left]|].
    rewrite extract_codes_consignee.
    destruct (extracted_source (col (combined_addresses r) "Consignee")) as (s & -> & Hs).
    by exists s.
  - rewrite suite_mississauga_override_frame, address_lookup_codes_frame by done.
    rewrite org_dest_type_codes_consignee.
    destruct (org_type_col (make_context refs cols)) as [p|]; [|exists ""; split; [done|by left]].
    destruct (dest_type_col (make_context refs cols)) as [q|]; [|exists ""; split; [done|by left]].
    match goal with |- context [validate_code_in_list _ ?v] =>
      destruct (type_field_source v) as (s & -> & Hs) end.
    by exists s.
  - match goal with |- context [suite_mississauga_override ?x] =>
      destruct (suite_mississauga_override_consignee x) as [-> | (code & Hcode & ->)] end.
    + rewrite address_lookup_codes_consignee.
      match goal with |- context [extract_from_address _ ?v] =>
        destruct (address_source v) as (s & -> & Hs) end.
      by exists s.
    + exists code. split; [done|]. right. right; right; left. done.
Qed.

Lemma precedence_source a b c :
  (a = "" ∨ code_source refs a) → (b = "" ∨ code_source refs b) → (c = "" ∨ code_source refs c) →
  ∃ s, precedence (Str a) (Str b) (Str c) = Str s ∧ code_source refs s.
Proof.
  intros Ha Hb Hc. rewrite precedence_Str. eexists. split; [done|].
  destruct (Py.blank a) eqn:Ea; simpl.
  2:{ destruct Ha as [->|?]; done. }
  destruct (Py.blank b) eqn:Eb; simpl.
  2:{ destruct Hb as [->|?]; done. }
  destruct (Py.blank c) eqn:Ec; simpl.
  2:{ destruct Hc as [->|?]; done. }
  by left.
Qed.

Lemma final_code_source (r : row) c :
  c = "Final Consignor Code" ∨ c = "Final Consignee Code" →
  ∃ s, resolve_codes (make_context refs cols) r !! c = Some (Str s) ∧ code_source refs s.
Proof.
  intros Hc.
  rewrite resolve_codes_exceptions.
  assert (∃ s, final_location_codes (candidates_of (make_context refs cols) r) !! c = Some (Str s)
               ∧ code_source refs s) as (s & Hs & Hsrc).
  { assert (∀ x, x ∈ [ "Extracted Consignor Code"; "Org Type Consignor Code";
                       "Addr_Lookup_Consignor_Code"; "Extracted Consignee Code";
                       "Dest Type Consignee Code"; "Addr_Lookup_Consignee_Code" ] →
                 ∃ s, col (candidates_of (make_context refs cols) r) x = Str s
                      ∧ (s = "" ∨ code_source refs s))
      as Hcand by apply candidate_source.
    destruct Hc as [-> | ->].
    - rewrite final_location_codes_consignor.
      destruct (Hcand "Extracted Consignor Code") as (a & -> & Ha);
        [rewrite !elem_of_cons; tauto|].
      destruct (Hcand "Org Type Consignor Code") as (b & -> & Hb);
        [rewrite !elem_of_cons; tauto|].
      destruct (Hcand "Addr_Lookup_Consignor_Code") as (c & -> & Hc);
        [rewrite !elem_of_cons; tauto|].
      destruct (precedence_source a b c Ha Hb Hc) as (s & -> & Hs). eauto.
    - rewrite final_location_codes_consignee.
      destruct (Hcand "Extracted Consignee Code") as (a & -> & Ha);
        [rewrite !elem_of_cons; tauto|].
      destruct (Hcand "Dest Type Consignee Code") as (b & -> & Hb);
        [rewrite !elem_of_cons; tauto|].
      destruct (Hcand "Addr_Lookup_Consignee_Code") as (c & -> & Hc);
        [rewrite !elem_of_cons; tauto|].
      destruct (precedence_source a b c Ha Hb Hc) as (s & -> & Hs). eauto. }
  unfold exceptions.
  apply (foldl_apply_rule_invariant (code_source refs)
           (sheet_columns (make_context refs cols)) EXCEPTION_RULES _ c s);
    [|exact Hs|exact Hsrc].
  intros rule Hrule. right; left. apply list_elem_of_fmap. by exists rule.
Qed.

End Provenance.

(** X26. Every final code of [run_pipeline] is the sentinel
    "NON-CINTAS", the literal of an exception rule, a literal of the
    Mississauga override, the formatted form of a code of the list of
    codes, or the formatted form of the code of a row of the location
    directory. *)
Theorem final_code_provenance `{Env} refs cols (r : row) :
  (∃ s, resolve_codes (make_context refs cols) r !! "Final Consignor Code" = Some (Str s)
        ∧ code_source refs s)
  ∧ (∃ s, resolve_codes (make_context refs cols) r !! "Final Consignee Code" = Some (Str s)
          ∧ code_source refs s).
Proof. split; apply final_code_source; tauto. Qed.

(** ** The address check and the address lookup *)

Lemma address_index_keys refs cols k :
  k ∈ combined_set (make_context refs cols)
  ↔ is_Some (address_to_code (location_finder (make_context refs cols)) !! k).
Proof.
  cbn [make_context combined_set location_finder Location_Codes_Finder__init__
       address_to_code].
  rewrite elem_of_master_combined_set, <- master_pairs_keys.
  rewrite <- not_eq_None_Some, dict_of_pairs_None. split; [tauto|].
  intros Hk. by apply dec_stable.
Qed.

Lemma combined_addresses_values (r : row) :
  (∃ o, col (combined_addresses r) "Consignor_Combined_Address" = cell_of o
        ∧ ∀ k, o = Some k → ∃ street city state, combine_addr street city state = Some k)
  ∧ (∃ o, col (combined_addresses r) "Consignee_Combined_Address" = cell_of o
          ∧ ∀ k, o = Some k → ∃ street city state, combine_addr street city state = Some k).
Proof.
  unfold combined_addresses. cbv zeta. split.
  - rewrite col_set_col_ne by done. rewrite col_set_col_eq. eexists. split; [done|].
    intros k Hk. eauto.
  - rewrite col_set_col_eq. eexists. split; [done|]. intros k Hk. eauto.
Qed.

(** An address that is not an address of the master table has no code in
    the address index. *)
Lemma unknown_address_has_no_code refs cols o :
  (∀ k, o = Some k → ∃ street city state, combine_addr street city state = Some k) →
  addr_ok (make_context refs cols) (cell_of o) = false →
  extract_from_address (location_finder (make_context refs cols)) (cell_of o) = None.
Proof.
  intros Ho Hok. destruct o as [k|]; [|done].
  destruct (Ho k eq_refl) as (street & city & state & Hk).
  unfold addr_ok in Hok. apply bool_decide_eq_false in Hok.
  change (as_text (cell_of (Some k))) with k in Hok.
  rewrite address_index_keys, <- eq_None_not_Some in Hok.
  unfold extract_from_address. simpl isna. cbv iota. simpl str.
  pose proof Hk as Hfix. apply combine_addr_fixed in Hfix as (-> & -> & ->).
  apply combine_addr_nonempty, is_empty_false in Hk. rewrite Hk.
  by rewrite Hok.
Qed.

(** X27. A party whose extracted code the address checker wipes has no
    address-lookup code either: the set of master addresses that the
    checker reads and the address index that the lookup reads have the
    same keys. For the consignee this is the code before the Mississauga
    override. *)
Theorem wiped_code_has_no_address_code `{Env} refs cols (r : row) :
  let ctx := make_context refs cols in
  let r2 := extract_codes ctx (combined_addresses r) in
  (wipe_consignor ctx r2 = true →
   candidates_of ctx r !! "Addr_Lookup_Consignor_Code" = Some (Str ""))
  ∧ (wipe_consignee ctx r2 = true →
     address_lookup_codes ctx (org_dest_type_codes ctx (address_checker_rule ctx r2))
       !! "Addr_Lookup_Consignee_Code" = Some (Str "")).
Proof.
  intros ctx r2.
  destruct (combined_addresses_values r) as [(o1 & Ho1 & Hk1) (o2 & Ho2 & Hk2)].
  split.
  - intros Hwipe. unfold candidates_of. fold r2.
    rewrite suite_mississauga_override_frame by done.
    rewrite address_lookup_codes_consignor.
    assert (col (org_dest_type_codes ctx (address_checker_rule ctx r2))
              "Consignor_Combined_Address" = cell_of o1) as ->.
    { rewrite <- Ho1. apply col_eq.
      rewrite org_dest_type_codes_frame, address_checker_rule_frame by done.
      unfold r2. by rewrite extract_codes_frame. }
    unfold ctx at 1. rewrite (unknown_address_has_no_code refs cols o1); [done..|].
    unfold wipe_consignor in Hwipe.
    apply andb_true_iff in Hwipe as [_ Hok]. apply negb_true_iff in Hok.
    rewrite <- Hok, <- Ho1. f_equal. apply col_eq. unfold r2. by rewrite extract_codes_frame.
  - intros Hwipe.
    rewrite address_lookup_codes_consignee.
    assert (col (org_dest_type_codes ctx (address_checker_rule ctx r2))
              "Consignee_Combined_Address" = cell_of o2) as ->.
    { rewrite <- Ho2. apply col_eq.
      rewrite org_dest_type_codes_frame, address_checker_rule_frame by done.
      unfold r2. by rewrite extract_codes_frame. }
    unfold ctx at 1. rewrite (unknown_address_has_no_code refs cols o2); [done..|].
    unfold wipe_consignee in Hwipe.
    apply andb_true_iff in Hwipe as [_ Hok]. apply negb_true_iff in Hok.
    rewrite <- Hok, <- Ho2. f_equal. apply col_eq. unfold r2. by rewrite extract_codes_frame.
Qed.
